(** * Payment ledger: posting rules, balance ledger, reversal and endpoints

    A shallow embedding of the ledger router of the payment-ledger service
    (the Express router mounted under [/api]): the helper functions
    [updateAccountBalance], [findOrCreateAccount], [getExchangeRate],
    [convertCurrency], the posting rules of [executeActions], and the
    handlers [POST /events], [POST /accounting-entries/:entryGroupId/reverse],
    [POST /accounting-entries], [GET /accounting-entries],
    [GET /accounting-entries/:entryId], [POST /accounts], [GET /accounts],
    [GET /accounts/:accountId] and [DELETE /delete-discrepancy-entries].

    Modelling decisions.
    - The three Mongoose collections (accounts, ledger entries, events), the
      module-level [ledgerConfig] and the supply of [uuidv4()] values form one
      explicit store.  A handler is a function from stores to a store and an
      outcome: what was written before an exception is thrown stays written,
      exactly as with the sequence of [await doc.save()] calls of the source.
    - A collection is a list in insertion order; [findOne] returns the first
      match, [find] every match in order, [save()] of a fetched document
      rewrites the position it was read from, [save()] of a new document
      appends it, [deleteMany] keeps the documents that do not match, in
      order.
    - JavaScript numbers are IEEE 754 binary64 numbers: Rocq's primitive
      floats, with their rounding, signed zeros, infinities and NaN.  The
      functions reach them through the interface [Number], which lists the
      operations the source uses ([+ - * /], unary minus, [Math.abs], [<],
      truthiness, the literals [0], [1], [0.001], and NaN), with
      [toFixed(2)] behind [NumberFormat]; [Float_Number] and
      [Float_NumberFormat] are the instances.  The four laws of [Number],
      proved of binary64, are the only facts about numbers the general
      proofs use; a theorem that needs another one states it as a
      hypothesis.  Every worked example is evaluated in binary64.
    - A lookup [table[key]] in a plain object answers the members of
      [Object.prototype] too: for a key such as "constructor" that the table
      does not list, the value is a function, truthy, and NaN as a number.
      The tables of [ledgerConfig] that the source indexes with a currency
      taken from a request or from an account are read this way
      ([table_get]).
    - [save()] of a ledger entry runs the validation of its schema; the one
      field a modelled path can get wrong is [amount], which Mongoose refuses
      to cast when it is NaN ([ValidationFailed]).  [save()] of an account
      is taken to succeed: Mongoose would refuse a balance that is NaN, and
      with entry amounts that are never NaN a balance becomes NaN only after
      an infinite amount or an overflow.
    - [uuidv4()] is a counter rendered as a string; two draws never collide,
      and the unique indexes on [account_id] and [entry_id], which only a
      collision could trip, are not modelled.
    - Requests are handled one after the other; interleavings of concurrent
      requests are outside the model.
    - Timestamps, [parent_account_id] and account metadata are not read by
      any modelled function and are left out of the records.  Of the schema
      validation run by [save()], the one that an event type can trip (a
      required [event_type]), the one of the amount of a ledger entry and
      the one of an account built from the body of [POST /accounts] are
      modelled; the other documents built by the modelled paths carry every
      field their schema requires.
    - A request body is a record of optional fields of the type the handler
      expects (a string, a number, a list), [None] standing for an absent
      field; a field sent as [null] or with a value of another type is
      outside the model.  A query parameter is an optional string.  [GET /accounting-entries]
      is modelled for queries without date bounds and with [page] and
      [pageSize], when given, positive integers.
    - [PUT /accounts/:accountId], the configuration endpoints and
      [POST /recalculate-balances] are not modelled. *)

From Stdlib Require Import ZArith Floats.
From stdpp Require Import gmap strings list pretty.

Set Default Proof Using "Type".
Set Warnings "-inexact-float".
Local Open Scope string_scope.
Local Open Scope list_scope.

(** ** JavaScript numbers *)

Class Number (num : Type) := {
  num_zero : num;                     (* the literal 0 *)
  num_one : num;                      (* the literal 1 *)
  num_tolerance : num;                (* the literal 0.001 *)
  num_nan : num;                      (* NaN, the number a function or object converts to *)
  num_add : num -> num -> num;        (* a + b *)
  num_sub : num -> num -> num;        (* a - b *)
  num_mul : num -> num -> num;        (* a * b *)
  num_div : num -> num -> num;        (* a / b *)
  num_neg : num -> num;               (* -a *)
  num_abs : num -> num;               (* Math.abs(a) *)
  num_lt : num -> num -> bool;        (* a < b *)
  num_truthy : num -> bool;           (* the condition [if (a)] *)
  num_isNaN : num -> bool;            (* a is NaN: Mongoose casts it to no Number *)
  (* the facts about JavaScript numbers the proofs rely on *)
  num_zero_falsy : num_truthy num_zero = false;
  num_NaN_falsy : forall a, num_isNaN a = true -> num_truthy a = false;
  num_abs_sub_sym : forall a b, num_abs (num_sub a b) = num_abs (num_sub b a);
  num_add_neg : forall a b, num_add a (num_neg b) = num_sub a b
}.

Declare Scope num_scope.
Delimit Scope num_scope with num.
Notation "a [+] b" := (num_add a b) (at level 50, left associativity) : num_scope.
Notation "a [-] b" := (num_sub a b) (at level 50, left associativity) : num_scope.
Notation "a [*] b" := (num_mul a b) (at level 40, left associativity) : num_scope.
Notation "a [/] b" := (num_div a b) (at level 40, left associativity) : num_scope.
Notation "a [<] b" := (num_lt a b) (at level 70, no associativity) : num_scope.
Notation "a [>] b" := (num_lt b a)
  (at level 70, no associativity, only parsing) : num_scope.

(** *** The binary64 numbers of the runtime

    The facts of [Number] hold of IEEE 754 binary64 arithmetic; they are
    read off the specification of the primitive floats. *)

Lemma SFabs_binary_round_aux prec emax s m e l :
  SFabs (binary_round_aux prec emax s m e l)
  = SFabs (binary_round_aux prec emax false m e l).
Proof.
  unfold binary_round_aux.
  destruct (shr_fexp prec emax m e l) as [mrs e'].
  destruct (shr_fexp prec emax _ e' loc_Exact) as [mrs' e''].
  destruct (shr_m mrs'); [done | | done].
  by destruct (Z.leb _ _).
Qed.

Lemma SFabs_binary_normalize prec emax m e z :
  SFabs (binary_normalize prec emax (- m) e z)
  = SFabs (binary_normalize prec emax m e z).
Proof.
  destruct m as [| p | p]; simpl; [done | |];
    unfold binary_round;
    destruct (shl_align _ _ _) as [mz ez];
    by rewrite (SFabs_binary_round_aux _ _ true).
Qed.

Lemma SFabs_sub_sym prec emax (x y : spec_float) :
  SFabs (SFsub prec emax x y) = SFabs (SFsub prec emax y x).
Proof.
  destruct x as [sx | sx | | sx mx ex], y as [sy | sy | | sy my ey];
    try done; try (by destruct sx, sy); try (by destruct sx); try (by destruct sy).
  unfold SFsub. rewrite (Z.min_comm ey ex).
  rewrite <- SFabs_binary_normalize. f_equal. f_equal. lia.
Qed.

Lemma SFadd_opp prec emax (x y : spec_float) :
  SFadd prec emax x (SFopp y) = SFsub prec emax x y.
Proof.
  destruct x as [sx | sx | | sx mx ex], y as [sy | sy | | sy my ey];
    try done; try (by destruct sx, sy); try (by destruct sx); try (by destruct sy).
Qed.

Lemma float_abs_sub_sym (a b : float) :
  PrimFloat.abs (PrimFloat.sub a b) = PrimFloat.abs (PrimFloat.sub b a).
Proof.
  apply Prim2SF_inj. rewrite !abs_spec, !sub_spec. apply SFabs_sub_sym.
Qed.

Lemma float_add_opp (a b : float) :
  PrimFloat.add a (PrimFloat.opp b) = PrimFloat.sub a b.
Proof.
  apply Prim2SF_inj. rewrite add_spec, opp_spec, sub_spec. apply SFadd_opp.
Qed.

(** [if (x)] on a number: 0, -0 and NaN are falsy. *)
Definition float_truthy (x : float) : bool :=
  negb (PrimFloat.eqb x 0%float) && negb (PrimFloat.is_nan x).

Lemma float_NaN_falsy (a : float) :
  PrimFloat.is_nan a = true -> float_truthy a = false.
Proof. unfold float_truthy. intros ->. by rewrite andb_false_r. Qed.

(** JavaScript's numbers: binary64 with its rounding, infinities and NaN.  A
    decimal literal denotes the nearest binary64 number, as in the source and
    in a JSON body. *)
#[export] Instance Float_Number : Number float := {|
  num_zero := 0%float;
  num_one := 1%float;
  num_tolerance := 0.001%float;
  num_nan := PrimFloat.nan;
  num_add := PrimFloat.add;
  num_sub := PrimFloat.sub;
  num_mul := PrimFloat.mul;
  num_div := PrimFloat.div;
  num_neg := PrimFloat.opp;
  num_abs := PrimFloat.abs;
  num_lt := PrimFloat.ltb;
  num_truthy := float_truthy;
  num_isNaN := PrimFloat.is_nan;
  num_zero_falsy := eq_refl;
  num_NaN_falsy := float_NaN_falsy;
  num_abs_sub_sym := float_abs_sub_sym;
  num_add_neg := float_add_opp
|}.

(** [x.toFixed(2)], the rendering [POST /accounting-entries] compares. *)
Class NumberFormat (num : Type) := {
  num_toFixed2 : num -> string
}.

(** Two decimal digits, with a leading zero below ten. *)
Definition two_digits (n : N) : string :=
  if (n <? 10)%N then "0" +:+ pretty n else pretty n.

(** A positive integer without its trailing decimal zeros. *)
Fixpoint strip_zeros (fuel : nat) (y : Z) : Z :=
  match fuel with
  | O => y
  | S fuel' => if (y mod 10 =? 0)%Z then strip_zeros fuel' (y / 10)%Z else y
  end.

(** The integer [y] reads back as the binary64 number [m * 2^e]: it lies
    within half a unit in the last place of it, the bounds included when [m]
    is even. *)
Definition rounds_to (m : positive) (e : Z) (y : Z) : bool :=
  let x := (Z.pos m * 2 ^ e)%Z in
  let above := (2 ^ (e - 1))%Z in
  let below := if (Z.pos m =? 2 ^ 52)%Z then (2 ^ (e - 2))%Z else above in
  if Z.even (Z.pos m)
  then ((x - below <=? y) && (y <=? x + above))%Z
  else ((x - below <? y) && (y <? x + above))%Z.

(** The shortest decimal that reads back as [m * 2^e], an integer of [n]
    digits: with [k] significant digits the candidates are the two multiples
    of [10^(n - k)] around it; the closer one is taken, the even one on a
    tie. *)
Fixpoint shortest (fuel k n : nat) (m : positive) (e : Z) : Z :=
  let x := (Z.pos m * 2 ^ e)%Z in
  match fuel with
  | O => x
  | S fuel' =>
      let p := (10 ^ Z.of_nat (n - k))%Z in
      let lo := (x / p * p)%Z in
      let hi := (lo + p)%Z in
      let ok_lo := rounds_to m e lo in
      let ok_hi := rounds_to m e hi in
      if ok_lo && ok_hi then
        (if (x - lo <? hi - x)%Z then lo
         else if (hi - x <? x - lo)%Z then hi
         else if Z.even (lo / p) then lo else hi)
      else if ok_lo then lo
      else if ok_hi then hi
      else shortest fuel' (S k) n m e
  end.

(** [String(x)] for [x = m * 2^e] at or above 1e21: the shortest digits, in
    exponent notation. *)
Definition toString_large (m : positive) (e : Z) : string :=
  let n := String.length (pretty (Z.to_N (Z.pos m * 2 ^ e))) in
  let y := shortest 17 1 n m e in
  let exponent := (String.length (pretty (Z.to_N y)) - 1)%nat in
  match pretty (Z.to_N (strip_zeros 400 y)) with
  | String d EmptyString => String d "" +:+ "e+" +:+ pretty exponent
  | String d rest => String d ("." +:+ rest) +:+ "e+" +:+ pretty exponent
  | EmptyString => ""
  end.

(** [x.toFixed(2)] of a binary64 number: below 1e21 the sign, then the
    nearest number of hundredths of the absolute value, the larger one on a
    tie; from 1e21 on, and for NaN and the infinities, [String(x)]. *)
Definition float_toFixed2 (x : float) : string :=
  match Prim2SF x with
  | S754_nan => "NaN"
  | S754_infinity s => if s then "-Infinity" else "Infinity"
  | S754_zero _ => "0.00"
  | S754_finite s m e =>
      (if s then "-" else "") +:+
      (if (0 <=? e)%Z then
         let v := (Z.pos m * 2 ^ e)%Z in
         if (v <? 10 ^ 21)%Z then pretty (Z.to_N v) +:+ ".00"
         else toString_large m e
       else
         let d := (2 ^ (- e))%Z in
         let n := ((200 * Z.pos m + d) / (2 * d))%Z in
         pretty (Z.to_N (n / 100)) +:+ "." +:+ two_digits (Z.to_N (n mod 100)))
  end.

#[export] Instance Float_NumberFormat : NumberFormat float := {|
  num_toFixed2 := float_toFixed2
|}.

(** Truthiness of a string: every string but the empty one. *)
Definition str_truthy (s : string) : bool :=
  match s with EmptyString => false | String _ _ => true end.

(** Truthiness of an optional field: [undefined] is falsy. *)
Definition opt_truthy {A} (t : A -> bool) (o : option A) : bool :=
  match o with Some a => t a | None => false end.

(** ** Data model *)

(** The enum shared by [nature] and [entry_type]. *)
Inductive Side := Debit | Credit.

Inductive AccountType := Asset | Liability | Equity | Revenue | Expense.

Inductive Status := Active | Inactive | Closed.

#[export] Instance Side_eq_dec : EqDecision Side.
Proof. solve_decision. Defined.

(** [account_type.toLowerCase()] *)
Definition toLowerCase (t : AccountType) : string :=
  match t with
  | Asset => "asset" | Liability => "liability" | Equity => "equity"
  | Revenue => "revenue" | Expense => "expense"
  end.

(** [entry_type === 'Debit' ? 'Credit' : 'Debit'] *)
Definition opposite (s : Side) : Side :=
  match s with Debit => Credit | Credit => Debit end.

(** The argument of [findOrCreateAccount], and the shape of an account
    description in [ledgerConfig.accounts]. *)
Record AccountCriteria := {
  crit_account_name : string;
  crit_account_type : AccountType;
  crit_nature : Side;
  crit_currency : string
}.

(** [{...configAccount, ...accountCriteria}]: both operands carry the same
    four keys, so every key is taken from the right operand. *)
Definition spread (configAccount accountCriteria : AccountCriteria) : AccountCriteria :=
  accountCriteria.

(** [{...spec, currency: c}] *)
Definition with_currency (spec : AccountCriteria) (c : string) : AccountCriteria :=
  {| crit_account_name := crit_account_name spec;
     crit_account_type := crit_account_type spec;
     crit_nature := crit_nature spec;
     crit_currency := c |}.

(** The names every plain object answers to without having them: the members
    of [Object.prototype]. *)
Definition Object_prototype : list string :=
  [ "constructor"; "__proto__"; "hasOwnProperty"; "isPrototypeOf";
    "propertyIsEnumerable"; "toString"; "toLocaleString"; "valueOf";
    "__defineGetter__"; "__defineSetter__"; "__lookupGetter__";
    "__lookupSetter__" ].

Definition inherited (key : string) : bool := bool_decide (key ∈ Object_prototype).

Section Ledger.
Context {num : Type} `{Number num}.
Local Open Scope num_scope.

Record Account := {
  account_id : string;
  account_number : string;
  account_name : string;
  account_type : AccountType;
  currency : string;
  status : Status;
  nature : Side;
  balance : num
}.

Inductive MetaValue := MStr (s : string) | MNum (x : num).

Record LedgerEntry := {
  entry_id : string;
  entryGroupId : string;
  transaction_id : option string;
  event_id : option string;
  entry_account_id : string;
  entry_type : Side;
  amount : num;
  entry_currency : string;
  description : string;
  metadata : gmap string MetaValue;
  isReversal : bool;
  isReversed : bool;
  originalEntryId : option string
}.

(** The event payload: every field may be absent. *)
Record Payload := {
  p_amount : option num;
  p_currency : option string;
  p_merchantId : option string;
  p_transactionFee : option num;
  p_settlementCurrency : option string;
  p_customerId : option string;
  p_originalAmount : option num;
  p_refundAmount : option num;
  p_transaction_id : option string;
  p_event_id : option string;
  p_metadata : gmap string MetaValue
}.

Record Event := {
  ev_event_id : string;
  ev_event_type : string;
  ev_payload : Payload
}.

(** The parts of [ledgerConfig] the posting engine reads. *)
Record Config := {
  cfg_accounts : gmap string (gmap string AccountCriteria);
  cfg_fx_fees : gmap string (gmap string num);
  cfg_rates : gmap string num          (* exchange_rates.rates *)
}.

Record Store := {
  db_accounts : list Account;
  db_entries : list LedgerEntry;
  db_events : list Event;
  ledgerConfig : Config;
  uuid_next : nat
}.

(** What indexing a plain object with a string gives. *)
Inductive Looked :=
| Own (v : num)      (* an entry of the object itself *)
| Builtin            (* a member of [Object.prototype]: a function or an object *)
| Undefined.

(** ** Errors and the handler monad *)

(** One constructor per [throw new Error(...)] or error response of the
    source, named after the error kinds of the specification. *)
Inductive Error :=
| MissingFields (eventType : string)          (* Missing required fields in payload for ... *)
| ExchangeRateUnavailable (from to : string)  (* Exchange rate not available for ... to ... *)
| ImbalanceError                              (* Ledger entries are not balanced *)
| InsufficientFundsError                      (* Insufficient funds in merchant account ... *)
| RefundExceedsOriginalError                  (* Refund amount cannot exceed the original ... *)
| UnsupportedEventType (eventType : string)   (* Unsupported event type: ... *)
| AccountNotFound (accountId : string)        (* Account with ID ... not found *)
| CurrencyMismatchError                       (* Currency mismatch: ... *)
| NotFoundError                               (* Entry group not found *)
| AlreadyReversedError                        (* This entry group has already been reversed *)
| TypeError                                   (* property access on undefined *)
| ValidationFailed.                           (* Mongoose required-field validation *)

Inductive outcome (A : Type) :=
| Return (a : A)
| Throw (e : Error).
Global Arguments Return {A} a.
Global Arguments Throw {A} e.

Definition M (A : Type) : Type := Store -> Store * outcome A.

Definition ret {A} (a : A) : M A := fun st => (st, Return a).

Definition throw {A} (e : Error) : M A := fun st => (st, Throw e).

Definition bind {A B} (m : M A) (k : A -> M B) : M B :=
  fun st =>
    match m st with
    | (st', Return a) => k a st'
    | (st', Throw e) => (st', Throw e)
    end.

Local Notation "'do' x <- m ; k" := (bind m (fun x => k))
  (at level 10, x name, m at level 100, k at level 200,
   format "'[v' 'do'  x  <-  m ; '/' k ']'").
Local Notation "'do' ' p <- m ; k" := (bind m (fun x => match x with p => k end))
  (at level 10, p pattern, m at level 100, k at level 200,
   format "'[v' 'do'  ' p  <-  m ; '/' k ']'").
Local Notation "'exec' m ; k" := (bind m (fun _ => k))
  (at level 10, m at level 100, k at level 200,
   format "'[v' 'exec'  m ; '/' k ']'").

(** ** Storage primitives *)

Definition set_accounts (l : list Account) (st : Store) : Store :=
  {| db_accounts := l; db_entries := db_entries st; db_events := db_events st;
     ledgerConfig := ledgerConfig st; uuid_next := uuid_next st |}.

Definition set_entries (l : list LedgerEntry) (st : Store) : Store :=
  {| db_accounts := db_accounts st; db_entries := l; db_events := db_events st;
     ledgerConfig := ledgerConfig st; uuid_next := uuid_next st |}.

Definition set_events (l : list Event) (st : Store) : Store :=
  {| db_accounts := db_accounts st; db_entries := db_entries st; db_events := l;
     ledgerConfig := ledgerConfig st; uuid_next := uuid_next st |}.

Definition set_uuid_next (n : nat) (st : Store) : Store :=
  {| db_accounts := db_accounts st; db_entries := db_entries st;
     db_events := db_events st; ledgerConfig := ledgerConfig st; uuid_next := n |}.

(** The [n]-th value handed out by [uuidv4()]. *)
Definition uuid (n : nat) : string := "uuid-" +:+ pretty n.

Definition uuidv4 : M string :=
  fun st => (set_uuid_next (S (uuid_next st)) st, Return (uuid (uuid_next st))).

(** [Account.findOne(filter)]: the first match, with its position. *)
Definition Account_findOne (P : Account -> Prop) `{!forall a, Decision (P a)}
  : M (option (nat * Account)) :=
  fun st => (st, Return (list_find P (db_accounts st))).

(** [account.save()] on a document fetched at position [i]. *)
Definition Account_save (i : nat) (a : Account) : M unit :=
  fun st => (set_accounts (<[i := a]> (db_accounts st)) st, Return tt).

(** [account.save()] on a new document. *)
Definition Account_insert (a : Account) : M unit :=
  fun st => (set_accounts (db_accounts st ++ [a]) st, Return tt).

(** Every match of a filter, in collection order, each with its position. *)
Fixpoint find_from (P : LedgerEntry -> bool) (i : nat) (l : list LedgerEntry)
  : list (nat * LedgerEntry) :=
  match l with
  | [] => []
  | e :: l' => if P e then (i, e) :: find_from P (S i) l' else find_from P (S i) l'
  end.

(** [LedgerEntry.find(filter)] *)
Definition LedgerEntry_find (P : LedgerEntry -> bool) : M (list (nat * LedgerEntry)) :=
  fun st => (st, Return (find_from P 0 (db_entries st))).

(** [entry.save()] on a document fetched at position [i]. *)
Definition LedgerEntry_save (i : nat) (e : LedgerEntry) : M unit :=
  fun st => (set_entries (<[i := e]> (db_entries st)) st, Return tt).

(** [ledgerEntry.save()] on a new document.  The schema requires [amount]
    to be a Number, and Mongoose casts NaN to none: the document of an entry
    whose amount is NaN is refused and nothing is written. *)
Definition LedgerEntry_insert (e : LedgerEntry) : M unit :=
  fun st =>
    if num_isNaN (amount e) then (st, Throw ValidationFailed)
    else (set_entries (db_entries st ++ [e]) st, Return tt).

(** [event.save()]; the schema marks [event_type] as required, which
    Mongoose refuses for the empty string. *)
Definition Event_save (e : Event) : M unit :=
  fun st =>
    if str_truthy (ev_event_type e)
    then (set_events (db_events st ++ [e]) st, Return tt)
    else (st, Throw ValidationFailed).

(** Run a computation that only reads [ledgerConfig]. *)
Definition with_config {A} (f : Config -> outcome A) : M A :=
  fun st => (st, f (ledgerConfig st)).

(** ** Helper functions *)

Definition set_balance (a : Account) (b : num) : Account :=
  {| account_id := account_id a; account_number := account_number a;
     account_name := account_name a; account_type := account_type a;
     currency := currency a; status := status a; nature := nature a;
     balance := b |}.

(** The signed change of [updateAccountBalance].  The source initialises
    [balanceChange] to [amount] for an account whose nature is neither
    'Debit' nor 'Credit'; the schema enum leaves no such account. *)
Definition balanceChange (accountNature entryType : Side) (amt : num) : num :=
  match accountNature with
  | Debit => if decide (entryType = Debit) then amt else num_neg amt
  | Credit => if decide (entryType = Credit) then amt else num_neg amt
  end.

(** [updateAccountBalance(accountId, entryType, amount, currency)] *)
Definition updateAccountBalance (accountId : string) (entryType : Side)
    (amt : num) (cur : string) : M unit :=
  do found <- Account_findOne (fun a => account_id a = accountId);
  match found with
  | None => throw (AccountNotFound accountId)
  | Some (i, account) =>
      if decide (currency account <> cur) then throw CurrencyMismatchError
      else Account_save i
             (set_balance account
                (balance account [+] balanceChange (nature account) entryType amt))
  end.

(** [findOrCreateAccount(accountCriteria)]: the account with the name and
    the currency of the criteria, created with a zero balance when there is
    none. *)
Definition findOrCreateAccount (accountCriteria : AccountCriteria) : M Account :=
  do configAccount <- with_config (fun cfg => Return
       (cfg_accounts cfg !! toLowerCase (crit_account_type accountCriteria)
          ≫= (fun byCurrency => byCurrency !! crit_currency accountCriteria)));
  let accountCriteria :=
    match configAccount with
    | Some c => spread c accountCriteria
    | None => accountCriteria
    end in
  do found <- Account_findOne (fun a =>
       account_name a = crit_account_name accountCriteria
       /\ currency a = crit_currency accountCriteria);
  match found with
  | Some (_, account) => ret account
  | None =>
      do uniqueId <- uuidv4;
      let account :=
        {| account_id := uniqueId; account_number := uniqueId;
           account_name := crit_account_name accountCriteria;
           account_type := crit_account_type accountCriteria;
           currency := crit_currency accountCriteria;
           status := Active;
           nature := crit_nature accountCriteria;
           balance := num_zero |} in
      exec Account_insert account;
      ret account
  end.

(** [table[key]] on a table of numbers of the configuration, a plain
    object: the table's own entry, else the member of [Object.prototype] of
    that name, else [undefined]. *)
Definition table_get (table : gmap string num) (key : string) : Looked :=
  match table !! key with
  | Some v => Own v
  | None => if inherited key then Builtin else Undefined
  end.

(** The condition [if (v)] on what a lookup gave: a function or an object is
    truthy, [undefined] is not. *)
Definition looked_truthy (v : Looked) : bool :=
  match v with
  | Own x => num_truthy x
  | Builtin => true
  | Undefined => false
  end.

(** The number an arithmetic operator makes of what a lookup gave: a
    function, an object of [Object.prototype] and [undefined] convert to NaN. *)
Definition looked_number (v : Looked) : num :=
  match v with
  | Own x => x
  | Builtin | Undefined => num_nan
  end.

(** [getExchangeRate(fromCurrency, toCurrency)], reading the rates of the
    configuration it is given. *)
Definition getExchangeRate (cfg : Config) (fromCurrency toCurrency : string)
  : outcome num :=
  let rates := cfg_rates cfg in
  if decide (fromCurrency = toCurrency) then Return num_one
  else if negb (looked_truthy (table_get rates fromCurrency))
          || negb (looked_truthy (table_get rates toCurrency))
  then Throw (ExchangeRateUnavailable fromCurrency toCurrency)
  else Return (looked_number (table_get rates toCurrency)
               [/] looked_number (table_get rates fromCurrency)).

(** [convertCurrency(amount, fromCurrency, toCurrency)] *)
Definition convertCurrency (cfg : Config) (amt : num) (fromCurrency toCurrency : string)
  : outcome num :=
  match getExchangeRate cfg fromCurrency toCurrency with
  | Return rate => Return (amt [*] rate)
  | Throw e => Throw e
  end.

(** ** The posting rules *)

(** An element of the local array [ledgerEntries] of [executeActions]. *)
Record EntryData := {
  ed_account_id : string;
  ed_entry_type : Side;
  ed_amount : num;
  ed_currency : string;
  ed_description : string;
  ed_metadata : gmap string MetaValue
}.

(** [s || d] on an optional string. *)
Definition str_or (s : option string) (d : string) : string :=
  match s with
  | Some v => if str_truthy v then v else d
  | None => d
  end.

(** [ledgerConfig.fx_fees[source]?.[settlement] || 0], as the number the
    multiplication that follows makes of it.  Where [fx_fees] has no row for
    [source], [fx_fees[source]] is [undefined], or the member of
    [Object.prototype] named [source]: of that built-in the lookup again finds
    the members of [Object.prototype], and is taken to find nothing under any
    other name.  (A built-in function has members of its own, such as [name]
    and [length]; [getExchangeRate], which the source calls first, lets such
    a settlement currency through only if the rate table lists it.  The
    source reads the rate only where the two currencies differ.) *)
Definition fxFeeRate (cfg : Config) (source settlement : string) : num :=
  let rate :=
    match cfg_fx_fees cfg !! source with
    | Some row => table_get row settlement
    | None =>
        if inherited source && inherited settlement then Builtin else Undefined
    end in
  if looked_truthy rate then looked_number rate else num_zero.

(** [ledgerConfig.accounts.revenue.<key>]; reading it from a configuration
    that lacks it ends in a TypeError before any account is touched. *)
Definition revenueAccount (key : string) : M AccountCriteria :=
  with_config (fun cfg =>
    match cfg_accounts cfg !! "revenue" ≫= (fun m => m !! key) with
    | Some spec => Return spec
    | None => Throw TypeError
    end).

(** [Math.abs(totalDebits - totalCredits) > 0.001] *)
Definition unbalanced (totalDebits totalCredits : num) : bool :=
  num_abs (totalDebits [-] totalCredits) [>] num_tolerance.

(** The [forEach] that totals a group: the pair (totalDebits, totalCredits). *)
Definition totals (ledgerEntries : list EntryData) : num * num :=
  fold_left (fun '(d, c) entry =>
               match ed_entry_type entry with
               | Debit => (d [+] ed_amount entry, c)
               | Credit => (d, c [+] ed_amount entry)
               end)
            ledgerEntries (num_zero, num_zero).

(** The check that closes every case of the switch:
    [if (Math.abs(totalDebits - totalCredits) > 0.001) throw ...]. *)
Definition balanceGate (proposed : list EntryData * num * num) : M (list EntryData) :=
  let '(ledgerEntries, totalDebits, totalCredits) := proposed in
  if unbalanced totalDebits totalCredits then throw ImbalanceError
  else ret ledgerEntries.

(** [case 'PaymentCaptured'], up to its balance check: the proposed
    entries with the running totals. *)
Definition paymentCaptured (payload : Payload) : M (list EntryData * num * num) :=
  match p_amount payload, p_currency payload, p_merchantId payload,
        p_transactionFee payload with
  | Some amount, Some currency, Some merchantId, Some transactionFee =>
    if negb (num_truthy amount) || negb (str_truthy currency)
       || negb (str_truthy merchantId)
    then throw (MissingFields "PaymentCaptured")
    else
      let sourceCurrency := currency in
      let settlementCurrency := str_or (p_settlementCurrency payload) sourceCurrency in
      do '(totalAmountInSettlementCurrency, transactionFeeInSettlementCurrency, fxFee) <-
        (if decide (sourceCurrency <> settlementCurrency) then
           do exchangeRate <-
             with_config (fun cfg => getExchangeRate cfg sourceCurrency settlementCurrency);
           do rate <-
             with_config (fun cfg => Return (fxFeeRate cfg sourceCurrency settlementCurrency));
           ret (amount [*] exchangeRate, transactionFee [*] exchangeRate,
                amount [*] rate [*] exchangeRate)
         else ret (amount, transactionFee, num_zero));
      do cash <- findOrCreateAccount
        {| crit_account_name := "Cash - " +:+ settlementCurrency;
           crit_currency := settlementCurrency;
           crit_account_type := Asset; crit_nature := Debit |};
      let e1 :=
        {| ed_account_id := account_id cash; ed_entry_type := Debit;
           ed_amount := totalAmountInSettlementCurrency;
           ed_currency := settlementCurrency;
           ed_description :=
             "Funds received from customer " +:+ str_or (p_customerId payload) "";
           ed_metadata := ∅ |} in
      let totalDebits := num_zero [+] totalAmountInSettlementCurrency in
      do payable <- findOrCreateAccount
        {| crit_account_name := "Merchant Payable - " +:+ merchantId;
           crit_currency := settlementCurrency;
           crit_account_type := Liability; crit_nature := Credit |};
      let e2 :=
        {| ed_account_id := account_id payable; ed_entry_type := Credit;
           ed_amount := totalAmountInSettlementCurrency
                          [-] transactionFeeInSettlementCurrency [-] fxFee;
           ed_currency := settlementCurrency;
           ed_description := "Liability to pay the merchant " +:+ merchantId;
           ed_metadata := ∅ |} in
      let totalCredits :=
        num_zero [+] (totalAmountInSettlementCurrency
                       [-] transactionFeeInSettlementCurrency [-] fxFee) in
      do feeSpec <- revenueAccount "transaction_fees";
      do feeRevenue <- findOrCreateAccount (with_currency feeSpec settlementCurrency);
      let e3 :=
        {| ed_account_id := account_id feeRevenue; ed_entry_type := Credit;
           ed_amount := transactionFeeInSettlementCurrency;
           ed_currency := settlementCurrency;
           ed_description := "Transaction fee revenue";
           ed_metadata := ∅ |} in
      let totalCredits := totalCredits [+] transactionFeeInSettlementCurrency in
      if fxFee [>] num_zero then
        do fxSpec <- revenueAccount "fx_fees";
        do fxRevenue <- findOrCreateAccount (with_currency fxSpec settlementCurrency);
        ret ([e1; e2; e3;
              {| ed_account_id := account_id fxRevenue; ed_entry_type := Credit;
                 ed_amount := fxFee; ed_currency := settlementCurrency;
                 ed_description := "FX fee revenue"; ed_metadata := ∅ |}],
             totalDebits, totalCredits [+] fxFee)
      else ret ([e1; e2; e3], totalDebits, totalCredits)
  | _, _, _, _ => throw (MissingFields "PaymentCaptured")
  end.

(** The two entries shared by both refund rules. *)
Definition refundEntries (payable cash : Account) (amt : num) (cur : string)
    (debitDescription creditDescription : string) (md : gmap string MetaValue)
  : list EntryData :=
  [ {| ed_account_id := account_id payable; ed_entry_type := Debit;
       ed_amount := amt; ed_currency := cur;
       ed_description := debitDescription; ed_metadata := md |};
    {| ed_account_id := account_id cash; ed_entry_type := Credit;
       ed_amount := amt; ed_currency := cur;
       ed_description := creditDescription; ed_metadata := md |} ].

(** [case 'PaymentRefunded'], up to its balance check. *)
Definition paymentRefunded (payload : Payload) : M (list EntryData * num * num) :=
  match p_amount payload, p_currency payload, p_merchantId payload with
  | Some amount, Some currency, Some merchantId =>
    if negb (num_truthy amount) || negb (str_truthy currency)
       || negb (str_truthy merchantId)
    then throw (MissingFields "PaymentRefunded")
    else
      do merchantPayableAccountRefund <- findOrCreateAccount
        {| crit_account_name := "Merchant Payable - " +:+ merchantId;
           crit_currency := currency;
           crit_account_type := Liability; crit_nature := Credit |};
      if balance merchantPayableAccountRefund [<] amount
      then throw InsufficientFundsError
      else
        do cashAccountRefund <- findOrCreateAccount
          {| crit_account_name := "Cash - " +:+ currency;
             crit_currency := currency;
             crit_account_type := Asset; crit_nature := Debit |};
        let ledgerEntries :=
          refundEntries merchantPayableAccountRefund cashAccountRefund amount currency
            ("Refund to customer for merchant " +:+ merchantId)
            ("Cash refunded to customer " +:+ str_or (p_customerId payload) "")
            (<["refundType" := MStr "Full"]> (p_metadata payload)) in
        ret (ledgerEntries, (totals ledgerEntries).1, (totals ledgerEntries).2)
  | _, _, _ => throw (MissingFields "PaymentRefunded")
  end.

(** [case 'PaymentPartiallyRefunded'], up to its balance check. *)
Definition paymentPartiallyRefunded (payload : Payload)
  : M (list EntryData * num * num) :=
  match p_originalAmount payload, p_refundAmount payload, p_currency payload,
        p_merchantId payload with
  | Some originalAmount, Some refundAmount, Some currency, Some merchantId =>
    if negb (num_truthy originalAmount) || negb (num_truthy refundAmount)
       || negb (str_truthy currency) || negb (str_truthy merchantId)
    then throw (MissingFields "PaymentPartiallyRefunded")
    else if refundAmount [>] originalAmount then throw RefundExceedsOriginalError
    else
      do merchantPayableAccountPartialRefund <- findOrCreateAccount
        {| crit_account_name := "Merchant Payable - " +:+ merchantId;
           crit_currency := currency;
           crit_account_type := Liability; crit_nature := Credit |};
      if balance merchantPayableAccountPartialRefund [<] refundAmount
      then throw InsufficientFundsError
      else
        do cashAccountPartialRefund <- findOrCreateAccount
          {| crit_account_name := "Cash - " +:+ currency;
             crit_currency := currency;
             crit_account_type := Asset; crit_nature := Debit |};
        let ledgerEntries :=
          refundEntries merchantPayableAccountPartialRefund cashAccountPartialRefund
            refundAmount currency
            ("Partial refund to customer for merchant " +:+ merchantId)
            ("Cash partially refunded to customer " +:+ str_or (p_customerId payload) "")
            (<["originalAmount" := MNum originalAmount]>
               (<["refundType" := MStr "Partial"]> (p_metadata payload))) in
        ret (ledgerEntries, (totals ledgerEntries).1, (totals ledgerEntries).2)
  | _, _, _, _ => throw (MissingFields "PaymentPartiallyRefunded")
  end.

(** The [switch (eventType)] of [executeActions], each case up to its
    balance check. *)
Definition proposeEntries (eventType : string) (payload : Payload)
  : M (list EntryData * num * num) :=
  if decide (eventType = "PaymentCaptured") then paymentCaptured payload
  else if decide (eventType = "PaymentRefunded") then paymentRefunded payload
  else if decide (eventType = "PaymentPartiallyRefunded")
       then paymentPartiallyRefunded payload
  else throw (UnsupportedEventType eventType).

(** The whole [switch]: a case's entries leave it only through its balance
    check. *)
Definition postingRule (eventType : string) (payload : Payload) : M (list EntryData) :=
  do proposed <- proposeEntries eventType payload;
  balanceGate proposed.

(** [new LedgerEntry({ entry_id, entryGroupId, ... })] in the loop of
    [executeActions]; [isReversal] and [isReversed] take their schema default. *)
Definition newLedgerEntry (entryId entryGroupId' transactionId eventId : string)
    (entryData : EntryData) : LedgerEntry :=
  {| entry_id := entryId; entryGroupId := entryGroupId';
     transaction_id := Some transactionId; event_id := Some eventId;
     entry_account_id := ed_account_id entryData;
     entry_type := ed_entry_type entryData;
     amount := ed_amount entryData;
     entry_currency := ed_currency entryData;
     description := ed_description entryData;
     metadata := <["event_id" := MStr eventId]> (ed_metadata entryData);
     isReversal := false; isReversed := false; originalEntryId := None |}.

(** The loop "Save entries and update account balances". *)
Fixpoint saveEntries (entryGroupId transactionId eventId : string)
    (ledgerEntries : list EntryData) : M (list LedgerEntry) :=
  match ledgerEntries with
  | [] => ret []
  | entryData :: rest =>
      do entryId <- uuidv4;
      let ledgerEntry :=
        newLedgerEntry entryId entryGroupId transactionId eventId entryData in
      exec LedgerEntry_insert ledgerEntry;
      exec updateAccountBalance (entry_account_id ledgerEntry) (entry_type ledgerEntry)
             (amount ledgerEntry) (entry_currency ledgerEntry);
      do createdEntries <- saveEntries entryGroupId transactionId eventId rest;
      ret (ledgerEntry :: createdEntries)
  end.

(** [o || uuidv4()]: a value is drawn only when [o] is falsy. *)
Definition or_uuidv4 (o : option string) : M string :=
  match o with
  | Some v => if str_truthy v then ret v else uuidv4
  | None => uuidv4
  end.

(** The three identifiers fixed at the top of [executeActions]. *)
Definition drawIds (payload : Payload) : M (string * string * string) :=
  do entryGroupId <- uuidv4;
  do transactionId <- or_uuidv4 (p_transaction_id payload);
  do eventId <- or_uuidv4 (p_event_id payload);
  ret (entryGroupId, transactionId, eventId).

Definition executeActions (eventType : string) (payload : Payload)
  : M (list LedgerEntry) :=
  do '(entryGroupId, transactionId, eventId) <- drawIds payload;
  do ledgerEntries <- postingRule eventType payload;
  saveEntries entryGroupId transactionId eventId ledgerEntries.

(** ** Request handlers *)

(** [{ ...payload, event_id: id }] *)
Definition with_event_id (payload : Payload) (id : string) : Payload :=
  {| p_amount := p_amount payload; p_currency := p_currency payload;
     p_merchantId := p_merchantId payload;
     p_transactionFee := p_transactionFee payload;
     p_settlementCurrency := p_settlementCurrency payload;
     p_customerId := p_customerId payload;
     p_originalAmount := p_originalAmount payload;
     p_refundAmount := p_refundAmount payload;
     p_transaction_id := p_transaction_id payload;
     p_event_id := Some id;
     p_metadata := p_metadata payload |}.

(** The body of [POST /events] (and of its twin [POST /event]). *)
Definition postEvents (eventType : string) (payload : Payload) : M (list LedgerEntry) :=
  do eventId <- uuidv4;
  let event :=
    {| ev_event_id := eventId; ev_event_type := eventType; ev_payload := payload |} in
  exec Event_save event;
  executeActions eventType (with_event_id payload (ev_event_id event)).

Definition set_isReversed (e : LedgerEntry) (b : bool) : LedgerEntry :=
  {| entry_id := entry_id e; entryGroupId := entryGroupId e;
     transaction_id := transaction_id e; event_id := event_id e;
     entry_account_id := entry_account_id e; entry_type := entry_type e;
     amount := amount e; entry_currency := entry_currency e;
     description := description e; metadata := metadata e;
     isReversal := isReversal e; isReversed := b;
     originalEntryId := originalEntryId e |}.

(** [new LedgerEntry({ ... isReversal: true, originalEntryId })] in the
    reversal handler. *)
Definition newReversalEntry (entryId reversalEntryGroupId reversalReason : string)
    (originalEntry : LedgerEntry) (reversalAmount : num)
    (reversalCurrency : string) (exchangeRate : num) : LedgerEntry :=
  {| entry_id := entryId; entryGroupId := reversalEntryGroupId;
     transaction_id := transaction_id originalEntry;
     event_id := event_id originalEntry;
     entry_account_id := entry_account_id originalEntry;
     entry_type := opposite (entry_type originalEntry);
     amount := reversalAmount;
     entry_currency := reversalCurrency;
     description := "Reversal of entry " +:+ entry_id originalEntry;
     metadata :=
       <["exchangeRate" := MNum exchangeRate]>
       (<["reversalReason" := MStr reversalReason]>
       (<["originalCurrency" := MStr (entry_currency originalEntry)]>
       (<["originalAmount" := MNum (amount originalEntry)]>
       (<["originalEntryId" := MStr (entry_id originalEntry)]>
          (metadata originalEntry)))));
     isReversal := true; isReversed := false;
     originalEntryId := Some (entry_id originalEntry) |}.

(** The first loop of the reversal handler: build one reversal entry per
    original entry and mark the original as reversed. *)
Fixpoint buildReversals (reversalEntryGroupId reversalReason : string)
    (originalEntries : list (nat * LedgerEntry)) : M (list LedgerEntry) :=
  match originalEntries with
  | [] => ret []
  | (i, originalEntry) :: rest =>
      do found <- Account_findOne
                    (fun a => account_id a = entry_account_id originalEntry);
      match found with
      | None => throw (AccountNotFound (entry_account_id originalEntry))
      | Some (_, account) =>
          do '(reversalAmount, reversalCurrency, exchangeRate) <-
            (if decide (currency account <> entry_currency originalEntry) then
               do exchangeRate <- with_config (fun cfg =>
                    getExchangeRate cfg (entry_currency originalEntry) (currency account));
               ret (amount originalEntry [*] exchangeRate, currency account, exchangeRate)
             else ret (amount originalEntry, entry_currency originalEntry, num_one));
          do entryId <- uuidv4;
          let reversalEntry :=
            newReversalEntry entryId reversalEntryGroupId reversalReason
              originalEntry reversalAmount reversalCurrency exchangeRate in
          exec LedgerEntry_save i (set_isReversed originalEntry true);
          do reversalEntries <- buildReversals reversalEntryGroupId reversalReason rest;
          ret (reversalEntry :: reversalEntries)
      end
  end.

(** The second loop: "Save reversal entries and update account balances". *)
Fixpoint saveReversals (reversalEntries : list LedgerEntry) : M unit :=
  match reversalEntries with
  | [] => ret tt
  | reversalEntry :: rest =>
      exec LedgerEntry_insert reversalEntry;
      exec updateAccountBalance (entry_account_id reversalEntry)
             (entry_type reversalEntry) (amount reversalEntry)
             (entry_currency reversalEntry);
      saveReversals rest
  end.

(** The body of [POST /accounting-entries/:entryGroupId/reverse]; the result
    is the pair (reversalEntryGroupId, reversalEntries) of the response. *)
Definition reverse (entryGroupId' : string) (reversalReason : option string)
  : M (string * list LedgerEntry) :=
  do originalEntries <-
    LedgerEntry_find (fun e => bool_decide (entryGroupId e = entryGroupId'));
  match originalEntries with
  | [] => throw NotFoundError
  | _ :: _ =>
      if existsb (fun ie => isReversed ie.2) originalEntries
      then throw AlreadyReversedError
      else
        do reversalEntryGroupId <- uuidv4;
        do reversalEntries <-
          buildReversals reversalEntryGroupId (str_or reversalReason "Not specified")
            originalEntries;
        exec saveReversals reversalEntries;
        ret (reversalEntryGroupId, reversalEntries)
  end.


(** ** The other endpoints *)

(** What a handler sends: [res.status(s).json(body)]; an error response with
    a literal message, [res.status(s).json({ error: '...' })]; or the response
    of its [catch] block, [res.status(500).json({ error: err.message })]. *)
Inductive Reply (A : Type) :=
| Json (status : nat) (body : A)
| ErrorJson (status : nat) (error : string)
| Caught (e : Error).
Global Arguments Json {A} status body.
Global Arguments ErrorJson {A} status error.
Global Arguments Caught {A} e.

Definition reply_status {A} (r : Reply A) : nat :=
  match r with
  | Json s _ => s
  | ErrorJson s _ => s
  | Caught _ => 500
  end.

Definition Handler (A : Type) : Type := Store -> Store * Reply A.

(** [try { ... } catch (err) { res.status(500).json({ error: err.message }) }] *)
Definition try_catch {A} (m : M (Reply A)) : Handler A :=
  fun st =>
    match m st with
    | (st', Return r) => (st', r)
    | (st', Throw e) => (st', Caught e)
    end.

(** [if (v) filter.field = v]: a falsy query parameter puts no condition. *)
Definition param_filter {A} (param : option string) (test : string -> A -> bool)
    (a : A) : bool :=
  match param with
  | Some v => if str_truthy v then test v a else true
  | None => true
  end.

(** *** Accounts *)

Definition AccountType_name (t : AccountType) : string :=
  match t with
  | Asset => "Asset" | Liability => "Liability" | Equity => "Equity"
  | Revenue => "Revenue" | Expense => "Expense"
  end.

Definition Status_name (s : Status) : string :=
  match s with Active => "Active" | Inactive => "Inactive" | Closed => "Closed" end.

Definition Side_name (s : Side) : string :=
  match s with Debit => "Debit" | Credit => "Credit" end.

(** The member of an enum a string names, if any: the [enum] validators of
    the schemas. *)
Definition parse_AccountType (s : string) : option AccountType :=
  list_find (fun t => AccountType_name t = s) [Asset; Liability; Equity; Revenue; Expense]
  ≫= (fun it => Some it.2).

Definition parse_Status (s : string) : option Status :=
  list_find (fun t => Status_name t = s) [Active; Inactive; Closed]
  ≫= (fun it => Some it.2).

Definition parse_Side (s : string) : option Side :=
  list_find (fun t => Side_name t = s) [Debit; Credit] ≫= (fun it => Some it.2).

(** The body of [POST /accounts]; every field may be absent. *)
Record AccountBody := {
  ab_accountName : option string;
  ab_nature : option string;
  ab_accountType : option string;
  ab_currency : option string;
  ab_status : option string
}.

(** [new Account({...})] of [POST /accounts] as [save()] validates it: every
    required string is present and not empty, every enum field names a member
    of its enum.  The balance is the literal 0, whatever the body says. *)
Definition validAccount (accountNumber accountId : string) (body : AccountBody)
  : option Account :=
  match ab_accountName body, ab_accountType body ≫= parse_AccountType,
        ab_currency body, ab_status body ≫= parse_Status,
        ab_nature body ≫= parse_Side with
  | Some accountName, Some accountType, Some cur, Some status', Some nature' =>
      if str_truthy accountName && str_truthy cur
      then Some {| account_id := accountId; account_number := accountNumber;
                   account_name := accountName; account_type := accountType;
                   currency := cur; status := status'; nature := nature';
                   balance := num_zero |}
      else None
  | _, _, _, _, _ => None
  end.

(** [POST /accounts].  [account_number] is the identifier the handler draws;
    [account_id] is drawn by the schema default when the document is built. *)
Definition createAccount (body : AccountBody) : Handler Account :=
  try_catch
    (do uniqueId <- uuidv4;
     do accountId <- uuidv4;
     match validAccount uniqueId accountId body with
     | Some newAccount =>
         exec Account_insert newAccount;
         ret (Json 201 newAccount)
     | None => throw ValidationFailed
     end).

(** [GET /accounts/:accountId] *)
Definition getAccount (accountId : string) : Handler Account :=
  try_catch
    (do found <- Account_findOne (fun a => account_id a = accountId);
     match found with
     | None => ret (ErrorJson 404 "Account not found")
     | Some (_, account) => ret (Json 200 account)
     end).

(** The query of [GET /accounts]. *)
Record AccountsQuery := {
  aq_accountType : option string;
  aq_currency : option string;
  aq_status : option string
}.

(** The filter [GET /accounts] builds from its query. *)
Definition accountsFilter (q : AccountsQuery) (a : Account) : bool :=
  param_filter (aq_accountType q)
    (fun v a => bool_decide (AccountType_name (account_type a) = v)) a
  && param_filter (aq_currency q) (fun v a => bool_decide (currency a = v)) a
  && param_filter (aq_status q) (fun v a => bool_decide (Status_name (status a) = v)) a.

(** [GET /accounts] *)
Definition listAccounts (q : AccountsQuery) : Handler (list Account) :=
  fun st => (st, Json 200 (List.filter (accountsFilter q) (db_accounts st))).

(** *** Manual postings *)

(** An element of [req.body.entries] of [POST /accounting-entries]; every
    field may be absent. *)
Record EntryBody := {
  eb_accountId : option string;
  eb_entryType : option string;
  eb_amount : option num;
  eb_currency : option string;
  eb_description : option string;
  eb_metadata : option (gmap string MetaValue)
}.

(** The body of [POST /accounting-entries]; [body_entries] is [None] when
    [entries] is absent or is not an array. *)
Record EntriesBody := {
  body_transactionId : option string;
  body_eventId : option string;
  body_entries : option (list EntryBody)
}.

(** [new LedgerEntry({...})] in the first loop of [POST /accounting-entries].
    An absent description is kept as the empty string and absent metadata as
    the empty object: no modelled function tells them apart. *)
Definition newManualEntry (entryId entryGroupId' : string)
    (transactionId eventId : option string) (accountId : string) (entryType : Side)
    (amt : num) (cur : string) (entry : EntryBody) : LedgerEntry :=
  {| entry_id := entryId; entryGroupId := entryGroupId';
     transaction_id := transactionId; event_id := eventId;
     entry_account_id := accountId; entry_type := entryType;
     amount := amt; entry_currency := cur;
     description := default "" (eb_description entry);
     metadata := default ∅ (eb_metadata entry);
     isReversal := false; isReversed := false; originalEntryId := None |}.

(** The loop "Process entries": [inl message] is the early
    [return res.status(400).json({ error: message })]; otherwise the entries
    built and the two totals. *)
Fixpoint processEntries (entryGroupId' : string) (transactionId eventId : option string)
    (entries : list EntryBody) (ledgerEntries : list LedgerEntry)
    (totalDebits totalCredits : num)
  : M (string + list LedgerEntry * num * num) :=
  match entries with
  | [] => ret (inr (ledgerEntries, totalDebits, totalCredits))
  | entry :: rest =>
      match eb_accountId entry, eb_entryType entry, eb_amount entry,
            eb_currency entry with
      | Some accountId, Some entryType, Some amt, Some cur =>
          if negb (str_truthy accountId) || negb (str_truthy entryType)
             || negb (num_truthy amt) || negb (str_truthy cur)
          then ret (inl "Invalid entry data")
          else
            do entryId <- uuidv4;
            let ledgerEntry side :=
              newManualEntry entryId entryGroupId' transactionId eventId
                accountId side amt cur entry in
            if decide (entryType = "Debit") then
              processEntries entryGroupId' transactionId eventId rest
                (ledgerEntries ++ [ledgerEntry Debit])
                (totalDebits [+] amt) totalCredits
            else if decide (entryType = "Credit") then
              processEntries entryGroupId' transactionId eventId rest
                (ledgerEntries ++ [ledgerEntry Credit])
                totalDebits (totalCredits [+] amt)
            else ret (inl "Invalid entry type")
      | _, _, _, _ => ret (inl "Invalid entry data")
      end
  end.

(** The loop "Save entries and update account balances" of
    [POST /accounting-entries]. *)
Fixpoint saveManualEntries (ledgerEntries : list LedgerEntry) : M unit :=
  match ledgerEntries with
  | [] => ret tt
  | ledgerEntry :: rest =>
      exec LedgerEntry_insert ledgerEntry;
      exec updateAccountBalance (entry_account_id ledgerEntry)
             (entry_type ledgerEntry) (amount ledgerEntry)
             (entry_currency ledgerEntry);
      saveManualEntries rest
  end.

(** [POST /accounting-entries]; the body of the 201 response is the pair
    (entryGroupId, entries). *)
Definition postAccountingEntries `{NumberFormat num} (body : EntriesBody)
  : Handler (string * list LedgerEntry) :=
  match body_entries body with
  | None => fun st => (st, ErrorJson 400 "At least two entries are required")
  | Some entries =>
      if decide (length entries < 2)
      then fun st => (st, ErrorJson 400 "At least two entries are required")
      else
        try_catch
          (do entryGroupId <- uuidv4;
           do processed <-
             processEntries entryGroupId (body_transactionId body) (body_eventId body)
               entries [] num_zero num_zero;
           match processed with
           | inl message => ret (ErrorJson 400 message)
           | inr (ledgerEntries, totalDebits, totalCredits) =>
               if decide (num_toFixed2 totalDebits <> num_toFixed2 totalCredits)
               then ret (ErrorJson 400 "Total debits must equal total credits")
               else
                 exec saveManualEntries ledgerEntries;
                 ret (Json 201 (entryGroupId, ledgerEntries))
           end)
  end.

(** [LedgerEntry.findOne(filter)] *)
Definition LedgerEntry_findOne (P : LedgerEntry -> Prop) `{!forall e, Decision (P e)}
  : M (option (nat * LedgerEntry)) :=
  fun st => (st, Return (list_find P (db_entries st))).

(** [GET /accounting-entries/:entryId] *)
Definition getAccountingEntry (entryId : string) : Handler LedgerEntry :=
  try_catch
    (do found <- LedgerEntry_findOne (fun e => entry_id e = entryId);
     match found with
     | None => ret (ErrorJson 404 "Entry not found")
     | Some (_, entry) => ret (Json 200 entry)
     end).

(** The query of [GET /accounting-entries] without date bounds ([startDate]
    and [endDate] absent).  [page] and [pageSize], when given, are positive
    integers. *)
Record EntriesQuery := {
  q_accountId : option string;
  q_transactionId : option string;
  q_eventId : option string;
  q_entryType : option string;
  q_isReversal : option string;
  q_page : option positive;
  q_pageSize : option positive
}.

(** The filter [GET /accounting-entries] builds from its query. *)
Definition entriesFilter (q : EntriesQuery) (e : LedgerEntry) : bool :=
  param_filter (q_accountId q) (fun v e => bool_decide (entry_account_id e = v)) e
  && param_filter (q_transactionId q)
       (fun v e => bool_decide (transaction_id e = Some v)) e
  && param_filter (q_eventId q) (fun v e => bool_decide (event_id e = Some v)) e
  && param_filter (q_entryType q)
       (fun v e => bool_decide (Side_name (entry_type e) = v)) e
  && match q_isReversal q with
     | Some v => bool_decide (isReversal e = bool_decide (v = "true"))
     | None => true
     end.

(** [Math.ceil(a / b)] on natural numbers. *)
Definition ceil_div (a b : nat) : nat := (a + b - 1) / b.

(** The body of the response of [GET /accounting-entries]. *)
Record EntriesPage := {
  pg_entries : list LedgerEntry;
  pg_page : nat;
  pg_pageSize : nat;
  pg_totalPages : nat;
  pg_totalEntries : nat
}.

(** [GET /accounting-entries]: [find(filter).skip((page - 1) * pageSize)
    .limit(pageSize)], in collection order. *)
Definition listAccountingEntries (q : EntriesQuery) : Handler EntriesPage :=
  fun st =>
    let page := Pos.to_nat (default 1%positive (q_page q)) in
    let pageSize := Pos.to_nat (default 50%positive (q_pageSize q)) in
    let matching := List.filter (entriesFilter q) (db_entries st) in
    let totalEntries := length matching in
    (st, Json 200
           {| pg_entries := take pageSize (drop ((page - 1) * pageSize) matching);
              pg_page := page; pg_pageSize := pageSize;
              pg_totalPages := ceil_div totalEntries pageSize;
              pg_totalEntries := totalEntries |}).

(** [LedgerEntry.deleteMany(filter)]: the number of documents deleted. *)
Definition LedgerEntry_deleteMany (P : LedgerEntry -> Prop)
    `{!forall e, Decision (P e)} : M nat :=
  fun st =>
    (set_entries (filter (fun e => ~ P e) (db_entries st)) st,
     Return (length (filter P (db_entries st)))).

(** [DELETE /delete-discrepancy-entries]; the body is [deletedCount]. *)
Definition deleteDiscrepancyEntries : Handler nat :=
  try_catch
    (do deletedCount <-
       LedgerEntry_deleteMany (fun e => description e = "Discrepancy adjustment");
     ret (Json 200 deletedCount)).

(** *** The status of [POST /events] *)

(** [s.includes(sub)] *)
Definition includes (s sub : string) : bool :=
  match String.index 0 sub s with
  | Some _ => true
  | None => false
  end.

(** [err.message] for the errors of [executeActions] whose text is fixed by
    the error and the event type being processed; [None] for the errors whose
    text depends on what the constructor does not carry. *)
Definition message (eventType : string) (e : Error) : option string :=
  match e with
  | MissingFields t => Some ("Missing required fields in payload for " +:+ t)
  | ExchangeRateUnavailable from to =>
      Some ("Exchange rate not available for " +:+ from +:+ " to " +:+ to)
  | InsufficientFundsError =>
      Some (if decide (eventType = "PaymentRefunded")
            then "Insufficient funds in merchant account for refund"
            else "Insufficient funds in merchant account for partial refund")
  | RefundExceedsOriginalError =>
      Some "Refund amount cannot exceed the original payment amount"
  | UnsupportedEventType t => Some ("Unsupported event type: " +:+ t)
  | AccountNotFound accountId => Some ("Account with ID " +:+ accountId +:+ " not found")
  | _ => None
  end.

(** The status [POST /events] answers with: 200 for a processed event,
    otherwise what its [catch] block reads off the message, 400 when the
    message includes 'Insufficient funds' or 'Refund amount cannot exceed' and
    500 when it does not; [None] where the message is not modelled. *)
Definition postEvents_status {A} (eventType : string) (o : outcome A) : option nat :=
  match o with
  | Return _ => Some 200
  | Throw e =>
      match message eventType e with
      | Some msg =>
          Some (if includes msg "Insufficient funds"
                   || includes msg "Refund amount cannot exceed"
                then 400 else 500)
      | None => None
      end
  end.

(** ** Specification vocabulary *)

(** [triple P m Q E]: from a store satisfying [P], [m] either returns [a] in
    a store satisfying [Q a] or throws [e] in a store satisfying [E e]. *)
Definition triple {A} (P : Store -> Prop) (m : M A)
    (Q : A -> Store -> Prop) (E : Error -> Store -> Prop) : Prop :=
  forall st, P st ->
    match m st with
    | (st', Return a) => Q a st'
    | (st', Throw e) => E e st'
    end.

(** [errs P m]: every error [m] can throw satisfies [P]. *)
Definition errs {A} (P : Error -> Prop) (m : M A) : Prop :=
  triple (fun _ => True) m (fun _ _ => True) (fun e _ => P e).

(** The account [findOrCreateAccount] creates from a criteria. *)
Definition newAccount (crit : AccountCriteria) (id : string) : Account :=
  {| account_id := id; account_number := id;
     account_name := crit_account_name crit;
     account_type := crit_account_type crit;
     currency := crit_currency crit; status := Active;
     nature := crit_nature crit; balance := num_zero |}.

(** The legs of a group: entry type and amount of each entry, in order. *)
Definition legs (es : list LedgerEntry) : list (Side * num) :=
  (fun e => (entry_type e, amount e)) <$> es.

Definition legs_data (es : list EntryData) : list (Side * num) :=
  (fun e => (ed_entry_type e, ed_amount e)) <$> es.

(** The sum of the amounts of one type, accumulated from 0 in entry order. *)
Definition sumBy (side : Side) (l : list (Side * num)) : num :=
  fold_left (fun acc '(s, a) => if decide (s = side) then acc [+] a else acc)
            l num_zero.

(** What never changes when an entry is applied to an account: every field
    but the balance. *)
Definition acct_static (a : Account)
  : string * string * string * AccountType * string * Status * Side :=
  (account_id a, account_number a, account_name a, account_type a, currency a,
   status a, nature a).

(** The identifier among them. *)
Definition static_id
    (v : string * string * string * AccountType * string * Status * Side) : string :=
  v.1.1.1.1.1.1.

(** The name of the account an entry points to, as [Account.findOne] would
    resolve it ([""] when there is none). *)
Definition accountNameOf (st : Store) (id : string) : string :=
  match list_find (fun a => account_id a = id) (db_accounts st) with
  | Some (_, a) => account_name a
  | None => ""
  end.

(** The store holds an account with this id and currency. *)
Definition resolves (st : Store) (id cur : string) : Prop :=
  exists a, a ∈ db_accounts st /\ account_id a = id /\ currency a = cur.

(** What a posting rule may do to the store before its balance check: draw
    identifiers and append accounts with a zero balance.  Entries, events,
    configuration and every existing account are as before. *)
Definition rule_step (st st' : Store) : Prop :=
  db_entries st' = db_entries st
  /\ db_events st' = db_events st
  /\ ledgerConfig st' = ledgerConfig st
  /\ uuid_next st <= uuid_next st'
  /\ exists l, db_accounts st' = db_accounts st ++ l
               /\ Forall (fun a => balance a = num_zero) l.

(** What a proposed entry says: account, type, amount, currency. *)
Definition view_data (e : EntryData) : string * Side * num * string :=
  (ed_account_id e, ed_entry_type e, ed_amount e, ed_currency e).

(** The amounts [PaymentCaptured] books for an amount and a fee in the source
    currency: converted amount, converted fee and FX fee. *)
Definition settle (cfg : Config) (amt fee : num) (source settlement : string)
  : outcome (num * num * num) :=
  if decide (source <> settlement) then
    match getExchangeRate cfg source settlement with
    | Return rate =>
        Return (amt [*] rate, fee [*] rate,
                amt [*] fxFeeRate cfg source settlement [*] rate)
    | Throw e => Throw e
    end
  else Return (amt, fee, num_zero).

(** [steps R m]: whatever its outcome, [m] takes a store to an [R]-related
    store. *)
Definition steps {A} (R : Store -> Store -> Prop) (m : M A) : Prop :=
  forall st, R st (m st).1.

(** The part of an entry that balances are computed from. *)
Definition core (e : LedgerEntry) : string * Side * num * string :=
  (entry_account_id e, entry_type e, amount e, entry_currency e).

(** The entries of an account, in the order they were written. *)
Definition history (a : Account) (entries : list LedgerEntry) : list LedgerEntry :=
  filter (fun e => entry_account_id e = account_id a) entries.

(** The signed contribution of an entry to the balance of an account: the
    amount when the entry type equals the nature, its negation otherwise. *)
Definition contribution (a : Account) (e : LedgerEntry) : num :=
  balanceChange (nature a) (entry_type e) (amount e).

(** The signed sum of the history of an account, accumulated from 0. *)
Definition replay (a : Account) (entries : list LedgerEntry) : num :=
  fold_left (fun b e => b [+] contribution a e) (history a entries) num_zero.


(** Every group identifier in the store was handed out by [uuidv4()]. *)
Definition group_ids_drawn (st : Store) : Prop :=
  forall e, e ∈ db_entries st ->
            exists k, k < uuid_next st /\ entryGroupId e = uuid k.

(** The invariant of the stores reached by postings and reversals. *)
Record Inv (st : Store) : Prop := {
  inv_ids_distinct : NoDup (account_id <$> db_accounts st);
  inv_ids_drawn :
    forall a, a ∈ db_accounts st ->
              exists k, k < uuid_next st /\ account_id a = uuid k;
  inv_entries_resolve :
    forall e, e ∈ db_entries st ->
              exists a, a ∈ db_accounts st
                        /\ account_id a = entry_account_id e
                        /\ currency a = entry_currency e;
  inv_balances :
    forall a, a ∈ db_accounts st -> balance a = replay a (db_entries st);
  inv_groups_drawn : group_ids_drawn st;
  inv_amounts :
    forall e, e ∈ db_entries st -> num_isNaN (amount e) = false
}.

(** A rule step that keeps the invariant. *)
Definition grow (st st' : Store) : Prop :=
  rule_step st st' /\ (Inv st -> Inv st').

(** The exchange rate a reversal records for an entry of an account:
    [account.currency !== entry.currency ? getExchangeRate(...) : 1]. *)
Definition reversalRate (cfg : Config) (a : Account) (e : LedgerEntry) : outcome num :=
  if decide (currency a <> entry_currency e)
  then getExchangeRate cfg (entry_currency e) (currency a)
  else Return num_one.

(** The entries of a group after the first loop of a reversal went through
    the listed originals. *)
Definition mark_all (originals : list (nat * LedgerEntry)) (entries : list LedgerEntry)
  : list LedgerEntry :=
  fold_left (fun acc ie => <[ie.1 := set_isReversed ie.2 true]> acc) originals entries.

(** The entries of a group, in the order they were written. *)
Definition groupEntries (st : Store) (g : string) : list LedgerEntry :=
  filter (fun e => entryGroupId e = g) (db_entries st).

(** What the first loop of a reversal of group [g] does to an entry. *)
Definition mark_group (g : string) (e : LedgerEntry) : LedgerEntry :=
  if bool_decide (entryGroupId e = g) then set_isReversed e true else e.

(** [Account.findOne] resolves the id to an account of this currency. *)
Definition finds (accounts : list Account) (id cur : string) : Prop :=
  exists i a,
    list_find (fun x => account_id x = id) accounts = Some (i, a)
    /\ currency a = cur.

(** [r] is the reversal, in group [g], of the original entry [e] of the
    account [a] at the rate [rate]. *)
Definition reversal_of (g : string) (a : Account) (rate : num)
    (e r : LedgerEntry) : Prop :=
  entryGroupId r = g
  /\ entry_account_id r = entry_account_id e
  /\ entry_type r = opposite (entry_type e)
  /\ amount r = (if decide (currency a <> entry_currency e)
                 then amount e [*] rate else amount e)
  /\ entry_currency r = currency a
  /\ isReversal r = true
  /\ isReversed r = false
  /\ originalEntryId r = Some (entry_id e)
  /\ transaction_id r = transaction_id e
  /\ event_id r = event_id e.

(** The first loop of the reversal handler gets past the original entry
    [e]: its account exists and, where the currencies differ,
    [getExchangeRate] returns. *)
Definition convertible (cfg : Config) (accounts : list Account) (e : LedgerEntry)
  : Prop :=
  exists i a rate,
    list_find (fun x => account_id x = entry_account_id e) accounts = Some (i, a)
    /\ reversalRate cfg a e = Return rate.


(** [r] is the reversal of [e] in group [g], for the account and the rate the
    handler resolves. *)
Definition reverses (cfg : Config) (accounts : list Account) (g : string)
    (e r : LedgerEntry) : Prop :=
  exists i a rate,
    list_find (fun x => account_id x = entry_account_id e) accounts = Some (i, a)
    /\ reversalRate cfg a e = Return rate
    /\ reversal_of g a rate e r.

(** The requests of the posting engine. *)
Inductive Request :=
| PostEvent (eventType : string) (payload : Payload)
| ReverseGroup (entryGroupId' : string) (reversalReason : option string).

(** The store after a request, whatever its response. *)
Definition handle (r : Request) (st : Store) : Store :=
  match r with
  | PostEvent eventType payload => (postEvents eventType payload st).1
  | ReverseGroup g reason => (reverse g reason st).1
  end.

Definition run (rs : list Request) (st : Store) : Store :=
  fold_left (fun st r => handle r st) rs st.

(** The store before any request. *)
Definition empty_store (cfg : Config) : Store :=
  {| db_accounts := []; db_entries := []; db_events := [];
     ledgerConfig := cfg; uuid_next := 0 |}.

(** *** Vocabulary of the other endpoints *)

(** An entry of a manual posting that passes the checks of the first loop:
    account, amount and currency are truthy and the type is 'Debit' or
    'Credit'. *)
Definition entry_ok (entry : EntryBody) : bool :=
  opt_truthy str_truthy (eb_accountId entry)
  && opt_truthy num_truthy (eb_amount entry)
  && opt_truthy str_truthy (eb_currency entry)
  && bool_decide (eb_entryType entry = Some "Debit"
                  \/ eb_entryType entry = Some "Credit").

(** The ledger entry [e] records the entry [entry] of a manual posting. *)
Definition records (body : EntriesBody) (g : string) (entry : EntryBody)
    (e : LedgerEntry) : Prop :=
  eb_accountId entry = Some (entry_account_id e)
  /\ eb_entryType entry = Some (Side_name (entry_type e))
  /\ eb_amount entry = Some (amount e)
  /\ eb_currency entry = Some (entry_currency e)
  /\ description e = default "" (eb_description entry)
  /\ entryGroupId e = g
  /\ transaction_id e = body_transactionId body
  /\ event_id e = body_eventId body
  /\ isReversal e = false /\ isReversed e = false /\ originalEntryId e = None.

(** The requests that write to the store. *)
Inductive Call :=
| CallPostEvents (eventType : string) (payload : Payload)
| CallReverse (entryGroupId' : string) (reversalReason : option string)
| CallPostEntries (body : EntriesBody)
| CallCreateAccount (body : AccountBody)
| CallDeleteDiscrepancy.

(** The store after a call, whatever its response. *)
Definition serve `{NumberFormat num} (c : Call) (st : Store) : Store :=
  match c with
  | CallPostEvents eventType payload => (postEvents eventType payload st).1
  | CallReverse g reason => (reverse g reason st).1
  | CallPostEntries body => (postAccountingEntries body st).1
  | CallCreateAccount body => (createAccount body st).1
  | CallDeleteDiscrepancy => (deleteDiscrepancyEntries st).1
  end.

Definition serveAll `{NumberFormat num} (cs : list Call) (st : Store) : Store :=
  fold_left (fun st c => serve c st) cs st.

(** The identifiers [ids] are pairwise different and were all handed out by
    [uuidv4()] before the counter reached [next]. *)
Definition issued (next : nat) (ids : list string) : Prop :=
  NoDup ids /\ Forall (fun id => exists k, k < next /\ id = uuid k) ids.

(** No two accounts, no two entries and no two events share an identifier. *)
Record UniqueIds (st : Store) : Prop := {
  ids_accounts : issued (uuid_next st) (account_id <$> db_accounts st);
  ids_entries : issued (uuid_next st) (entry_id <$> db_entries st);
  ids_events : issued (uuid_next st) (ev_event_id <$> db_events st)
}.

(** A rule step that keeps identifiers unique. *)
Definition keeps_ids (st st' : Store) : Prop :=
  rule_step st st' /\ (UniqueIds st -> UniqueIds st').

(** The query [q] asked for page [p]. *)
Definition with_page (q : EntriesQuery) (p : positive) : EntriesQuery :=
  {| q_accountId := q_accountId q; q_transactionId := q_transactionId q;
     q_eventId := q_eventId q; q_entryType := q_entryType q;
     q_isReversal := q_isReversal q; q_page := Some p;
     q_pageSize := q_pageSize q |}.

(** The entries a response of [GET /accounting-entries] carries. *)
Definition page_entries (r : Reply EntriesPage) : list LedgerEntry :=
  match r with
  | Json _ pg => pg_entries pg
  | _ => []
  end.

(** No entry of the ledger carries the description that
    [DELETE /delete-discrepancy-entries] looks for. *)
Definition no_discrepancy (entries : list LedgerEntry) : Prop :=
  Forall (fun e => description e <> "Discrepancy adjustment") entries.

End Ledger.

(** ** Worked data over binary64 numbers *)

Definition ex_spec (n : string) (t : AccountType) (s : Side) (c : string)
  : AccountCriteria :=
  {| crit_account_name := n; crit_account_type := t;
     crit_nature := s; crit_currency := c |}.

(** The configuration [defaultConfig] of the source. *)
Definition defaultConfig : @Config float :=
  {| cfg_accounts :=
       {[ "cash" :=
            {[ "USD" := ex_spec "Cash - USD" Asset Debit "USD";
               "EUR" := ex_spec "Cash - EUR" Asset Debit "EUR";
               "GBP" := ex_spec "Cash - GBP" Asset Debit "GBP" ]};
          "revenue" :=
            {[ "transaction_fees" :=
                 ex_spec "Transaction Fee Revenue" Revenue Credit "USD";
               "fx_fees" := ex_spec "FX Fee Revenue" Revenue Credit "USD" ]};
          "expense" :=
            {[ "payment_processing" :=
                 ex_spec "Payment Processing Expense" Expense Debit "USD" ]} ]};
     cfg_fx_fees :=
       {[ "USD" := {[ "EUR" := 0.01%float; "GBP" := 0.01%float ]};
          "EUR" := {[ "USD" := 0.01%float; "GBP" := 0.01%float ]};
          "GBP" := {[ "USD" := 0.01%float; "EUR" := 0.01%float ]} ]};
     cfg_rates :=
       {[ "EUR" := 0.92%float; "GBP" := 0.79%float; "USD" := 1%float ]} |}.

(** A rate table in which one currency is listed with multiplier 0. *)
Definition ex_zero_rate_config : @Config float :=
  {| cfg_accounts := cfg_accounts defaultConfig;
     cfg_fx_fees := cfg_fx_fees defaultConfig;
     cfg_rates := {[ "USD" := 1%float; "XXX" := 0%float ]} |}.

Definition ex_account (id name : string) (t : AccountType) (cur : string)
    (n : Side) (b : float) : @Account float :=
  {| account_id := id; account_number := id; account_name := name;
     account_type := t; currency := cur; status := Active; nature := n;
     balance := b |}.

Definition ex_store (accounts : list (@Account float)) (entries : list (@LedgerEntry float))
  : @Store float :=
  {| db_accounts := accounts; db_entries := entries; db_events := [];
     ledgerConfig := defaultConfig; uuid_next := 100 |}.

(** Merchant M1 is owed 30 USD; the service holds 30 USD in cash. *)
Definition ex_store_m1 : @Store float :=
  ex_store
    [ ex_account "uuid-3" "Cash - USD" Asset "USD" Debit 30%float;
      ex_account "uuid-4" "Merchant Payable - M1" Liability "USD" Credit 30%float ]
    [].

(** PaymentRefunded / PaymentCaptured: amount, currency, merchant, fee. *)
Definition ex_payment (amt : float) (cur merchant : string) (fee : option float)
    (settlement : option string) : @Payload float :=
  {| p_amount := Some amt; p_currency := Some cur; p_merchantId := Some merchant;
     p_transactionFee := fee; p_settlementCurrency := settlement;
     p_customerId := None; p_originalAmount := None; p_refundAmount := None;
     p_transaction_id := None; p_event_id := None; p_metadata := ∅ |}.

(** PaymentPartiallyRefunded: originalAmount, refundAmount, currency, merchant. *)
Definition ex_partial (original refund : float) (cur merchant : string) : @Payload float :=
  {| p_amount := None; p_currency := Some cur; p_merchantId := Some merchant;
     p_transactionFee := None; p_settlementCurrency := None;
     p_customerId := None; p_originalAmount := Some original;
     p_refundAmount := Some refund;
     p_transaction_id := None; p_event_id := None; p_metadata := ∅ |}.

Definition ex_entry (id group accountId : string) (side : Side) (amt : float)
    (cur : string) : @LedgerEntry float :=
  {| entry_id := id; entryGroupId := group;
     transaction_id := Some "tx-1"; event_id := Some "ev-1";
     entry_account_id := accountId; entry_type := side; amount := amt;
     entry_currency := cur; description := ""; metadata := ∅;
     isReversal := false; isReversed := false; originalEntryId := None |}.

(** A posted group: 100 USD debited to cash, 100 USD credited to M1. *)
Definition ex_group : list (@LedgerEntry float) :=
  [ ex_entry "uuid-8" "uuid-7" "uuid-3" Debit 100%float "USD";
    ex_entry "uuid-9" "uuid-7" "uuid-4" Credit 100%float "USD" ].

(** The store after that group was posted; [cashCurrency] is the currency the cash
    account has now: "USD" as posted, or another one after the account was
    edited. *)
Definition ex_store_posted (cashCurrency : string) : @Store float :=
  ex_store
    [ ex_account "uuid-3" "Cash - USD" Asset cashCurrency Debit 100%float;
      ex_account "uuid-4" "Merchant Payable - M1" Liability "USD" Credit 100%float ]
    ex_group.


(** A capture of 100 USD settled in EUR, then the reversal of its group. *)
Definition ex_requests : list (@Request float) :=
  [ PostEvent "PaymentCaptured" (ex_payment 100%float "USD" "M1" (Some 2.9%float) (Some "EUR"));
    ReverseGroup "uuid-1" None ].

(** The group [ex_group] in a store whose Merchant Payable account is gone. *)
Definition ex_store_orphaned : @Store float :=
  ex_store [ ex_account "uuid-3" "Cash - USD" Asset "USD" Debit 100%float ] ex_group.

(** An entry of a manual posting. *)
Definition ex_entry_body (accountId entryType : string) (amt : float) (cur : string)
  : @EntryBody float :=
  {| eb_accountId := Some accountId; eb_entryType := Some entryType;
     eb_amount := Some amt; eb_currency := Some cur;
     eb_description := None; eb_metadata := None |}.

(** A manual posting of 10 USD: a Debit to [debited], a Credit to the
    Merchant Payable account of [ex_store_m1]. *)
Definition ex_posting (debited : string) : @EntriesBody float :=
  {| body_transactionId := Some "tx-2"; body_eventId := None;
     body_entries := Some [ ex_entry_body debited "Debit" 10%float "USD";
                            ex_entry_body "uuid-4" "Credit" 10%float "USD" ] |}.

(** A capture of 100 USD for merchant M1, fee 2.9, no conversion. *)
Definition ex_capture : list (@Request float) :=
  [ PostEvent "PaymentCaptured" (ex_payment 100%float "USD" "M1" (Some 2.9%float) None) ].



(** * Properties *)

Section LedgerProperties.
Context {num : Type} `{Number num}.
Local Open Scope num_scope.

#[local] Abbreviation Account := (@Account num).
#[local] Abbreviation LedgerEntry := (@LedgerEntry num).
#[local] Abbreviation Payload := (@Payload num).
#[local] Abbreviation Config := (@Config num).
#[local] Abbreviation Store := (@Store num).
#[local] Abbreviation EntryData := (@EntryData num).
#[local] Abbreviation M := (@M num).

Local Notation "'do' x <- m ; k" := (bind m (fun x => k))
  (at level 10, x name, m at level 100, k at level 200,
   format "'[v' 'do'  x  <-  m ; '/' k ']'").
Local Notation "'do' ' p <- m ; k" := (bind m (fun x => match x with p => k end))
  (at level 10, p pattern, m at level 100, k at level 200,
   format "'[v' 'do'  ' p  <-  m ; '/' k ']'").
Local Notation "'exec' m ; k" := (bind m (fun _ => k))
  (at level 10, m at level 100, k at level 200,
   format "'[v' 'exec'  m ; '/' k ']'").

(** Unfold one layer of the handler monad. *)
Ltac munfold :=
  unfold bind, ret, throw, with_config, Account_findOne, Account_save,
    Account_insert, LedgerEntry_find, LedgerEntry_save, LedgerEntry_insert,
    uuidv4 in *.

(** ** Running a handler step by step *)

Lemma bind_Return {A B} (m : M A) (k : A -> M B) st st1 a :
  m st = (st1, Return a) -> bind m k st = k a st1.
Proof. intros Hm. unfold bind. by rewrite Hm. Qed.

Lemma bind_Throw {A B} (m : M A) (k : A -> M B) st st1 e :
  m st = (st1, Throw e) -> bind m k st = (st1, Throw e).
Proof. intros Hm. unfold bind. by rewrite Hm. Qed.

Lemma bind_inv_Return {A B} (m : M A) (k : A -> M B) st st' b :
  bind m k st = (st', Return b) ->
  exists st1 a, m st = (st1, Return a) /\ k a st1 = (st', Return b).
Proof.
  unfold bind. destruct (m st) as [st1 [a | e]]; [eauto | discriminate].
Qed.

Lemma uuid_inj n m : uuid n = uuid m -> n = m.
Proof.
  unfold uuid. simpl. intros Heq. simplify_eq. by apply (inj pretty).
Qed.

#[local] Instance rule_step_refl : Reflexive (rule_step : relation Store).
Proof.
  intros st. unfold rule_step. split_and!; try done.
  exists []. by rewrite app_nil_r.
Qed.

#[local] Instance rule_step_trans : Transitive (rule_step : relation Store).
Proof.
  intros st1 st2 st3 (He & Hv & Hc & Hu & l & Ha & Hl)
    (He' & Hv' & Hc' & Hu' & l' & Ha' & Hl').
  unfold rule_step. split_and!; try congruence; try lia.
  exists (l ++ l'). split; [by rewrite Ha', Ha, app_assoc | by apply Forall_app].
Qed.

Lemma rule_step_uuid (st : Store) n :
  uuid_next st <= n -> rule_step st (set_uuid_next n st).
Proof.
  intros. unfold rule_step. simpl. split_and!; try done.
  exists []. by rewrite app_nil_r.
Qed.


(** ** The replay of a history *)

Lemma replay_snoc (a : Account) (l : list LedgerEntry) (e : LedgerEntry) :
  replay a (l ++ [e])
  = if decide (entry_account_id e = account_id a)
    then replay a l [+] contribution a e else replay a l.
Proof.
  unfold replay, history. rewrite filter_app.
  case_decide as Hid.
  - rewrite filter_cons_True by done. rewrite filter_nil.
    by rewrite fold_left_app.
  - rewrite filter_cons_False by done. rewrite filter_nil.
    by rewrite app_nil_r.
Qed.

Lemma history_core (a : Account) (l l' : list LedgerEntry) :
  core <$> l = core <$> l' ->
  (fun e => contribution a e) <$> history a l
  = (fun e => contribution a e) <$> history a l'.
Proof.
  revert l'. induction l as [| e l IH]; intros [| e' l'] Hcore;
    simplify_eq/=; [done |].
  unfold history in *.
  assert (entry_account_id e = entry_account_id e'
          /\ contribution a e = contribution a e') as [Hid Hc].
  { unfold contribution. split; congruence. }
  destruct (decide (entry_account_id e = account_id a)) as [Hin | Hout].
  - rewrite !filter_cons_True by congruence. csimpl. f_equal; [done |].
    by apply IH.
  - rewrite !filter_cons_False by congruence. by apply IH.
Qed.

Lemma replay_core (a : Account) (l l' : list LedgerEntry) :
  core <$> l = core <$> l' -> replay a l = replay a l'.
Proof.
  intros Hcore%(history_core a). unfold replay.
  assert (forall (h : list LedgerEntry) b,
            fold_left (fun b e => b [+] contribution a e) h b
            = fold_left num_add ((fun e => contribution a e) <$> h) b) as Hfold.
  { induction h as [| e h IH]; intros b; simpl; [done | apply IH]. }
  by rewrite !Hfold, Hcore.
Qed.


Lemma replay_no_history (a : Account) (l : list LedgerEntry) :
  (forall e, e ∈ l -> entry_account_id e <> account_id a) -> replay a l = num_zero.
Proof.
  intros Hno. unfold replay, history.
  assert (filter (fun e : LedgerEntry => entry_account_id e = account_id a) l = [])
    as ->; [| done].
  induction l as [| e l IH]; [done |].
  rewrite filter_cons_False by (apply Hno; left).
  apply IH. intros e' He'. apply Hno. by right.
Qed.

(** ** The balance ledger *)

Lemma updateAccountBalance_not_found (st : Store) accountId entryType amt cur :
  list_find (fun a : Account => account_id a = accountId) (db_accounts st) = None ->
  updateAccountBalance accountId entryType amt cur st
  = (st, Throw (AccountNotFound accountId)).
Proof. intros Hf. unfold updateAccountBalance. munfold. by rewrite Hf. Qed.

Lemma updateAccountBalance_mismatch (st : Store) accountId entryType amt cur i account :
  list_find (fun a : Account => account_id a = accountId) (db_accounts st)
  = Some (i, account) ->
  currency account <> cur ->
  updateAccountBalance accountId entryType amt cur st = (st, Throw CurrencyMismatchError).
Proof.
  intros Hf Hc. unfold updateAccountBalance. munfold. rewrite Hf.
  by rewrite decide_True.
Qed.

Lemma updateAccountBalance_ok (st : Store) accountId entryType amt cur i account :
  list_find (fun a : Account => account_id a = accountId) (db_accounts st)
  = Some (i, account) ->
  currency account = cur ->
  updateAccountBalance accountId entryType amt cur st
  = (set_accounts
       (<[i := set_balance account
                 (balance account [+] balanceChange (nature account) entryType amt)]>
          (db_accounts st)) st,
     Return tt).
Proof.
  intros Hf Hc. unfold updateAccountBalance. munfold. rewrite Hf.
  rewrite decide_False; [done | by intros ?].
Qed.


(** ** The invariant under the storage steps *)

Lemma Inv_set_uuid (st : Store) n :
  uuid_next st <= n -> Inv st -> Inv (set_uuid_next n st).
Proof.
  intros Hn [I1 I2 I3 I4 I5 I6]. split; simpl; try done.
  - intros a Ha. destruct (I2 a Ha) as (k & ? & ?). exists k. split; [lia | done].
  - intros e He. destruct (I5 e He) as (k & ? & ?). exists k. simpl.
    split; [lia | done].
Qed.

Lemma Inv_set_events (st : Store) l : Inv st -> Inv (set_events l st).
Proof. intros [I1 I2 I3 I4 I5 I6]. by split. Qed.

Lemma Inv_same_core (st : Store) entries' :
  core <$> entries' = core <$> db_entries st ->
  entryGroupId <$> entries' = entryGroupId <$> db_entries st ->
  Inv st -> Inv (set_entries entries' st).
Proof.
  intros Hcore Hgroups [I1 I2 I3 I4 I5 I6]. split; simpl; try done.
  - intros e (i & Hi)%list_elem_of_lookup.
    assert ((core <$> db_entries st) !! i = Some (core e)) as Hi'.
    { rewrite <- Hcore, list_lookup_fmap, Hi. done. }
    rewrite list_lookup_fmap in Hi'.
    destruct (db_entries st !! i) as [e0 |] eqn:He0; simplify_eq/=.
    destruct (I3 e0) as (a & ? & ? & ?); [by eapply list_elem_of_lookup_2 |].
    exists a. unfold core in *. split_and!; congruence.
  - intros a Ha. rewrite (I4 a Ha). by apply replay_core.
  - intros e (i & Hi)%list_elem_of_lookup. simpl in *.
    assert ((entryGroupId <$> db_entries st) !! i = Some (entryGroupId e)) as Hi'.
    { rewrite <- Hgroups, list_lookup_fmap, Hi. done. }
    rewrite list_lookup_fmap in Hi'.
    destruct (db_entries st !! i) as [e0 |] eqn:He0; simplify_eq/=.
    destruct (I5 e0) as (k & ? & ?); [by eapply list_elem_of_lookup_2 |].
    exists k. split; [done | congruence].
  - intros e (i & Hi)%list_elem_of_lookup.
    assert ((core <$> db_entries st) !! i = Some (core e)) as Hi'.
    { rewrite <- Hcore, list_lookup_fmap, Hi. done. }
    rewrite list_lookup_fmap in Hi'.
    destruct (db_entries st !! i) as [e0 |] eqn:He0; simplify_eq/=.
    assert (amount e = amount e0) as -> by (unfold core in *; congruence).
    apply I6. by eapply list_elem_of_lookup_2.
Qed.

Lemma Inv_new_account (st : Store) crit :
  Inv st ->
  Inv (set_accounts (db_accounts st ++ [newAccount crit (uuid (uuid_next st))])
         (set_uuid_next (S (uuid_next st)) st)).
Proof.
  intros [I1 I2 I3 I4 I5 I6].
  assert (forall a, a ∈ db_accounts st -> account_id a <> uuid (uuid_next st))
    as Hfresh.
  { intros a Ha Heq. destruct (I2 a Ha) as (k & Hk & Hid).
    rewrite Hid in Heq. apply uuid_inj in Heq. lia. }
  split; simpl.
  - rewrite fmap_app. apply NoDup_app. split_and!; [done | | apply NoDup_singleton].
    intros id (a & -> & Ha)%list_elem_of_fmap Hin. simpl in Hin.
    apply list_elem_of_singleton in Hin. by apply (Hfresh a Ha).
  - intros a [Ha | ->%list_elem_of_singleton]%elem_of_app.
    + destruct (I2 a Ha) as (k & ? & ?). exists k. split; [lia | done].
    + exists (uuid_next st). split; [lia | done].
  - intros e He. destruct (I3 e He) as (a & ? & ?). exists a.
    split; [apply elem_of_app; by left | done].
  - intros a [Ha | ->%list_elem_of_singleton]%elem_of_app; [by apply I4 |].
    simpl. symmetry. apply replay_no_history. simpl.
    intros e He Heq. destruct (I3 e He) as (a & Ha & Hid & _).
    apply (Hfresh a Ha). congruence.
  - intros e He. destruct (I5 e He) as (k & ? & ?). exists k. simpl.
    split; [lia | done].
  - done.
Qed.

Lemma list_find_by_id (l : list Account) i a :
  NoDup (account_id <$> l) -> l !! i = Some a ->
  list_find (fun x : Account => account_id x = account_id a) l = Some (i, a).
Proof.
  intros Hnd Hi. apply list_find_Some. split_and!; [done.. |].
  intros j y Hj Hlt Hid.
  assert (j = i); [| lia].
  eapply (NoDup_lookup _ _ _ (account_id a) Hnd);
    rewrite list_lookup_fmap; [by rewrite Hj; simpl; f_equal | by rewrite Hi].
Qed.

Lemma fmap_insert_same {A B} (f : A -> B) (l : list A) i x y :
  l !! i = Some x -> f y = f x -> f <$> <[i := y]> l = f <$> l.
Proof.
  intros Hi Hf. rewrite list_fmap_insert, Hf.
  apply list_insert_id. by rewrite list_lookup_fmap, Hi.
Qed.

Lemma acct_static_eq (a b : Account) :
  acct_static a = acct_static b ->
  account_id a = account_id b /\ account_name a = account_name b
  /\ currency a = currency b /\ nature a = nature b.
Proof. unfold acct_static. intros [=]. done. Qed.

Lemma static_transfer (l l' : list Account) a :
  acct_static <$> l' = acct_static <$> l -> a ∈ l ->
  exists a', a' ∈ l' /\ account_id a' = account_id a
             /\ account_name a' = account_name a
             /\ currency a' = currency a /\ nature a' = nature a.
Proof.
  intros Hs Ha. apply (list_elem_of_fmap_2 acct_static) in Ha.
  rewrite <- Hs in Ha. apply list_elem_of_fmap in Ha as (a' & Heq & ?).
  symmetry in Heq. apply acct_static_eq in Heq. eauto.
Qed.

(** Writing an entry of a listed account and applying it keeps the
    invariant: the balance of that account follows its history. *)
Lemma Inv_post_entry (st : Store) (e : LedgerEntry) a :
  Inv st -> a ∈ db_accounts st ->
  account_id a = entry_account_id e -> currency a = entry_currency e ->
  (exists k, k < uuid_next st /\ entryGroupId e = uuid k) ->
  num_isNaN (amount e) = false ->
  exists st',
    updateAccountBalance (entry_account_id e) (entry_type e) (amount e)
      (entry_currency e) (set_entries (db_entries st ++ [e]) st)
    = (st', Return tt)
    /\ Inv st'
    /\ acct_static <$> db_accounts st' = acct_static <$> db_accounts st
    /\ db_entries st' = db_entries st ++ [e]
    /\ db_events st' = db_events st
    /\ ledgerConfig st' = ledgerConfig st
    /\ uuid_next st' = uuid_next st.
Proof.
  intros [I1 I2 I3 I4 I5 I6] Ha Hid Hcur Hgroup Hnum.
  pose proof Ha as (i & Hi)%list_elem_of_lookup.
  pose proof (list_find_by_id _ _ _ I1 Hi) as Hfind. rewrite Hid in Hfind.
  set (a1 := set_balance a
               (balance a [+] balanceChange (nature a) (entry_type e) (amount e))).
  set (l1 := <[i := a1]> (db_accounts st)).
  assert (acct_static <$> l1 = acct_static <$> db_accounts st) as Hstatic
    by by eapply fmap_insert_same.
  exists (set_accounts l1 (set_entries (db_entries st ++ [e]) st)).
  split.
  { by apply (updateAccountBalance_ok (set_entries (db_entries st ++ [e]) st)
                _ _ _ _ i a). }
  split_and!; simpl; try done.
  split; simpl.
  - unfold l1. by erewrite fmap_insert_same.
  - intros a' Ha'.
    destruct (static_transfer l1 (db_accounts st) a') as (a0 & Ha0 & Hs0 & _);
      [done.. |].
    destruct (I2 a0 Ha0) as (k & ? & ?). exists k. split; [done | congruence].
  - assert (forall e' : LedgerEntry,
                       (exists a0, a0 ∈ db_accounts st
                                    /\ account_id a0 = entry_account_id e'
                                    /\ currency a0 = entry_currency e') ->
                       exists a', a' ∈ l1 /\ account_id a' = entry_account_id e'
                                  /\ currency a' = entry_currency e') as Hlift.
    { intros e' (a0 & Ha0 & ? & ?).
      destruct (static_transfer (db_accounts st) l1 a0)
        as (a' & Ha' & ? & _ & ? & _); [done.. |].
      exists a'. split_and!; [done | congruence..]. }
    intros e' [He' | ->%list_elem_of_singleton]%elem_of_app; apply Hlift; eauto.
  - intros a' (j & Hj)%list_elem_of_lookup. rewrite replay_snoc.
    apply list_lookup_insert_Some in Hj as [(-> & <- & _) | (Hne & Hj)].
    + simpl. rewrite decide_True by done.
      change (replay a1 (db_entries st)) with (replay a (db_entries st)).
      by rewrite <- (I4 a Ha).
    + rewrite decide_False; [apply I4; by eapply list_elem_of_lookup_2 |].
      intros Heq. apply Hne.
      eapply (NoDup_lookup _ _ _ (account_id a) I1);
        rewrite list_lookup_fmap; [by rewrite Hi | rewrite Hj; simpl; congruence].
  - intros e' [He' | ->%list_elem_of_singleton]%elem_of_app; [by apply I5 | done].
  - intros e' [He' | ->%list_elem_of_singleton]%elem_of_app; [by apply I6 | done].
Qed.

(** ** The rate table *)

(** C7 (as amended).  [getExchangeRate] returns 1 for equal currencies;
    for different currencies that are both listed in the table with a truthy
    (non-zero) multiplier it returns [rates[to] / rates[from]]; and it fails
    with [ExchangeRateUnavailable] when either currency is listed with a falsy
    multiplier, or is not listed and is not the name of a member of
    [Object.prototype]. *)
Theorem getExchangeRate_contract (cfg : Config) (fromCurrency toCurrency : string) :
  let refused (c : string) :=
    (cfg_rates cfg !! c = None /\ inherited c = false)
    \/ (exists v, cfg_rates cfg !! c = Some v /\ num_truthy v = false) in
  (fromCurrency = toCurrency -> getExchangeRate cfg fromCurrency toCurrency = Return num_one)
  /\ (forall rf rt,
        fromCurrency <> toCurrency ->
        cfg_rates cfg !! fromCurrency = Some rf -> num_truthy rf = true ->
        cfg_rates cfg !! toCurrency = Some rt -> num_truthy rt = true ->
        getExchangeRate cfg fromCurrency toCurrency = Return (rt [/] rf))
  /\ (fromCurrency <> toCurrency ->
      refused fromCurrency \/ refused toCurrency ->
      getExchangeRate cfg fromCurrency toCurrency
      = Throw (ExchangeRateUnavailable fromCurrency toCurrency)).
Proof.
  intros refused.
  assert (forall c, refused c -> looked_truthy (table_get (cfg_rates cfg) c) = false)
    as Hrefused.
  { intros c [[Hc Hi] | (v & Hc & Hv)]; unfold table_get; rewrite Hc; [| done].
    by rewrite Hi. }
  unfold getExchangeRate. split_and!.
  - intros ->. by rewrite decide_True.
  - intros rf rt Hne Hf Hrf Ht Hrt. rewrite decide_False by done.
    unfold table_get. rewrite Hf, Ht. simpl. by rewrite Hrf, Hrt.
  - intros Hne Hfalsy. rewrite decide_False by done.
    destruct Hfalsy as [Hc | Hc]; rewrite (Hrefused _ Hc); simpl; [done |].
    by rewrite orb_true_r.
Qed.

(** ** Running the posting rules *)

Lemma spread_right (o : option AccountCriteria) (c : AccountCriteria) :
  match o with Some c' => spread c' c | None => c end = c.
Proof. by destruct o. Qed.

(** The filter of [findOrCreateAccount]: name and currency. *)
#[local] Abbreviation matches crit :=
  (fun a : Account =>
     account_name a = crit_account_name crit /\ currency a = crit_currency crit).

Lemma findOrCreateAccount_found (st : Store) crit i a :
  list_find (matches crit) (db_accounts st) = Some (i, a) ->
  findOrCreateAccount crit st = (st, Return a).
Proof.
  intros Hf. unfold findOrCreateAccount. munfold. simpl.
  rewrite spread_right. by rewrite Hf.
Qed.

Lemma findOrCreateAccount_created (st : Store) crit :
  list_find (matches crit) (db_accounts st) = None ->
  findOrCreateAccount crit st
  = (set_accounts (db_accounts st ++ [newAccount crit (uuid (uuid_next st))])
       (set_uuid_next (S (uuid_next st)) st),
     Return (newAccount crit (uuid (uuid_next st)))).
Proof.
  intros Hf. unfold findOrCreateAccount. munfold. simpl.
  rewrite spread_right. by rewrite Hf.
Qed.

Lemma drawIds_run (st : Store) payload :
  exists n ids,
    drawIds payload st = (set_uuid_next n st, Return ids) /\ uuid_next st < n.
Proof.
  unfold drawIds, or_uuidv4. munfold.
  destruct (p_transaction_id payload) as [t|]; [destruct (str_truthy t)|];
    (destruct (p_event_id payload) as [e|]; [destruct (str_truthy e)|]); simpl;
    eexists _, _; (split; [reflexivity | simpl; lia]).
Qed.

(** ** Specifications of handler computations *)

Lemma triple_ret {A} (P : Store -> Prop) (a : A) Q E :
  (forall st, P st -> Q a st) -> triple P (ret a) Q E.
Proof. intros HQ st HP. by apply HQ. Qed.

Lemma triple_throw {A} (P : Store -> Prop) e (Q : A -> Store -> Prop) E :
  (forall st, P st -> E e st) -> triple P (throw e) Q E.
Proof. intros HE st HP. by apply HE. Qed.

Lemma triple_bind {A B} (P : Store -> Prop) (m : M A) (k : A -> M B) Q' Q E :
  triple P m Q' E -> (forall a, triple (Q' a) (k a) Q E) -> triple P (bind m k) Q E.
Proof.
  intros Hm Hk st HP. specialize (Hm st HP). unfold bind.
  destruct (m st) as [st' [a | e]]; [by apply Hk | done].
Qed.

Lemma triple_weaken {A} (P P' : Store -> Prop) (m : M A)
    (Q Q' : A -> Store -> Prop) (E E' : Error -> Store -> Prop) :
  triple P m Q E ->
  (forall st, P' st -> P st) ->
  (forall a st, Q a st -> Q' a st) ->
  (forall e st, E e st -> E' e st) ->
  triple P' m Q' E'.
Proof.
  intros Hm HP HQ HE st HP'. specialize (Hm st (HP st HP')).
  destruct (m st) as [st' [a | e]]; eauto.
Qed.

Lemma errs_ret {A} P (a : A) : errs P (ret a : M A).
Proof. by apply triple_ret. Qed.

Lemma errs_throw {A} (P : Error -> Prop) e : P e -> errs P (@throw num A e).
Proof. intros. by apply triple_throw. Qed.

Lemma errs_bind {A B} P (m : M A) (k : A -> M B) :
  errs P m -> (forall a, errs P (k a)) -> errs P (bind m k).
Proof.
  intros Hm Hk. eapply triple_bind; [exact Hm |].
  intros a. eapply triple_weaken; [apply (Hk a) | done..].
Qed.

Lemma errs_total {A} P (m : M A) :
  (forall st, exists st' a, m st = (st', Return a)) -> errs P m.
Proof. intros Hm st _. by destruct (Hm st) as (st' & a & ->). Qed.

Lemma errs_elim {A} P (m : M A) st st' e :
  errs P m -> m st = (st', Throw e) -> P e.
Proof. intros Hm Hrun. specialize (Hm st I). by rewrite Hrun in Hm. Qed.

Lemma errs_uuidv4 P : errs P (uuidv4 : M string).
Proof. apply errs_total. intros st. by eexists _, _. Qed.

Lemma errs_with_config {A} P (f : Config -> outcome A) :
  (forall cfg e, f cfg = Throw e -> P e) -> errs P (with_config f).
Proof.
  intros Hf st _. unfold with_config.
  destruct (f (ledgerConfig st)) eqn:Hr; [done | eauto].
Qed.

Lemma errs_findOrCreateAccount P crit : errs P (findOrCreateAccount crit).
Proof.
  apply errs_total. intros st.
  destruct (list_find (matches crit) (db_accounts st)) as [[i a] |] eqn:Hf.
  - erewrite findOrCreateAccount_found by done. by eexists _, _.
  - rewrite findOrCreateAccount_created by done. by eexists _, _.
Qed.

Lemma errs_updateAccountBalance (P : Error -> Prop) accountId entryType amt cur :
  P (AccountNotFound accountId) -> P CurrencyMismatchError ->
  errs P (updateAccountBalance accountId entryType amt cur).
Proof.
  intros Hnf Hcm st _.
  destruct (list_find (fun a : Account => account_id a = accountId) (db_accounts st))
    as [[i a] |] eqn:Hf.
  - destruct (decide (currency a = cur)).
    + by erewrite updateAccountBalance_ok.
    + by erewrite updateAccountBalance_mismatch.
  - by rewrite updateAccountBalance_not_found.
Qed.

Lemma drawIds_group (st st1 : Store) payload g t ev :
  drawIds payload st = (st1, Return (g, t, ev)) -> g = uuid (uuid_next st).
Proof.
  unfold drawIds, or_uuidv4. munfold.
  destruct (p_transaction_id payload) as [x |]; [destruct (str_truthy x) |];
    (destruct (p_event_id payload) as [y |]; [destruct (str_truthy y) |]); simpl;
    intros [=]; done.
Qed.

(** An error raised by the rule of an event leaves [executeActions] as it is:
    the persistence loop is not entered. *)
Lemma executeActions_rule_throws (st : Store) eventType payload e :
  (forall n, postingRule eventType payload (set_uuid_next n st)
             = (set_uuid_next n st, Throw e)) ->
  exists n, executeActions eventType payload st = (set_uuid_next n st, Throw e).
Proof.
  intros Hrule. destruct (drawIds_run st payload) as (n & [[g t] ev] & Hd & _).
  exists n. unfold executeActions, bind. by rewrite Hd, Hrule.
Qed.

Lemma postingRule_partial_insufficient (st : Store) payload
    originalAmount refundAmount cur merchantId i payable :
  p_originalAmount payload = Some originalAmount -> num_truthy originalAmount = true ->
  p_refundAmount payload = Some refundAmount -> num_truthy refundAmount = true ->
  p_currency payload = Some cur -> str_truthy cur = true ->
  p_merchantId payload = Some merchantId -> str_truthy merchantId = true ->
  (refundAmount [>] originalAmount) = false ->
  list_find (fun a : Account =>
               account_name a = "Merchant Payable - " +:+ merchantId
               /\ currency a = cur) (db_accounts st) = Some (i, payable) ->
  (balance payable [<] refundAmount) = true ->
  postingRule "PaymentPartiallyRefunded" payload st = (st, Throw InsufficientFundsError).
Proof.
  intros Hoa Toa Hra Tra Hc Tc Hm Tm Hle Hf Hlt.
  unfold postingRule, proposeEntries, paymentPartiallyRefunded.
  rewrite !decide_False by discriminate. rewrite decide_True by done.
  rewrite Hoa, Hra, Hc, Hm, Toa, Tra, Tc, Tm, Hle. simpl.
  unfold bind at 1 2.
  erewrite findOrCreateAccount_found by exact Hf.
  by rewrite Hlt.
Qed.

Lemma postingRule_refund_insufficient (st : Store) payload
    amount cur merchantId i payable :
  p_amount payload = Some amount -> num_truthy amount = true ->
  p_currency payload = Some cur -> str_truthy cur = true ->
  p_merchantId payload = Some merchantId -> str_truthy merchantId = true ->
  list_find (fun a : Account =>
               account_name a = "Merchant Payable - " +:+ merchantId
               /\ currency a = cur) (db_accounts st) = Some (i, payable) ->
  (balance payable [<] amount) = true ->
  postingRule "PaymentRefunded" payload st = (st, Throw InsufficientFundsError).
Proof.
  intros Ha Ta Hc Tc Hm Tm Hf Hlt.
  unfold postingRule, proposeEntries, paymentRefunded.
  rewrite decide_False by discriminate. rewrite decide_True by done.
  rewrite Ha, Hc, Hm, Ta, Tc, Tm. simpl.
  unfold bind at 1 2.
  erewrite findOrCreateAccount_found by exact Hf.
  by rewrite Hlt.
Qed.

(** C9.  A partial refund with every required field truthy and
    [refundAmount] not above [originalAmount], against a Merchant Payable
    account whose balance is below [refundAmount], makes [executeActions]
    fail with [InsufficientFundsError]; no entry is written and the accounts
    are as before. *)
Theorem partial_refund_insufficient_funds (st : Store) payload
    originalAmount refundAmount cur merchantId i payable :
  p_originalAmount payload = Some originalAmount -> num_truthy originalAmount = true ->
  p_refundAmount payload = Some refundAmount -> num_truthy refundAmount = true ->
  p_currency payload = Some cur -> str_truthy cur = true ->
  p_merchantId payload = Some merchantId -> str_truthy merchantId = true ->
  (refundAmount [>] originalAmount) = false ->
  list_find (fun a : Account =>
               account_name a = "Merchant Payable - " +:+ merchantId
               /\ currency a = cur) (db_accounts st) = Some (i, payable) ->
  (balance payable [<] refundAmount) = true ->
  exists st',
    executeActions "PaymentPartiallyRefunded" payload st
    = (st', Throw InsufficientFundsError)
    /\ db_entries st' = db_entries st
    /\ db_accounts st' = db_accounts st.
Proof.
  intros Hoa Toa Hra Tra Hc Tc Hm Tm Hle Hf Hlt.
  destruct (executeActions_rule_throws st "PaymentPartiallyRefunded" payload
              InsufficientFundsError) as [n Hrun].
  { intros n. eapply postingRule_partial_insufficient; eauto. }
  eauto.
Qed.

Lemma postingRule_refund_no_account (st : Store) payload amount cur merchantId :
  p_amount payload = Some amount -> num_truthy amount = true ->
  p_currency payload = Some cur -> str_truthy cur = true ->
  p_merchantId payload = Some merchantId -> str_truthy merchantId = true ->
  list_find (fun a : Account =>
               account_name a = "Merchant Payable - " +:+ merchantId
               /\ currency a = cur) (db_accounts st) = None ->
  (num_zero [<] amount) = true ->
  postingRule "PaymentRefunded" payload st
  = (set_accounts
       (db_accounts st
        ++ [newAccount
              {| crit_account_name := "Merchant Payable - " +:+ merchantId;
                 crit_currency := cur;
                 crit_account_type := Liability; crit_nature := Credit |}
              (uuid (uuid_next st))])
       (set_uuid_next (S (uuid_next st)) st),
     Throw InsufficientFundsError).
Proof.
  intros Ha Ta Hc Tc Hm Tm Hf Hlt.
  unfold postingRule, proposeEntries, paymentRefunded.
  rewrite decide_False by discriminate. rewrite decide_True by done.
  rewrite Ha, Hc, Hm, Ta, Tc, Tm. simpl.
  unfold bind at 1 2.
  rewrite findOrCreateAccount_created by exact Hf.
  cbn [balance newAccount]. by rewrite Hlt.
Qed.

(** C5 (as amended).  A full refund with every required field truthy, where
    the balance of the Merchant Payable account is below the amount, makes
    [POST /events] fail with [InsufficientFundsError].  The account is the
    one [findOrCreateAccount] answers: the merchant's, or, when the merchant
    has none in that currency, one it creates with balance 0.  No ledger
    entry is created and no balance changes: the accounts there were are as
    before.  The failed request leaves behind the event record, saved before
    the event is processed, and the account it created, if it did. *)
Theorem full_refund_insufficient_funds (st : Store) payload amount cur merchantId :
  let crit := {| crit_account_name := "Merchant Payable - " +:+ merchantId;
                 crit_currency := cur;
                 crit_account_type := Liability; crit_nature := Credit |} in
  let found := list_find (fun a : Account =>
                            account_name a = "Merchant Payable - " +:+ merchantId
                            /\ currency a = cur) (db_accounts st) in
  p_amount payload = Some amount -> num_truthy amount = true ->
  p_currency payload = Some cur -> str_truthy cur = true ->
  p_merchantId payload = Some merchantId -> str_truthy merchantId = true ->
  (match found with Some (_, payable) => balance payable | None => num_zero end
   [<] amount) = true ->
  exists st',
    postEvents "PaymentRefunded" payload st = (st', Throw InsufficientFundsError)
    /\ db_entries st' = db_entries st
    /\ (exists created,
          db_accounts st' = db_accounts st ++ created
          /\ match found with
             | Some _ => created = []
             | None => exists id, created = [newAccount crit id]
             end)
    /\ db_events st'
       = (db_events st
          ++ [ {| ev_event_id := uuid (uuid_next st);
                  ev_event_type := "PaymentRefunded";
                  ev_payload := payload |} ])%list.
Proof.
  intros crit found Ha Ta Hc Tc Hm Tm Hlt.
  unfold postEvents, bind at 1 2, uuidv4, Event_save.
  cbn [ev_event_type ev_event_id str_truthy fst snd].
  match goal with
  | |- context [executeActions ?t ?p ?s] => set (p0 := p); set (st0 := s)
  end.
  destruct found as [[i payable] |] eqn:Hf; subst found.
  - destruct (executeActions_rule_throws st0 "PaymentRefunded" p0
                InsufficientFundsError) as [n Hrun].
    { intros n. eapply postingRule_refund_insufficient; eauto. }
    rewrite Hrun. eexists. split_and!; try reflexivity.
    exists []. by rewrite app_nil_r.
  - destruct (drawIds_run st0 p0) as (n & [[g t] ev] & Hd & _).
    unfold executeActions, bind at 1 2. rewrite Hd.
    rewrite (postingRule_refund_no_account _ p0 amount cur merchantId) by done.
    eexists. split_and!; try reflexivity.
    eexists. split; [reflexivity |]. by eexists.
Qed.

(** ** What the posting rules do to the store *)

#[local] Instance grow_refl : Reflexive (grow : relation Store).
Proof. intros st. split; [reflexivity | done]. Qed.

#[local] Instance grow_trans : Transitive (grow : relation Store).
Proof.
  intros st1 st2 st3 [Hs Hi] [Hs' Hi']. split; [by etrans | auto].
Qed.

Lemma steps_ret {A} (R : relation Store) `{!Reflexive R} (a : A) :
  steps R (ret a : M A).
Proof. intros st. simpl. reflexivity. Qed.

Lemma steps_throw {A} (R : relation Store) `{!Reflexive R} e :
  steps R (throw e : M A).
Proof. intros st. simpl. reflexivity. Qed.

Lemma steps_bind {A B} (R : relation Store) `{!Transitive R}
    (m : M A) (k : A -> M B) :
  steps R m -> (forall a, steps R (k a)) -> steps R (bind m k).
Proof.
  intros Hm Hk st. specialize (Hm st). unfold bind.
  destruct (m st) as [st1 [a | e]]; simpl in *; [| done].
  etrans; [exact Hm | apply Hk].
Qed.

Lemma steps_with_config {A} (R : relation Store) `{!Reflexive R}
    (f : Config -> outcome A) :
  steps R (with_config f).
Proof. intros st. simpl. reflexivity. Qed.

Lemma steps_elim {A} (R : relation Store) (m : M A) st st' o :
  steps R m -> m st = (st', o) -> R st st'.
Proof. intros Hm Hrun. specialize (Hm st). by rewrite Hrun in Hm. Qed.

Lemma grow_uuid (st : Store) n : uuid_next st <= n -> grow st (set_uuid_next n st).
Proof. intros. split; [by apply rule_step_uuid | by apply Inv_set_uuid]. Qed.

Lemma grow_new_account (st : Store) crit :
  grow st (set_accounts (db_accounts st ++ [newAccount crit (uuid (uuid_next st))])
             (set_uuid_next (S (uuid_next st)) st)).
Proof.
  split; [| apply Inv_new_account].
  unfold rule_step. simpl. split_and!; try done; [lia |].
  eexists. split; [done |]. by apply Forall_singleton.
Qed.

(** [findOrCreateAccount] always returns an account of the store with the
    name and the currency of the criteria. *)
Lemma findOrCreateAccount_run (st : Store) crit :
  exists st' a,
    findOrCreateAccount crit st = (st', Return a)
    /\ grow st st'
    /\ a ∈ db_accounts st'
    /\ account_name a = crit_account_name crit
    /\ currency a = crit_currency crit.
Proof.
  destruct (list_find (matches crit) (db_accounts st)) as [[i a] |] eqn:Hf.
  - exists st, a. split; [by eapply findOrCreateAccount_found |].
    apply list_find_Some in Hf as (Hi & [? ?] & _).
    split_and!; [reflexivity | by eapply list_elem_of_lookup_2 | done..].
  - eexists _, _. split; [by apply findOrCreateAccount_created |].
    split_and!; [apply grow_new_account | | done..].
    simpl. apply elem_of_app. right. by apply list_elem_of_singleton.
Qed.

Lemma steps_findOrCreateAccount crit : steps grow (findOrCreateAccount crit).
Proof.
  intros st. destruct (findOrCreateAccount_run st crit) as (st' & a & -> & ? & _).
  done.
Qed.

Lemma steps_uuidv4 : steps grow (uuidv4 : M string).
Proof. intros st. simpl. apply grow_uuid. lia. Qed.

Lemma steps_drawIds (payload : Payload) : steps grow (drawIds payload).
Proof.
  intros st. destruct (drawIds_run st payload) as (n & ids & -> & ?).
  simpl. apply grow_uuid. lia.
Qed.

(** Discharge a [steps grow] goal by following the structure of the code. *)
Ltac steps_auto :=
  repeat first
    [ apply steps_ret; apply _
    | apply steps_throw; apply _
    | apply steps_with_config; apply _
    | apply steps_findOrCreateAccount
    | apply steps_uuidv4
    | apply steps_bind; [apply _ | | intros ?]
    | match goal with
      | |- steps _ (match ?x with _ => _ end) => destruct x
      end ].

Lemma steps_revenueAccount key : steps grow (revenueAccount key : M AccountCriteria).
Proof. unfold revenueAccount. steps_auto. Qed.

Lemma steps_paymentCaptured (payload : Payload) :
  steps grow (paymentCaptured payload).
Proof.
  unfold paymentCaptured.
  repeat first [ apply steps_revenueAccount | progress steps_auto ].
Qed.

Lemma steps_paymentRefunded (payload : Payload) :
  steps grow (paymentRefunded payload).
Proof. unfold paymentRefunded. steps_auto. Qed.

Lemma steps_paymentPartiallyRefunded (payload : Payload) :
  steps grow (paymentPartiallyRefunded payload).
Proof. unfold paymentPartiallyRefunded. steps_auto. Qed.

Lemma steps_proposeEntries eventType (payload : Payload) :
  steps grow (proposeEntries eventType payload).
Proof.
  unfold proposeEntries. repeat case_decide;
    auto using steps_paymentCaptured, steps_paymentRefunded,
      steps_paymentPartiallyRefunded.
  apply steps_throw, _.
Qed.

Lemma rule_step_elem (st st' : Store) a :
  rule_step st st' -> a ∈ db_accounts st -> a ∈ db_accounts st'.
Proof.
  intros (_ & _ & _ & _ & l & -> & _) Ha. apply elem_of_app. by left.
Qed.

(** Peel one [findOrCreateAccount] off a successful run. *)
Ltac peel_foc Hrun a :=
  let st1 := fresh "st" in
  let Hf := fresh "Hfoc" in
  apply bind_inv_Return in Hrun as (st1 & a & Hf & Hrun);
  match type of Hf with
  | findOrCreateAccount ?crit ?st0 = _ =>
      let Hr := fresh "Hr" in
      let st2 := fresh "st" in
      let a2 := fresh "a" in
      destruct (findOrCreateAccount_run st0 crit)
        as (st2 & a2 & Hr & [? _] & ? & ? & ?);
      rewrite Hr in Hf; simplify_eq; simpl in *
  end.

(** Peel one [revenueAccount] off a successful run. *)
Ltac peel_revenue Hrun spec :=
  let st1 := fresh "st" in
  let Hf := fresh "Hrev" in
  apply bind_inv_Return in Hrun as (st1 & spec & Hf & Hrun);
  unfold revenueAccount, with_config in Hf;
  match type of Hf with
  | (_, match ?x with _ => _ end) = _ =>
      let Hspec := fresh "Hspec" in
      destruct x eqn:Hspec; simplify_eq
  end.

(** A successful [PaymentCaptured]: what was proposed. *)
Lemma paymentCaptured_inv (st st' : Store) payload es d c :
  paymentCaptured payload st = (st', Return (es, d, c)) ->
  exists amount source merchantId fee total feeS fx cash payable feeSpec feeRevenue
         (fxRevenue : list Account),
    let settlement := str_or (p_settlementCurrency payload) source in
    p_amount payload = Some amount /\ num_truthy amount = true
    /\ p_currency payload = Some source /\ str_truthy source = true
    /\ p_merchantId payload = Some merchantId /\ str_truthy merchantId = true
    /\ p_transactionFee payload = Some fee
    /\ settle (ledgerConfig st) amount fee source settlement = Return (total, feeS, fx)
    /\ cfg_accounts (ledgerConfig st) !! "revenue"
         ≫= (fun m => m !! "transaction_fees") = Some feeSpec
    /\ (cash ∈ db_accounts st' /\ account_name cash = "Cash - " +:+ settlement
        /\ currency cash = settlement)
    /\ (payable ∈ db_accounts st'
        /\ account_name payable = "Merchant Payable - " +:+ merchantId
        /\ currency payable = settlement)
    /\ (feeRevenue ∈ db_accounts st'
        /\ account_name feeRevenue = crit_account_name feeSpec
        /\ currency feeRevenue = settlement)
    /\ (if fx [>] num_zero
        then exists fxSpec a,
               fxRevenue = [a]
               /\ cfg_accounts (ledgerConfig st) !! "revenue"
                    ≫= (fun m => m !! "fx_fees") = Some fxSpec
               /\ a ∈ db_accounts st'
               /\ account_name a = crit_account_name fxSpec
               /\ currency a = settlement
        else fxRevenue = [])
    /\ view_data <$> es
       = [ (account_id cash, Debit, total, settlement);
           (account_id payable, Credit, total [-] feeS [-] fx, settlement);
           (account_id feeRevenue, Credit, feeS, settlement) ]
         ++ ((fun a => (account_id a, Credit, fx, settlement)) <$> fxRevenue)
    /\ d = sumBy Debit (legs_data es)
    /\ c = sumBy Credit (legs_data es).
Proof.
  intros Hrun. unfold paymentCaptured in Hrun.
  destruct (p_amount payload) as [amount |]; [| done].
  destruct (p_currency payload) as [source |]; [| done].
  destruct (p_merchantId payload) as [merchantId |]; [| done].
  destruct (p_transactionFee payload) as [fee |]; [| done].
  destruct (negb (num_truthy amount) || negb (str_truthy source)
            || negb (str_truthy merchantId)) eqn:Hvalid; [done |].
  apply orb_false_elim in Hvalid as [[Ta Ts]%orb_false_elim Tm].
  apply negb_false_iff in Ta, Ts, Tm.
  set (settlement := str_or (p_settlementCurrency payload) source) in *.
  apply bind_inv_Return in Hrun as (st1 & [[total feeS] fx] & Hsettle & Hrun).
  assert (st1 = st
          /\ settle (ledgerConfig st) amount fee source settlement
             = Return (total, feeS, fx)) as [-> Hs].
  { unfold settle. destruct (decide (source <> settlement)).
    - unfold bind, with_config, ret in Hsettle.
      destruct (getExchangeRate _ _ _); by simplify_eq.
    - unfold ret in Hsettle. by simplify_eq. }
  peel_foc Hrun cash. peel_foc Hrun payable.
  peel_revenue Hrun feeSpec. peel_foc Hrun feeRevenue.
  repeat match goal with
         | Hstep : rule_step _ _ |- _ => pose proof Hstep as (_ & _ & ? & _); revert Hstep
         end; intros.
  destruct (fx [>] num_zero) eqn:Hfx.
  - peel_revenue Hrun fxSpec. peel_foc Hrun fxRevenue.
    unfold ret in Hrun. simplify_eq.
    exists amount, source, merchantId, fee, total, feeS, fx,
      cash, payable, feeSpec, feeRevenue, [fxRevenue].
    simpl. rewrite Hfx.
    split_and!; try done; eauto 10 using rule_step_elem; try congruence.
    eexists _, _. split_and!; try done; congruence.
  - unfold ret in Hrun. simplify_eq.
    exists amount, source, merchantId, fee, total, feeS, fx,
      cash, payable, feeSpec, feeRevenue, [].
    simpl. rewrite Hfx.
    split_and!; try done; eauto 10 using rule_step_elem; congruence.
Qed.

Lemma totals_sumBy (es : list EntryData) :
  totals es = (sumBy Debit (legs_data es), sumBy Credit (legs_data es)).
Proof.
  unfold totals, sumBy, legs_data. generalize (@num_zero num _) at 1 3.
  generalize (@num_zero num _).
  induction es as [| e es IH]; intros c d; simpl; [done |].
  destruct (ed_entry_type e); simpl; apply IH.
Qed.

(** A successful refund rule, full or partial: what was proposed. *)
Lemma refund_inv (st st' : Store) (amt : num) cur merchantId d1 d2 md es d c
    (k : Account -> M (list EntryData * num * num)) :
  (forall payable,
     k payable
     = (do cash <- findOrCreateAccount
          {| crit_account_name := "Cash - " +:+ cur; crit_currency := cur;
             crit_account_type := Asset; crit_nature := Debit |};
        ret (refundEntries payable cash amt cur d1 d2 md,
             (totals (refundEntries payable cash amt cur d1 d2 md)).1,
             (totals (refundEntries payable cash amt cur d1 d2 md)).2))) ->
  (do payable <- findOrCreateAccount
       {| crit_account_name := "Merchant Payable - " +:+ merchantId;
          crit_currency := cur;
          crit_account_type := Liability; crit_nature := Credit |};
   if balance payable [<] amt then throw InsufficientFundsError else k payable) st
  = (st', Return (es, d, c)) ->
  exists payable cash,
    (payable ∈ db_accounts st'
     /\ account_name payable = "Merchant Payable - " +:+ merchantId
     /\ currency payable = cur)
    /\ (balance payable [<] amt) = false
    /\ (cash ∈ db_accounts st' /\ account_name cash = "Cash - " +:+ cur
        /\ currency cash = cur)
    /\ view_data <$> es
       = [ (account_id payable, Debit, amt, cur); (account_id cash, Credit, amt, cur) ]
    /\ d = sumBy Debit (legs_data es)
    /\ c = sumBy Credit (legs_data es).
Proof.
  intros Hk Hrun. peel_foc Hrun payable.
  destruct (balance payable [<] amt) eqn:Hlt; [done |].
  rewrite Hk in Hrun. peel_foc Hrun cash.
  unfold ret in Hrun. simplify_eq.
  exists payable, cash. split_and!; try done. by eapply rule_step_elem.
Qed.

Lemma paymentRefunded_inv (st st' : Store) payload es d c :
  paymentRefunded payload st = (st', Return (es, d, c)) ->
  exists amount cur merchantId payable cash,
    p_amount payload = Some amount /\ num_truthy amount = true
    /\ p_currency payload = Some cur /\ str_truthy cur = true
    /\ p_merchantId payload = Some merchantId /\ str_truthy merchantId = true
    /\ (payable ∈ db_accounts st'
        /\ account_name payable = "Merchant Payable - " +:+ merchantId
        /\ currency payable = cur)
    /\ (balance payable [<] amount) = false
    /\ (cash ∈ db_accounts st' /\ account_name cash = "Cash - " +:+ cur
        /\ currency cash = cur)
    /\ view_data <$> es
       = [ (account_id payable, Debit, amount, cur);
           (account_id cash, Credit, amount, cur) ]
    /\ d = sumBy Debit (legs_data es)
    /\ c = sumBy Credit (legs_data es).
Proof.
  intros Hrun. unfold paymentRefunded in Hrun.
  destruct (p_amount payload) as [amount |]; [| done].
  destruct (p_currency payload) as [cur |]; [| done].
  destruct (p_merchantId payload) as [merchantId |]; [| done].
  destruct (negb (num_truthy amount) || negb (str_truthy cur)
            || negb (str_truthy merchantId)) eqn:Hvalid; [done |].
  apply orb_false_elim in Hvalid as [[Ta Ts]%orb_false_elim Tm].
  apply negb_false_iff in Ta, Ts, Tm.
  eapply refund_inv in Hrun
    as (payable & cash & (? & ? & ?) & ? & (? & ? & ?) & ? & ? & ?); [| done].
  exists amount, cur, merchantId, payable, cash. by split_and!.
Qed.

Lemma paymentPartiallyRefunded_inv (st st' : Store) payload es d c :
  paymentPartiallyRefunded payload st = (st', Return (es, d, c)) ->
  exists originalAmount refundAmount cur merchantId payable cash,
    p_originalAmount payload = Some originalAmount
    /\ num_truthy originalAmount = true
    /\ p_refundAmount payload = Some refundAmount
    /\ num_truthy refundAmount = true
    /\ p_currency payload = Some cur /\ str_truthy cur = true
    /\ p_merchantId payload = Some merchantId /\ str_truthy merchantId = true
    /\ (refundAmount [>] originalAmount) = false
    /\ (payable ∈ db_accounts st'
        /\ account_name payable = "Merchant Payable - " +:+ merchantId
        /\ currency payable = cur)
    /\ (balance payable [<] refundAmount) = false
    /\ (cash ∈ db_accounts st' /\ account_name cash = "Cash - " +:+ cur
        /\ currency cash = cur)
    /\ view_data <$> es
       = [ (account_id payable, Debit, refundAmount, cur);
           (account_id cash, Credit, refundAmount, cur) ]
    /\ d = sumBy Debit (legs_data es)
    /\ c = sumBy Credit (legs_data es).
Proof.
  intros Hrun. unfold paymentPartiallyRefunded in Hrun.
  destruct (p_originalAmount payload) as [originalAmount |]; [| done].
  destruct (p_refundAmount payload) as [refundAmount |]; [| done].
  destruct (p_currency payload) as [cur |]; [| done].
  destruct (p_merchantId payload) as [merchantId |]; [| done].
  destruct (negb (num_truthy originalAmount) || negb (num_truthy refundAmount)
            || negb (str_truthy cur) || negb (str_truthy merchantId))
    eqn:Hvalid; [done |].
  apply orb_false_elim in Hvalid as [[[To Tr]%orb_false_elim Ts]%orb_false_elim Tm].
  apply negb_false_iff in To, Tr, Ts, Tm.
  destruct (refundAmount [>] originalAmount) eqn:Hle; [done |].
  eapply refund_inv in Hrun
    as (payable & cash & (? & ? & ?) & ? & (? & ? & ?) & ? & ? & ?); [| done].
  exists originalAmount, refundAmount, cur, merchantId, payable, cash.
  by split_and!.
Qed.

Lemma resolves_intro (st : Store) a id cur :
  a ∈ db_accounts st -> account_id a = id -> currency a = cur -> resolves st id cur.
Proof. intros. by exists a. Qed.

Ltac resolve_account :=
  eapply resolves_intro; [| simpl; reflexivity |]; [eassumption | simpl; eassumption].

(** Every rule hands to its balance check the totals of the entries it
    proposes, and every proposed entry names an account of the store in that
    account's currency. *)
Lemma proposeEntries_inv (st st' : Store) eventType payload es d c :
  proposeEntries eventType payload st = (st', Return (es, d, c)) ->
  d = sumBy Debit (legs_data es)
  /\ c = sumBy Credit (legs_data es)
  /\ Forall (fun v => resolves st' v.1.1.1 v.2) (view_data <$> es).
Proof.
  unfold proposeEntries. intros Hrun. repeat case_decide; [| | | done].
  - apply paymentCaptured_inv in Hrun
      as (amount & source & merchantId & fee & total & feeS & fx & cash & payable
          & feeSpec & feeRevenue & fxRevenue & _ & _ & _ & _ & _ & _ & _ & _ & _
          & (? & _ & ?) & (? & _ & ?) & (? & _ & ?) & Hfx & -> & -> & ->).
    split_and!; [done.. |].
    apply Forall_app. split.
    { repeat (apply Forall_cons; split; [resolve_account |]). apply Forall_nil_2. }
    destruct (fx [>] num_zero).
    + destruct Hfx as (fxSpec & a & -> & _ & ? & _ & ?).
      apply Forall_singleton. resolve_account.
    + subst. apply Forall_nil_2.
  - apply paymentRefunded_inv in Hrun
      as (amount & cur & merchantId & payable & cash & _ & _ & _ & _ & _ & _
          & (? & _ & ?) & _ & (? & _ & ?) & -> & -> & ->).
    split_and!; [done.. |].
    repeat (apply Forall_cons; split; [resolve_account |]). apply Forall_nil_2.
  - apply paymentPartiallyRefunded_inv in Hrun
      as (originalAmount & refundAmount & cur & merchantId & payable & cash
          & _ & _ & _ & _ & _ & _ & _ & _ & _
          & (? & _ & ?) & _ & (? & _ & ?) & -> & -> & ->).
    split_and!; [done.. |].
    repeat (apply Forall_cons; split; [resolve_account |]). apply Forall_nil_2.
Qed.

(** ** The persistence loop *)

Lemma updateAccountBalance_inv (st st' : Store) id t amt cur :
  updateAccountBalance id t amt cur st = (st', Return tt) ->
  exists i a,
    list_find (fun x : Account => account_id x = id) (db_accounts st) = Some (i, a)
    /\ currency a = cur
    /\ st' = set_accounts
               (<[i := set_balance a (balance a [+] balanceChange (nature a) t amt)]>
                  (db_accounts st)) st.
Proof.
  intros Hrun.
  destruct (list_find (fun x : Account => account_id x = id) (db_accounts st))
    as [[i a] |] eqn:Hf.
  - destruct (decide (currency a = cur)) as [Hc | Hc].
    + erewrite updateAccountBalance_ok in Hrun by done. simplify_eq. eauto.
    + erewrite updateAccountBalance_mismatch in Hrun by done. done.
  - rewrite updateAccountBalance_not_found in Hrun by done. done.
Qed.

Lemma updateAccountBalance_static (st st' : Store) id t amt cur :
  updateAccountBalance id t amt cur st = (st', Return tt) ->
  acct_static <$> db_accounts st' = acct_static <$> db_accounts st
  /\ db_entries st' = db_entries st /\ db_events st' = db_events st
  /\ ledgerConfig st' = ledgerConfig st /\ uuid_next st' = uuid_next st.
Proof.
  intros (i & a & (Hi & _)%list_find_Some & _ & ->)%updateAccountBalance_inv.
  simpl. split_and!; try done. by eapply fmap_insert_same.
Qed.

(** [save()] of a new entry: refused for an amount that is NaN, appended
    otherwise. *)
Lemma LedgerEntry_insert_run (st : Store) e :
  num_isNaN (amount e) = false ->
  LedgerEntry_insert e st = (set_entries (db_entries st ++ [e]) st, Return tt).
Proof. intros Hnum. unfold LedgerEntry_insert. by rewrite Hnum. Qed.

Lemma LedgerEntry_insert_NaN (st : Store) e :
  num_isNaN (amount e) = true ->
  LedgerEntry_insert e st = (st, Throw ValidationFailed).
Proof. intros Hnum. unfold LedgerEntry_insert. by rewrite Hnum. Qed.

Lemma LedgerEntry_insert_inv (st st' : Store) e :
  LedgerEntry_insert e st = (st', Return tt) ->
  num_isNaN (amount e) = false
  /\ st' = set_entries (db_entries st ++ [e]) st.
Proof.
  unfold LedgerEntry_insert. destruct (num_isNaN (amount e)); [done |].
  intros [= <-]. done.
Qed.

Lemma saveEntries_inv (es : list EntryData) (st st' : Store) created g t ev :
  saveEntries g t ev es st = (st', Return created) ->
  core <$> created = view_data <$> es
  /\ Forall (fun e => entryGroupId e = g /\ transaction_id e = Some t
                      /\ event_id e = Some ev /\ isReversal e = false
                      /\ isReversed e = false /\ originalEntryId e = None
                      /\ num_isNaN (amount e) = false) created
  /\ db_entries st' = db_entries st ++ created
  /\ acct_static <$> db_accounts st' = acct_static <$> db_accounts st
  /\ db_events st' = db_events st
  /\ ledgerConfig st' = ledgerConfig st.
Proof.
  revert st created.
  induction es as [| ed es IH]; intros st created Hrun; simpl in Hrun.
  - unfold ret in Hrun. simplify_eq. by rewrite app_nil_r.
  - apply bind_inv_Return in Hrun as (st1 & entryId & Hid & Hrun).
    apply bind_inv_Return in Hrun as (st2 & [] & Hins & Hrun).
    apply bind_inv_Return in Hrun as (st3 & [] & Hupd & Hrun).
    apply bind_inv_Return in Hrun as (st4 & rest & Hrest & Hrun).
    unfold uuidv4 in Hid. apply LedgerEntry_insert_inv in Hins as [Hnum ->].
    unfold ret in Hrun. simplify_eq.
    apply updateAccountBalance_static in Hupd as (Hs & He & Hv & Hc & _).
    apply IH in Hrest as (Hcore & Hall & He' & Hs' & Hv' & Hc').
    simpl in Hs, He, Hv, Hc. split_and!.
    + rewrite !fmap_cons. by rewrite Hcore.
    + apply Forall_cons. by split.
    + by rewrite He', He, <- app_assoc.
    + by rewrite Hs', Hs.
    + by rewrite Hv', Hv.
    + by rewrite Hc', Hc.
Qed.

Lemma resolves_static (st st' : Store) id cur :
  acct_static <$> db_accounts st' = acct_static <$> db_accounts st ->
  resolves st id cur -> resolves st' id cur.
Proof.
  intros Hs (a & Ha & ? & ?).
  destruct (static_transfer _ _ a Hs Ha) as (a' & ? & ? & _ & ? & _).
  exists a'. split_and!; [done | congruence..].
Qed.

Lemma uuidv4_run (st : Store) :
  uuidv4 st = (set_uuid_next (S (uuid_next st)) st, Return (uuid (uuid_next st))).
Proof. done. Qed.

(** From a store that satisfies the invariant the persistence loop, on
    entries whose accounts are listed in the entry's currency, can only fail
    on an amount that is NaN: the entries before that one are written and
    applied, and the invariant holds again where the loop stops. *)
Lemma saveEntries_Inv (es : list EntryData) (st : Store) g t ev :
  Inv st ->
  (exists k, k < uuid_next st /\ g = uuid k) ->
  Forall (fun v => resolves st v.1.1.1 v.2) (view_data <$> es) ->
  exists st' o written,
    saveEntries g t ev es st = (st', o) /\ Inv st'
    /\ db_entries st' = db_entries st ++ written
    /\ acct_static <$> db_accounts st' = acct_static <$> db_accounts st
    /\ Forall (fun w : LedgerEntry =>
                 entryGroupId w = g /\ event_id w = Some ev) written
    /\ match o with
       | Return created =>
           created = written
           /\ Forall (fun d => num_isNaN (ed_amount d) = false) es
       | Throw e =>
           e = ValidationFailed
           /\ Exists (fun d => num_isNaN (ed_amount d) = true) es
       end.
Proof.
  revert st. induction es as [| ed es IH]; intros st HI (k & Hk & Hg) Hres.
  - eexists _, (Return []), []. simpl. unfold ret. rewrite app_nil_r.
    by split_and!.
  - rewrite fmap_cons in Hres.
    apply Forall_cons in Hres as [(a & Ha & Hid & Hcur) Hres].
    change (saveEntries g t ev (ed :: es))
      with (do entryId <- uuidv4;
            let ledgerEntry := newLedgerEntry entryId g t ev ed in
            exec LedgerEntry_insert ledgerEntry;
            exec updateAccountBalance (entry_account_id ledgerEntry)
                   (entry_type ledgerEntry) (amount ledgerEntry)
                   (entry_currency ledgerEntry);
            do createdEntries <- saveEntries g t ev es;
            ret (ledgerEntry :: createdEntries)).
    erewrite bind_Return by apply uuidv4_run. cbv beta zeta.
    set (st1 := set_uuid_next (S (uuid_next st)) st).
    set (e0 := newLedgerEntry (uuid (uuid_next st)) g t ev ed).
    assert (Inv st1) as HI1 by (apply Inv_set_uuid; [simpl; lia | done]).
    destruct (num_isNaN (ed_amount ed)) eqn:Hnum.
    { erewrite bind_Throw by (by apply LedgerEntry_insert_NaN).
      eexists _, _, []. rewrite app_nil_r. split_and!; [done.. |].
      split; [done |]. by left. }
    erewrite bind_Return by (by apply LedgerEntry_insert_run).
    destruct (Inv_post_entry st1 e0 a)
      as (st2 & Hupd & HI2 & Hs & He & _ & _ & Hu); [done.. | | done |].
    { exists k. simpl. split; [lia | done]. }
    erewrite bind_Return by exact Hupd.
    destruct (IH st2) as (st3 & o & written & Hrest & HI3 & He3 & Hs3 & Hw & Ho);
      [done | | |].
    { exists k. rewrite Hu. simpl. split; [lia | done]. }
    { eapply Forall_impl; [exact Hres |]. intros v. by apply resolves_static. }
    assert (db_entries st3 = db_entries st ++ e0 :: written) as He3'.
    { rewrite He3, He. simpl. by rewrite <- app_assoc. }
    assert (acct_static <$> db_accounts st3 = acct_static <$> db_accounts st)
      as Hs3' by (by rewrite Hs3, Hs).
    assert (Forall (fun w : LedgerEntry =>
                      entryGroupId w = g /\ event_id w = Some ev) (e0 :: written))
      as Hw' by (by apply Forall_cons).
    destruct o as [created | e].
    + erewrite bind_Return by exact Hrest. destruct Ho as [-> Hnums].
      eexists _, _, (e0 :: written). split_and!; [done.. |].
      split; [done | by constructor].
    + erewrite bind_Throw by exact Hrest.
      eexists _, _, (e0 :: written). split_and!; [done.. |].
      destruct Ho as [-> Hex]. split; [done | by right].
Qed.

(** ** [executeActions] step by step *)

Lemma executeActions_unfold (st st1 : Store) eventType payload g t ev :
  drawIds payload st = (st1, Return (g, t, ev)) ->
  executeActions eventType payload st
  = match proposeEntries eventType payload st1 with
    | (st2, Return (es, d, c)) =>
        if unbalanced d c then (st2, Throw ImbalanceError)
        else saveEntries g t ev es st2
    | (st2, Throw e) => (st2, Throw e)
    end.
Proof.
  intros Hd. unfold executeActions, postingRule, bind. rewrite Hd.
  destruct (proposeEntries eventType payload st1) as [st2 [[[es d] c] | e]];
    [| done].
  unfold balanceGate. by destruct (unbalanced d c).
Qed.

Lemma executeActions_inv (st st' : Store) eventType payload created :
  executeActions eventType payload st = (st', Return created) ->
  exists st1 st2 g t ev es d c,
    drawIds payload st = (st1, Return (g, t, ev))
    /\ proposeEntries eventType payload st1 = (st2, Return (es, d, c))
    /\ unbalanced d c = false
    /\ saveEntries g t ev es st2 = (st', Return created).
Proof.
  intros Hrun. destruct (drawIds_run st payload) as (n & [[g t] ev] & Hd & _).
  rewrite (executeActions_unfold _ _ _ _ _ _ _ Hd) in Hrun.
  destruct (proposeEntries eventType payload (set_uuid_next n st))
    as [st2 [[[es d] c] | e]] eqn:Hp; [| done].
  destruct (unbalanced d c) eqn:Hb; [done |].
  by exists (set_uuid_next n st), st2, g, t, ev, es, d, c.
Qed.

Lemma legs_core (l : list LedgerEntry) :
  legs l = (fun v : string * Side * num * string => (v.1.1.2, v.1.2)) <$> (core <$> l).
Proof. unfold legs. by rewrite <- list_fmap_compose. Qed.



Lemma executeActions_Inv (st : Store) eventType payload :
  Inv st -> Inv (executeActions eventType payload st).1.
Proof.
  intros HI. destruct (drawIds_run st payload) as (n & [[g t] ev] & Hd & Hn).
  rewrite (executeActions_unfold _ _ _ _ _ _ _ Hd).
  assert (Inv (set_uuid_next n st)) as HI1 by (apply Inv_set_uuid; [lia | done]).
  destruct (proposeEntries eventType payload (set_uuid_next n st))
    as [st2 o] eqn:Hp.
  pose proof (steps_elim _ _ _ _ _ (steps_proposeEntries eventType payload) Hp)
    as [(_ & _ & _ & Hu & _) HI2].
  specialize (HI2 HI1). simpl in Hu.
  destruct o as [[[es d] c] | e]; [| done].
  destruct (unbalanced d c); [done |].
  apply proposeEntries_inv in Hp as (_ & _ & Hres).
  apply drawIds_group in Hd as ->.
  destruct (saveEntries_Inv es st2 (uuid (uuid_next st)) t ev HI2)
    as (st3 & o & written & -> & HI3 & _); [| done..].
  exists (uuid_next st). split; [lia | done].
Qed.

Lemma postEvents_Inv (st : Store) eventType payload :
  Inv st -> Inv (postEvents eventType payload st).1.
Proof.
  intros HI. unfold postEvents.
  erewrite bind_Return by apply uuidv4_run.
  assert (Inv (set_uuid_next (S (uuid_next st)) st)) as HI1
    by (apply Inv_set_uuid; [lia | done]).
  unfold bind, Event_save. simpl.
  destruct (str_truthy eventType); [| done].
  apply executeActions_Inv. by apply Inv_set_events.
Qed.

Lemma errs_getExchangeRate (P : Error -> Prop) fromCurrency toCurrency :
  P (ExchangeRateUnavailable fromCurrency toCurrency) ->
  errs P (with_config (fun cfg => getExchangeRate cfg fromCurrency toCurrency)).
Proof.
  intros HP. apply errs_with_config. intros cfg e. unfold getExchangeRate.
  repeat case_match; intros; simplify_eq; done.
Qed.

Lemma errs_revenueAccount (P : Error -> Prop) key :
  P TypeError -> errs P (revenueAccount key : M AccountCriteria).
Proof.
  intros HP. apply errs_with_config. intros cfg e.
  repeat case_match; intros; simplify_eq; done.
Qed.

Lemma errs_LedgerEntry_insert (P : Error -> Prop) (e : LedgerEntry) :
  P ValidationFailed -> errs P (LedgerEntry_insert e).
Proof.
  intros HP st _. unfold LedgerEntry_insert. by destruct (num_isNaN (amount e)).
Qed.

Lemma errs_saveEntries (P : Error -> Prop) g t ev (es : list EntryData) :
  (forall id, P (AccountNotFound id)) -> P CurrencyMismatchError ->
  P ValidationFailed ->
  errs P (saveEntries g t ev es).
Proof.
  intros Hnf Hcm Hvf. induction es as [| e es IH]; simpl; [apply errs_ret |].
  apply errs_bind; [apply errs_uuidv4 | intros entryId].
  apply errs_bind; [by apply errs_LedgerEntry_insert | intros _].
  apply errs_bind; [by apply errs_updateAccountBalance | intros _].
  apply errs_bind; [exact IH | intros created]. apply errs_ret.
Qed.

Lemma errs_drawIds P (payload : Payload) : errs P (drawIds payload).
Proof.
  apply errs_total. intros st.
  destruct (drawIds_run st payload) as (n & ids & -> & _). by eexists _, _.
Qed.

Lemma errs_balanceGate (P : Error -> Prop) (proposed : list EntryData * num * num) :
  P ImbalanceError -> errs P (balanceGate proposed).
Proof.
  intros HP. destruct proposed as [[es d] c]. unfold balanceGate.
  destruct (unbalanced d c); [by apply errs_throw | apply errs_ret].
Qed.

(** Past its required-field check, [PaymentCaptured] throws nothing but a
    missing exchange rate or a broken configuration. *)
Lemma errs_paymentCaptured_valid (P : Error -> Prop) (payload : Payload)
    amount cur merchantId fee :
  p_amount payload = Some amount -> num_truthy amount = true ->
  p_currency payload = Some cur -> str_truthy cur = true ->
  p_merchantId payload = Some merchantId -> str_truthy merchantId = true ->
  p_transactionFee payload = Some fee ->
  (forall a b, P (ExchangeRateUnavailable a b)) -> P TypeError ->
  errs P (paymentCaptured payload).
Proof.
  intros Ha Ta Hc Tc Hm Tm Hfee Hrate Hty. unfold paymentCaptured.
  rewrite Ha, Hc, Hm, Hfee, Ta, Tc, Tm. simpl.
  apply errs_bind.
  { case_decide; [| apply errs_ret].
    apply errs_bind; [by apply errs_getExchangeRate | intros r].
    apply errs_bind; [by apply errs_with_config | intros fr]. apply errs_ret. }
  intros [[total fee'] fx].
  apply errs_bind; [apply errs_findOrCreateAccount | intros cash].
  apply errs_bind; [apply errs_findOrCreateAccount | intros payable].
  apply errs_bind; [by apply errs_revenueAccount | intros feeSpec].
  apply errs_bind; [apply errs_findOrCreateAccount | intros feeRevenue].
  case_match; [| apply errs_ret].
  apply errs_bind; [by apply errs_revenueAccount | intros fxSpec].
  apply errs_bind; [apply errs_findOrCreateAccount | intros fxRevenue].
  apply errs_ret.
Qed.

(** ** The reversal engine *)

Lemma find_from_lookup (P : LedgerEntry -> bool) k (l : list LedgerEntry) i e :
  (i, e) ∈ find_from P k l -> k <= i /\ l !! (i - k) = Some e /\ P e = true.
Proof.
  revert k. induction l as [| x l IH]; intros k Hin; simpl in Hin.
  - by apply elem_of_nil in Hin.
  - destruct (P x) eqn:HP.
    + apply elem_of_cons in Hin as [[= -> ->] | Hin].
      * rewrite Nat.sub_diag. by split_and!.
      * apply IH in Hin as (Hle & Hl & ?). split_and!; [lia | | done].
        replace (i - k) with (S (i - S k)) by lia. done.
    + apply IH in Hin as (Hle & Hl & ?). split_and!; [lia | | done].
      replace (i - k) with (S (i - S k)) by lia. done.
Qed.

Lemma reversalRate_block (st : Store) (account : Account) (originalEntry : LedgerEntry) :
  (if decide (currency account <> entry_currency originalEntry) then
     do exchangeRate <- with_config (fun cfg =>
          getExchangeRate cfg (entry_currency originalEntry) (currency account));
     ret (amount originalEntry [*] exchangeRate, currency account, exchangeRate)
   else ret (amount originalEntry, entry_currency originalEntry, num_one)) st
  = (st,
     match reversalRate (ledgerConfig st) account originalEntry with
     | Return rate =>
         Return (if decide (currency account <> entry_currency originalEntry)
                 then amount originalEntry [*] rate else amount originalEntry,
                 currency account, rate)
     | Throw e => Throw e
     end).
Proof.
  unfold reversalRate. case_decide as Hc.
  - unfold bind, with_config, ret. by destruct (getExchangeRate _ _ _).
  - unfold ret. repeat f_equal. by destruct (decide (currency account
                                         = entry_currency originalEntry)).
Qed.

Lemma buildReversals_cons g reason i (originalEntry : LedgerEntry) rest :
  buildReversals g reason ((i, originalEntry) :: rest)
  = (do found <- Account_findOne
                   (fun a => account_id a = entry_account_id originalEntry);
     match found with
     | None => throw (AccountNotFound (entry_account_id originalEntry))
     | Some (_, account) =>
         do '(reversalAmount, reversalCurrency, exchangeRate) <-
           (if decide (currency account <> entry_currency originalEntry) then
              do exchangeRate <- with_config (fun cfg =>
                   getExchangeRate cfg (entry_currency originalEntry) (currency account));
              ret (amount originalEntry [*] exchangeRate, currency account, exchangeRate)
            else ret (amount originalEntry, entry_currency originalEntry, num_one));
         do entryId <- uuidv4;
         let reversalEntry :=
           newReversalEntry entryId g reason originalEntry reversalAmount
             reversalCurrency exchangeRate in
         exec LedgerEntry_save i (set_isReversed originalEntry true);
         do reversalEntries <- buildReversals g reason rest;
         ret (reversalEntry :: reversalEntries)
     end).
Proof. done. Qed.

(** The first loop, up to the entry it fails on (if any): the entries gone
    through are marked, each has its reversal, nothing else is touched. *)
Lemma buildReversals_run g reason (originals : list (nat * LedgerEntry)) (st : Store) :
  exists st' o done rest,
    buildReversals g reason originals st = (st', o)
    /\ originals = done ++ rest
    /\ db_accounts st' = db_accounts st
    /\ db_events st' = db_events st
    /\ ledgerConfig st' = ledgerConfig st
    /\ uuid_next st' = uuid_next st + length done
    /\ db_entries st' = mark_all done (db_entries st)
    /\ match o with
       | Return revs =>
           rest = []
           /\ Forall2 (fun ie r => reverses (ledgerConfig st) (db_accounts st) g ie.2 r)
                done revs
       | Throw _ =>
           exists ie rest',
             rest = ie :: rest'
             /\ ~ convertible (ledgerConfig st) (db_accounts st) ie.2
       end.
Proof.
  revert st. induction originals as [| [i e] originals IH]; intros st.
  - exists st, (Return []), [], []. simpl.
    split_and!; try done; lia.
  - rewrite buildReversals_cons. unfold bind at 1, Account_findOne.
    destruct (list_find (fun a : Account => account_id a = entry_account_id e)
                (db_accounts st)) as [[j a] |] eqn:Hf.
    + unfold bind at 1. rewrite reversalRate_block.
      destruct (reversalRate (ledgerConfig st) a e) as [rate | err] eqn:Hrate.
      * erewrite bind_Return by apply uuidv4_run. cbv beta zeta.
        unfold bind at 1, LedgerEntry_save.
        match goal with
        | |- context [bind (buildReversals g reason originals) _ ?s] =>
            destruct (IH s)
              as (st' & o & done & rest & Hrun & -> & Ha & Hv & Hc & Hu & He & Ho)
        end.
        simpl in Ha, Hv, Hc, Hu, He. unfold bind. rewrite Hrun.
        destruct o as [revs | err].
        -- destruct Ho as [-> Hall].
           eexists st', _, ((i, e) :: done), []. split; [reflexivity |].
           split_and!; try done; try (simpl; lia).
           apply Forall2_cons. split; [| exact Hall].
           exists j, a, rate. by split_and!.
        -- destruct Ho as (ie & rest' & -> & Hnot).
           eexists st', _, ((i, e) :: done), (ie :: rest'). split; [reflexivity |].
           split_and!; try done; try (simpl; lia). by exists ie, rest'.
      * exists st, (Throw err), [], ((i, e) :: originals).
        split_and!; try done; try (simpl; lia).
        exists (i, e), originals. split; [done |].
        intros (j' & a' & rate & Hf' & Hrate'). simpl in *. congruence.
    + exists st, (Throw (AccountNotFound (entry_account_id e))), [],
        ((i, e) :: originals).
      split_and!; try done; try (simpl; lia).
      exists (i, e), originals. split; [done |].
      intros (j' & a' & rate & Hf' & _). simpl in *. congruence.
Qed.

Lemma list_find_static (l l' : list Account) id i a :
  acct_static <$> l' = acct_static <$> l ->
  list_find (fun x : Account => account_id x = id) l = Some (i, a) ->
  exists a', list_find (fun x : Account => account_id x = id) l' = Some (i, a')
             /\ currency a' = currency a.
Proof.
  intros Hs (Hi & Hid & Hmin)%list_find_Some.
  assert (forall j x, l' !! j = Some x ->
                      exists y, l !! j = Some y /\ acct_static x = acct_static y)
    as Hback.
  { intros j x Hj.
    assert ((acct_static <$> l) !! j = Some (acct_static x)) as Hj'.
    { rewrite <- Hs, list_lookup_fmap, Hj. done. }
    rewrite list_lookup_fmap in Hj'.
    destruct (l !! j) as [y |]; [| done]. exists y. simpl in Hj'.
    split; [done | congruence]. }
  assert (exists a', l' !! i = Some a') as [a' Hi'].
  { apply lookup_lt_is_Some. apply lookup_lt_Some in Hi.
    by rewrite <- (length_fmap acct_static), Hs, length_fmap. }
  destruct (Hback _ _ Hi') as (y & Hy & (? & _ & ? & _)%acct_static_eq).
  simplify_eq. exists a'. split; [| done].
  apply list_find_Some. split_and!; [done.. |].
  intros j x Hj Hlt Hx.
  destruct (Hback _ _ Hj) as (y & Hy & (? & _)%acct_static_eq).
  apply (Hmin j y Hy Hlt). congruence.
Qed.

Lemma finds_static (l l' : list Account) id cur :
  acct_static <$> l' = acct_static <$> l -> finds l id cur -> finds l' id cur.
Proof.
  intros Hs (i & a & Hf & Hc).
  destruct (list_find_static _ _ _ _ _ Hs Hf) as (a' & ? & ?).
  exists i, a'. split; [done | congruence].
Qed.

(** The second loop of a reversal cannot fail on entries whose account is
    found in the entry's currency; it appends them, in order. *)
Lemma updateAccountBalance_run (st : Store) id t amt cur :
  (finds (db_accounts st) id cur
   /\ exists st', updateAccountBalance id t amt cur st = (st', Return tt)
                  /\ acct_static <$> db_accounts st' = acct_static <$> db_accounts st
                  /\ db_entries st' = db_entries st /\ db_events st' = db_events st
                  /\ ledgerConfig st' = ledgerConfig st
                  /\ uuid_next st' = uuid_next st)
  \/ (~ finds (db_accounts st) id cur
      /\ exists e, updateAccountBalance id t amt cur st = (st, Throw e)
                   /\ (e = AccountNotFound id \/ e = CurrencyMismatchError)).
Proof.
  destruct (list_find (fun a : Account => account_id a = id) (db_accounts st))
    as [[i a] |] eqn:Hf.
  - destruct (decide (currency a = cur)) as [Hc | Hc].
    + left. split; [by exists i, a |]. eexists. split.
      * by apply (updateAccountBalance_ok _ _ _ _ _ i a).
      * eapply updateAccountBalance_static. by apply (updateAccountBalance_ok _ _ _ _ _ i a).
    + right. split.
      * intros (i' & a' & Hf' & Hc'). congruence.
      * exists CurrencyMismatchError. split; [| by right].
        by apply (updateAccountBalance_mismatch _ _ _ _ _ i a).
  - right. split.
    + intros (i' & a' & Hf' & _). congruence.
    + exists (AccountNotFound id). split; [| by left].
      by apply updateAccountBalance_not_found.
Qed.

(** The loop that saves entries and applies them, whatever its outcome.  It
    stops at the first entry whose amount is NaN, which it does not write, or
    at the first entry whose account is not found in the entry's currency,
    after having written that entry. *)
Lemma saveReversals_any (revs : list LedgerEntry) (st : Store) :
  exists st' o written rest,
    saveReversals revs st = (st', o)
    /\ revs = written ++ rest
    /\ db_entries st' = db_entries st ++ written
    /\ acct_static <$> db_accounts st' = acct_static <$> db_accounts st
    /\ db_events st' = db_events st
    /\ ledgerConfig st' = ledgerConfig st
    /\ uuid_next st' = uuid_next st
    /\ Forall (fun r => num_isNaN (amount r) = false) written
    /\ match o with
       | Return _ =>
           rest = []
           /\ Forall (fun r => finds (db_accounts st) (entry_account_id r)
                                 (entry_currency r)) written
       | Throw e =>
           (exists applied last,
              written = applied ++ [last]
              /\ Forall (fun r => finds (db_accounts st) (entry_account_id r)
                                    (entry_currency r)) applied
              /\ ~ finds (db_accounts st) (entry_account_id last) (entry_currency last)
              /\ (e = AccountNotFound (entry_account_id last)
                  \/ e = CurrencyMismatchError))
           \/ (e = ValidationFailed
               /\ Forall (fun r => finds (db_accounts st) (entry_account_id r)
                                     (entry_currency r)) written
               /\ exists bad rest',
                    rest = bad :: rest' /\ num_isNaN (amount bad) = true)
       end.
Proof.
  revert st. induction revs as [| r revs IH]; intros st.
  - exists st, (Return tt), [], []. simpl. by rewrite app_nil_r.
  - simpl. destruct (num_isNaN (amount r)) eqn:Hnum.
    { erewrite bind_Throw by (by apply LedgerEntry_insert_NaN).
      exists st, (Throw ValidationFailed), [], (r :: revs).
      rewrite app_nil_r. split_and!; try done.
      right. split_and!; [done.. |]. by exists r, revs. }
    erewrite bind_Return by (by apply LedgerEntry_insert_run).
    set (st1 := set_entries (db_entries st ++ [r]) st).
    destruct (updateAccountBalance_run st1 (entry_account_id r) (entry_type r)
                (amount r) (entry_currency r))
      as [(Hfinds & st2 & Hupd & Hs & He & Hv & Hc & Hu)
         | (Hnot & e & Hupd & Herr)].
    + erewrite bind_Return by exact Hupd.
      unfold st1 in Hfinds, Hs, He, Hv, Hc, Hu. simpl in Hfinds, Hs, He, Hv, Hc, Hu.
      destruct (IH st2) as (st' & o & written & rest & Hrun & -> & He' & Hs' & Hv'
                            & Hc' & Hu' & Hnums & Ho).
      assert (forall id cur, finds (db_accounts st2) id cur
                             -> finds (db_accounts st) id cur) as Hback.
      { intros id cur. apply finds_static. by rewrite Hs. }
      exists st', o, (r :: written), rest. split; [done |].
      split_and!; try done; try congruence.
      * rewrite He', He. simpl. by rewrite <- app_assoc.
      * by apply Forall_cons.
      * destruct o as [[] | e].
        -- destruct Ho as [-> Hall]. split; [done |].
           apply Forall_cons. split; [done |].
           eapply Forall_impl; [exact Hall |]. intros r'. apply Hback.
        -- destruct Ho as [(applied & last & -> & Hall & Hnot & Herr)
                          | (-> & Hall & Hbad)].
           ++ left. exists (r :: applied), last. split_and!; [done | | | done].
              ** apply Forall_cons. split; [done |].
                 eapply Forall_impl; [exact Hall |]. intros r'. apply Hback.
              ** intros Hf. apply Hnot. revert Hf. apply finds_static. by rewrite Hs.
           ++ right. split_and!; [done | | done].
              apply Forall_cons. split; [done |].
              eapply Forall_impl; [exact Hall |]. intros r'. apply Hback.
    + erewrite bind_Throw by exact Hupd.
      exists st1, (Throw e), [r], revs. split_and!; try done.
      * by apply Forall_singleton.
      * left. exists [], r. split_and!; try done.
Qed.

(** With every account found in the entry's currency and every amount a
    number, the loop writes and applies every entry. *)
Lemma saveReversals_run (revs : list LedgerEntry) (st : Store) :
  Forall (fun r => finds (db_accounts st) (entry_account_id r) (entry_currency r))
    revs ->
  Forall (fun r => num_isNaN (amount r) = false) revs ->
  exists st',
    saveReversals revs st = (st', Return tt)
    /\ db_entries st' = db_entries st ++ revs
    /\ acct_static <$> db_accounts st' = acct_static <$> db_accounts st
    /\ db_events st' = db_events st
    /\ ledgerConfig st' = ledgerConfig st
    /\ uuid_next st' = uuid_next st.
Proof.
  intros Hfinds Hnums.
  destruct (saveReversals_any revs st)
    as (st' & o & written & rest & Hrun & -> & He & Hs & Hv & Hc & Hu & _ & Ho).
  apply Forall_app in Hfinds as [Hfw Hfr]. apply Forall_app in Hnums as [_ Hnr].
  destruct o as [[] | e].
  - destruct Ho as [-> _]. rewrite app_nil_r in *. by exists st'.
  - exfalso. destruct Ho as [(applied & last & -> & _ & Hnot & _)
                            | (_ & _ & bad & rest' & -> & Hbad)].
    + apply (proj1 (Forall_app _ _ _)) in Hfw as [_ Hl].
      apply (proj1 (Forall_singleton _ _)) in Hl. by apply Hnot.
    + apply Forall_cons in Hnr as [Hn _]. congruence.
Qed.

(** From a store that satisfies the invariant, the loop keeps it wherever it
    stops, when every entry names a listed account in its currency and
    carries the identifier of a drawn group. *)
Lemma saveReversals_Inv (revs : list LedgerEntry) (st : Store) g :
  Inv st ->
  (exists k, k < uuid_next st /\ g = uuid k) ->
  Forall (fun r => resolves st (entry_account_id r) (entry_currency r)
                   /\ entryGroupId r = g) revs ->
  exists st' o, saveReversals revs st = (st', o) /\ Inv st'.
Proof.
  revert st. induction revs as [| r revs IH]; intros st HI (k & Hk & Hg) Hall; simpl.
  - by exists st, (Return tt).
  - apply Forall_cons in Hall as [[(a & Ha & Hid & Hcur) Hgr] Hall].
    destruct (num_isNaN (amount r)) eqn:Hnum.
    { erewrite bind_Throw by (by apply LedgerEntry_insert_NaN). by eexists _, _. }
    erewrite bind_Return by (by apply LedgerEntry_insert_run).
    destruct (Inv_post_entry st r a) as (st2 & Hupd & HI2 & Hs & _ & _ & _ & Hu);
      [done.. | | done |].
    { exists k. split; [done | congruence]. }
    erewrite bind_Return by exact Hupd.
    apply IH; [done | |].
    { exists k. rewrite Hu. done. }
    eapply Forall_impl; [exact Hall |].
    intros r' [? ?]. split; [by eapply resolves_static | done].
Qed.

(** Marking entries as reversed changes nothing a projection [f] sees, when
    [f] does not look at [isReversed]. *)
Lemma mark_all_fmap {B} (f : LedgerEntry -> B)
    (done : list (nat * LedgerEntry)) (l : list LedgerEntry) :
  (forall e, f (set_isReversed e true) = f e) ->
  (forall i e, (i, e) ∈ done -> l !! i = Some e) ->
  f <$> mark_all done l = f <$> l.
Proof.
  intros Hf.
  revert l. induction done as [| [i e] done IH]; intros l Hl; simpl; [done |].
  assert (f <$> <[i := set_isReversed e true]> l = f <$> l) as Hstep.
  { eapply fmap_insert_same; [apply Hl; by left | done]. }
  unfold mark_all in *. rewrite <- Hstep.
  assert (forall l1 l2 : list LedgerEntry,
            f <$> l1 = f <$> l2 ->
            f <$> fold_left
                    (fun acc (ie : nat * LedgerEntry) =>
                       <[ie.1 := set_isReversed ie.2 true]> acc) done l1
            = f <$> fold_left
                      (fun acc (ie : nat * LedgerEntry) =>
                         <[ie.1 := set_isReversed ie.2 true]> acc) done l2)
    as Hcong.
  { clear. induction done as [| [i e] done IH]; intros l1 l2 Heq; simpl; [done |].
    apply IH. by rewrite !list_fmap_insert, Heq. }
  rewrite (Hcong _ l Hstep). rewrite Hstep. apply IH.
  intros i' e' Hin. apply Hl. by right.
Qed.

Lemma mark_all_find_from (P : LedgerEntry -> bool) (pre l : list LedgerEntry) :
  mark_all (find_from P (length pre) l) (pre ++ l)
  = pre ++ ((fun e => if P e then set_isReversed e true else e) <$> l).
Proof.
  revert pre. induction l as [| x l IH]; intros pre; [done |].
  simpl. destruct (P x) eqn:HP; simpl.
  - rewrite insert_app_r_alt by lia. rewrite Nat.sub_diag. simpl.
    specialize (IH (pre ++ [set_isReversed x true])).
    rewrite <- !app_assoc, length_app in IH. simpl in IH.
    by rewrite Nat.add_1_r in IH.
  - specialize (IH (pre ++ [x])).
    rewrite <- !app_assoc, length_app in IH. simpl in IH.
    by rewrite Nat.add_1_r in IH.
Qed.

Lemma Forall2_right {A B} (P : A -> B -> Prop) (Q : B -> Prop) l k :
  Forall2 P l k -> (forall x y, P x y -> Q y) -> Forall Q k.
Proof. induction 1; intros HPQ; constructor; eauto. Qed.

Lemma find_from_filter (Q : LedgerEntry -> Prop) `{!forall e, Decision (Q e)}
    k (l : list LedgerEntry) :
  (fun ie : nat * LedgerEntry => ie.2) <$> find_from (fun e => bool_decide (Q e)) k l
  = filter Q l.
Proof.
  revert k. induction l as [| x l IH]; intros k; [done |]. simpl.
  destruct (decide (Q x)) as [HQ | HQ].
  - rewrite bool_decide_eq_true_2, filter_cons_True by done. csimpl. by rewrite IH.
  - rewrite bool_decide_eq_false_2, filter_cons_False by done. apply IH.
Qed.

Lemma existsb_Exists {A} (f : A -> bool) (l : list A) :
  existsb f l = true <-> Exists (fun x => f x = true) l.
Proof.
  induction l as [| x l IH]; simpl.
  - split; [done | by intros ?%Exists_nil].
  - rewrite orb_true_iff, Exists_cons, IH. done.
Qed.

Lemma existsb_Forall {A} (f : A -> bool) (l : list A) :
  existsb f l = false <-> Forall (fun x => f x = false) l.
Proof.
  induction l as [| x l IH]; simpl.
  - split; [by constructor | done].
  - rewrite orb_false_iff, Forall_cons, IH. done.
Qed.

Lemma reverses_finds cfg (accounts : list Account) g (e r : LedgerEntry) :
  reverses cfg accounts g e r ->
  finds accounts (entry_account_id r) (entry_currency r).
Proof.
  intros (i & a & rate & Hf & _ & _ & Hid & _ & _ & Hcur & _).
  exists i, a. rewrite Hid. by split.
Qed.



(** The reversal handler, case by case. *)
Lemma reverse_spec (st : Store) g reason :
  let originals :=
    find_from (fun e => bool_decide (entryGroupId e = g)) 0 (db_entries st) in
  exists st' o,
    reverse g reason st = (st', o)
    /\ (Inv st -> Inv st')
    /\ ((groupEntries st g = [] /\ st' = st /\ o = Throw NotFoundError)
        \/ (groupEntries st g <> []
            /\ Exists (fun e => isReversed e = true) (groupEntries st g)
            /\ st' = st /\ o = Throw AlreadyReversedError)
        \/ (groupEntries st g <> []
            /\ Forall (fun e => isReversed e = false) (groupEntries st g)
            /\ acct_static <$> db_accounts st' = acct_static <$> db_accounts st
            /\ db_events st' = db_events st
            /\ ledgerConfig st' = ledgerConfig st
            /\ ((exists e done rest,
                   o = Throw e
                   /\ originals = done ++ rest
                   /\ db_entries st' = mark_all done (db_entries st)
                   /\ db_accounts st' = db_accounts st
                   /\ ~ Forall (convertible (ledgerConfig st) (db_accounts st))
                         (groupEntries st g))
                \/ (exists revs written bad rest,
                      o = Throw ValidationFailed
                      /\ Forall2 (reverses (ledgerConfig st) (db_accounts st)
                                    (uuid (uuid_next st)))
                           (groupEntries st g) revs
                      /\ revs = written ++ bad :: rest
                      /\ Forall (fun r => num_isNaN (amount r) = false) written
                      /\ num_isNaN (amount bad) = true
                      /\ db_entries st'
                         = (mark_group g <$> db_entries st) ++ written)
                \/ (exists revs,
                      o = Return (uuid (uuid_next st), revs)
                      /\ Forall2 (reverses (ledgerConfig st) (db_accounts st)
                                    (uuid (uuid_next st)))
                           (groupEntries st g) revs
                      /\ Forall (fun r => num_isNaN (amount r) = false) revs
                      /\ db_entries st'
                         = (mark_group g <$> db_entries st) ++ revs)))).
Proof.
  intros originals.
  assert ((fun ie : nat * LedgerEntry => ie.2) <$> originals = groupEntries st g)
    as Hgroup by apply find_from_filter.
  unfold reverse. unfold bind at 1, LedgerEntry_find. fold originals.
  destruct originals as [| ie0 originals'] eqn:Horig.
  { exists st, (Throw NotFoundError). split_and!; try done. left. by rewrite <- Hgroup. }
  rewrite <- Horig in *.
  assert (groupEntries st g <> []) as Hne.
  { rewrite <- Hgroup, Horig. done. }
  replace (match originals with [] => throw NotFoundError | _ :: _ =>
             if existsb (fun ie => isReversed ie.2) originals
             then throw AlreadyReversedError
             else _ end)
    with (if existsb (fun ie => isReversed ie.2) originals
          then (throw AlreadyReversedError : M (string * list LedgerEntry))
          else
            do reversalEntryGroupId <- uuidv4;
            do reversalEntries <-
              buildReversals reversalEntryGroupId (str_or reason "Not specified")
                originals;
            exec saveReversals reversalEntries;
            ret (reversalEntryGroupId, reversalEntries))
    by by rewrite Horig.
  destruct (existsb (fun ie => isReversed ie.2) originals) eqn:Hex.
  { exists st, (Throw AlreadyReversedError). split_and!; try done. right; left.
    split_and!; try done. rewrite <- Hgroup. apply Exists_fmap.
    by apply existsb_Exists. }
  assert (Forall (fun e : LedgerEntry => isReversed e = false) (groupEntries st g))
    as Hnone.
  { rewrite <- Hgroup. apply Forall_fmap. by apply existsb_Forall. }
  erewrite bind_Return by apply uuidv4_run.
  set (g' := uuid (uuid_next st)).
  set (st1 := set_uuid_next (S (uuid_next st)) st).
  destruct (buildReversals_run g' (str_or reason "Not specified") originals st1)
    as (st2 & o & done & rest & Hrun & Hsplit & Ha & Hv & Hc & Hu & He & Ho).
  simpl in Ha, Hv, Hc, Hu, He, Ho.
  assert (forall i e, (i, e) ∈ done -> db_entries st !! i = Some e) as Hdone.
  { intros i e Hin.
    assert ((i, e) ∈ originals) as Hin'
      by (rewrite Hsplit; apply elem_of_app; by left).
    apply find_from_lookup in Hin' as (_ & Hl & _).
    by rewrite Nat.sub_0_r in Hl. }
  assert (Inv st -> Inv st2) as HI2.
  { intros HI.
    assert (Inv (set_entries (db_entries st2) (set_uuid_next (uuid_next st2) st)))
      as HI'.
    { apply Inv_same_core; [| | apply Inv_set_uuid; [lia | done]];
        simpl; rewrite He; by apply mark_all_fmap. }
    destruct HI' as [I1 I2 I3 I4 I5 I6]. simpl in *.
    split; by rewrite ?Ha. }
  destruct o as [revs | e].
  - destruct Ho as [-> Hall]. rewrite app_nil_r in Hsplit. subst done.
    erewrite bind_Return by exact Hrun.
    assert (Forall (fun r => finds (db_accounts st2) (entry_account_id r)
                               (entry_currency r)) revs) as Hfinds.
    { eapply Forall2_right; [exact Hall |]. intros ie r Hr. rewrite Ha.
      exact (reverses_finds _ _ _ _ _ Hr). }
    assert (Forall2 (reverses (ledgerConfig st) (db_accounts st) g')
              (groupEntries st g) revs) as Hall'.
    { rewrite <- Hgroup. by apply Forall2_fmap_l. }
    assert (db_entries st2 = mark_group g <$> db_entries st) as He2.
    { rewrite He. unfold originals.
      by rewrite (mark_all_find_from _ [] (db_entries st)). }
    destruct (saveReversals_any revs st2)
      as (st3 & o & written & rest & Hsave & Hrevs & He3 & Hs3 & Hv3 & Hc3 & _
          & Hnums & Ho).
    assert (Inv st -> Inv st3) as HI3.
    { intros HI.
      destruct (saveReversals_Inv revs st2 g' (HI2 HI)) as (st3' & o' & Hsave' & HI3).
      { exists (uuid_next st). split; [lia | done]. }
      { eapply Forall2_right; [exact Hall |].
        intros ie r (i & a & rate & (Hi & Hia & _)%list_find_Some & _ & Hgr & Hid
                     & _ & _ & Hcur & _).
        split; [| done].
        exists a. rewrite Ha. split_and!; [by eapply list_elem_of_lookup_2 | |];
          congruence. }
      rewrite Hsave in Hsave'. by simplify_eq. }
    destruct o as [[] | e].
    + destruct Ho as [-> _]. rewrite app_nil_r in Hrevs. subst written.
      erewrite bind_Return by exact Hsave.
      exists st3, (Return (g', revs)). split; [done |]. split; [done |].
      right; right. split_and!; try done; try congruence.
      right; right. exists revs. split_and!; [done.. |]. by rewrite He3, He2.
    + erewrite bind_Throw by exact Hsave.
      exists st3, (Throw e). split; [done |]. split; [done |].
      right; right. split_and!; try done; try congruence.
      right; left.
      destruct Ho as [(applied & last & -> & _ & Hnot & _)
                     | (-> & _ & bad & rest' & -> & Hbad)].
      { exfalso. rewrite Hrevs in Hfinds.
        apply (proj1 (Forall_app _ _ _)) in Hfinds as [Hfw _].
        apply (proj1 (Forall_app _ _ _)) in Hfw as [_ Hl].
        apply (proj1 (Forall_singleton _ _)) in Hl. by apply Hnot. }
      exists revs, written, bad, rest'. split_and!; [done.. |].
      by rewrite He3, He2.
  - destruct Ho as (ie & rest' & -> & Hnot).
    erewrite bind_Throw by exact Hrun.
    exists st2, (Throw e). split_and!; [done.. |].
    right; right. split_and!; try done; try congruence.
    left. exists e, done, (ie :: rest'). split_and!; try done.
    intros Hall. apply Hnot. rewrite <- Hgroup, Hsplit in Hall.
    apply Forall_fmap, Forall_app in Hall as [_ Hall].
    by apply Forall_cons in Hall as [? _].
Qed.


Lemma sumBy_opposite (side : Side) (l : list (Side * num)) :
  sumBy side ((fun sa : Side * num => (opposite sa.1, sa.2)) <$> l) = sumBy (opposite side) l.
Proof.
  unfold sumBy. generalize (@num_zero num _).
  induction l as [| [s a] l IH]; intros acc; [done |]. simpl.
  destruct s, side; simpl; apply IH.
Qed.

(** C3 (as amended).  When a reversal succeeds, each inverse entry carries
    the original amount, multiplied by the exchange rate only where the
    account's currency differs from the entry's.  If no account's currency
    differs from the currency of its original entries, the Debit total of the
    inverse group is the Credit total of the original group and conversely, so
    the inverse group of a balanced group balances within 0.001. *)
Theorem reversal_balances_without_conversion (st st' : Store) g reason g' revs :
  reverse g reason st = (st', Return (g', revs)) ->
  Forall2 (reverses (ledgerConfig st) (db_accounts st) g') (groupEntries st g) revs
  /\ (Forall (fun e : LedgerEntry =>
                forall i a,
                  list_find (fun x : Account => account_id x = entry_account_id e)
                    (db_accounts st) = Some (i, a) ->
                  currency a = entry_currency e)
        (groupEntries st g) ->
      sumBy Debit (legs revs) = sumBy Credit (legs (groupEntries st g))
      /\ sumBy Credit (legs revs) = sumBy Debit (legs (groupEntries st g))
      /\ (unbalanced (sumBy Debit (legs (groupEntries st g)))
            (sumBy Credit (legs (groupEntries st g))) = false ->
          unbalanced (sumBy Debit (legs revs)) (sumBy Credit (legs revs)) = false)).
Proof.
  intros Hrun.
  destruct (reverse_spec st g reason) as (st'' & o & Hrun' & _ & Hcases).
  rewrite Hrun in Hrun'. injection Hrun' as <- <-.
  destruct Hcases as [(_ & _ & [=]) | [(_ & _ & _ & [=]) | Hok]].
  destruct Hok as (_ & _ & _ & _ & _
                  & [(e & d & r & [=] & _)
                    | [(revs' & w & bad & r & [=] & _)
                      | (revs' & [= -> <-] & Hall & _)]]).
  split; [done |]. intros Hsame.
  assert (legs revs
          = (fun sa : Side * num => (opposite sa.1, sa.2)) <$> legs (groupEntries st g))
    as Hlegs.
  { clear Hrun. revert Hsame.
    induction Hall as [| e r es rs (i & a & rate & Hf & _ & Hrev) _ IH];
      intros Hsame; [done |].
    apply Forall_cons in Hsame as [He Hes].
    destruct Hrev as (_ & _ & Htype & Hamt & _).
    rewrite decide_False in Hamt by (intros Hne; apply Hne; eauto).
    unfold legs in *. rewrite !fmap_cons. simpl. rewrite Htype, Hamt.
    f_equal. by apply IH. }
  rewrite Hlegs, !sumBy_opposite. simpl. split_and!; [done.. |].
  unfold unbalanced. by rewrite num_abs_sub_sym.
Qed.



Lemma Inv_empty (cfg : Config) : Inv (empty_store cfg).
Proof.
  split; simpl; [apply NoDup_nil_2 | by intros ? ?%elem_of_nil..].
Qed.

Lemma handle_Inv (r : Request) (st : Store) : Inv st -> Inv (handle r st).
Proof.
  intros HI. destruct r as [eventType payload | g reason]; simpl.
  - by apply postEvents_Inv.
  - destruct (reverse_spec st g reason) as (st' & o & -> & HI' & _). by apply HI'.
Qed.

Lemma run_Inv (rs : list Request) (st : Store) : Inv st -> Inv (run rs st).
Proof.
  revert st. induction rs as [| r rs IH]; intros st HI; [done |].
  apply IH. by apply handle_Inv.
Qed.


(** The hypothesis under which a reversal's group identifier is new holds
    in every store reached from the empty store. *)
Lemma reachable_group_ids_drawn (cfg : Config) (rs : list Request) :
  group_ids_drawn (run rs (empty_store cfg)).
Proof. apply inv_groups_drawn, run_Inv, Inv_empty. Qed.


(** C10.  The required-field check of [PaymentCaptured] tests truthiness:
    [amount = 0], an empty [currency] or an empty [merchantId] are refused as
    missing although the field is present; [transactionFee] is refused only
    when it is absent, so with the other three fields truthy a fee of 0 is
    never reported as a missing field. *)
Theorem paymentCaptured_validation_is_falsiness (st : Store) (payload : Payload) :
  (p_amount payload = Some num_zero \/ p_currency payload = Some ""
   \/ p_merchantId payload = Some "" \/ p_transactionFee payload = None ->
   (executeActions "PaymentCaptured" payload st).2
   = Throw (MissingFields "PaymentCaptured"))
  /\ (forall amount cur merchantId,
        p_amount payload = Some amount -> num_truthy amount = true ->
        p_currency payload = Some cur -> str_truthy cur = true ->
        p_merchantId payload = Some merchantId -> str_truthy merchantId = true ->
        p_transactionFee payload = Some num_zero ->
        (executeActions "PaymentCaptured" payload st).2
        <> Throw (MissingFields "PaymentCaptured")).
Proof.
  split.
  - intros Hfalsy.
    destruct (executeActions_rule_throws st "PaymentCaptured" payload
                (MissingFields "PaymentCaptured")) as [n ->]; [| done].
    intros n. unfold postingRule, proposeEntries. rewrite decide_True by done.
    assert (paymentCaptured payload (set_uuid_next n st)
            = (set_uuid_next n st, Throw (MissingFields "PaymentCaptured")))
      as Hrule; [| unfold bind; by rewrite Hrule].
    unfold paymentCaptured.
    destruct (p_amount payload) as [a |]; [| done].
    destruct (p_currency payload) as [c |]; [| done].
    destruct (p_merchantId payload) as [m |]; [| done].
    destruct (p_transactionFee payload) as [f |]; [| done].
    assert (negb (num_truthy a) || negb (str_truthy c) || negb (str_truthy m) = true)
      as ->; [| done].
    destruct Hfalsy as [? | [? | [? | ?]]]; simplify_eq; simpl;
      rewrite ?num_zero_falsy, ?orb_true_r; done.
  - intros amount cur merchantId Ha Ta Hc Tc Hm Tm Hfee.
    destruct (executeActions "PaymentCaptured" payload st) as [st' o] eqn:Hrun.
    simpl. intros ->.
    eapply (errs_elim (fun e => e <> MissingFields "PaymentCaptured")) in Hrun;
      [done |].
    unfold executeActions.
    apply errs_bind; [apply errs_drawIds | intros [[g t] ev]].
    apply errs_bind; [| intros es; by apply errs_saveEntries].
    unfold postingRule.
    apply errs_bind; [| intros proposed; by apply errs_balanceGate].
    unfold proposeEntries. rewrite decide_True by done.
    by eapply errs_paymentCaptured_valid.
Qed.

(** ** Finding or creating an account *)

(** [findOrCreateAccount], for criteria whose name and currency are not
    empty: it returns an account with the name and the currency of the
    criteria and writes no entry; either the account was there and the
    store is as before, or no account had that name and currency and exactly
    one is appended, with the criteria's type and nature, status Active,
    balance 0 and the identifier just drawn as both [account_id] and
    [account_number].  Asking again returns the same account and changes
    nothing, also with criteria of another type or nature: only name and
    currency are compared. *)
Theorem findOrCreateAccount_idempotent (st : Store) (crit : AccountCriteria) :
  str_truthy (crit_account_name crit) = true ->
  str_truthy (crit_currency crit) = true ->
  exists st1 a,
    findOrCreateAccount crit st = (st1, Return a)
    /\ account_name a = crit_account_name crit
    /\ currency a = crit_currency crit
    /\ db_entries st1 = db_entries st
    /\ ((exists i, list_find (matches crit) (db_accounts st) = Some (i, a))
        /\ st1 = st
        \/ list_find (matches crit) (db_accounts st) = None
           /\ db_accounts st1 = db_accounts st ++ [a]
           /\ a = newAccount crit (uuid (uuid_next st)))
    /\ (forall crit',
          crit_account_name crit' = crit_account_name crit ->
          crit_currency crit' = crit_currency crit ->
          findOrCreateAccount crit' st1 = (st1, Return a)).
Proof.
  intros _ _.
  destruct (list_find (matches crit) (db_accounts st)) as [[i a] |] eqn:Hf.
  - exists st, a. pose proof Hf as (Hi & [? ?] & _)%list_find_Some.
    split_and!; [by eapply findOrCreateAccount_found | done.. | eauto |].
    intros crit' Hn Hc. eapply (findOrCreateAccount_found _ _ i).
    rewrite <- Hf. apply list_find_ext. intros. by rewrite Hn, Hc.
  - eexists _, _. split; [by apply findOrCreateAccount_created |].
    split_and!; [done.. | right; by split_and! |].
    intros crit' Hn Hc.
    eapply (findOrCreateAccount_found _ _ (length (db_accounts st))). simpl.
    apply list_find_Some. split; [| split].
    + by rewrite lookup_app_r, Nat.sub_diag.
    + done.
    + intros j y Hj Hlt. rewrite lookup_app_l in Hj by done.
      rewrite Hn, Hc.
      eapply list_find_None, Forall_forall in Hf; [exact Hf |].
      by eapply list_elem_of_lookup_2.
Qed.

(** ** Events that are refused *)

(** An event whose type is none of the three supported ones is refused with
    [UnsupportedEventType]; [POST /events] has stored the event by then,
    under the identifier it drew, and nothing else is written: no entry, no
    account.  An event with an empty type is refused by the validation of
    [event.save()] and is not stored. *)
Theorem unsupported_event_is_stored (st : Store) (eventType : string)
    (payload : Payload) :
  (eventType <> "PaymentCaptured" /\ eventType <> "PaymentRefunded"
   /\ eventType <> "PaymentPartiallyRefunded" /\ str_truthy eventType = true ->
   exists st',
     postEvents eventType payload st = (st', Throw (UnsupportedEventType eventType))
     /\ db_events st'
        = db_events st
          ++ [ {| ev_event_id := uuid (uuid_next st); ev_event_type := eventType;
                  ev_payload := payload |} ]
     /\ db_entries st' = db_entries st
     /\ db_accounts st' = db_accounts st)
  /\ (exists st',
        postEvents "" payload st = (st', Throw ValidationFailed)
        /\ db_events st' = db_events st
        /\ db_entries st' = db_entries st
        /\ db_accounts st' = db_accounts st).
Proof.
  split.
  - intros (H1 & H2 & H3 & Ht).
    unfold postEvents. erewrite bind_Return by apply uuidv4_run.
    unfold bind at 1, Event_save. cbn [ev_event_type]. rewrite Ht.
    match goal with
    | |- context [executeActions _ ?p ?s] =>
        destruct (executeActions_rule_throws s eventType p
                    (UnsupportedEventType eventType)) as [n ->]
    end.
    + intros n. unfold postingRule, proposeEntries, bind.
      by rewrite !decide_False by done.
    + by eexists.
  - eexists. split.
    + unfold postEvents. erewrite bind_Return by apply uuidv4_run. reflexivity.
    + done.
Qed.


(** ** Refunds that go through *)

Lemma replay_static (a a' : Account) (l : list LedgerEntry) :
  account_id a' = account_id a -> nature a' = nature a -> replay a' l = replay a l.
Proof.
  intros Hid Hn. unfold replay, history, contribution. by rewrite Hid, Hn.
Qed.

(** What applying a group of two entries of two different accounts does to
    the balances, in a store that satisfies the invariant. *)
Lemma two_entries_balances (st st' : Store) (es : list EntryData) created g t ev
    (a1 a2 : Account) s1 s2 (amt1 amt2 : num) cur1 cur2 :
  Inv st -> Inv st' ->
  saveEntries g t ev es st = (st', Return created) ->
  view_data <$> es
  = [ (account_id a1, s1, amt1, cur1); (account_id a2, s2, amt2, cur2) ] ->
  a1 ∈ db_accounts st -> a2 ∈ db_accounts st -> account_id a1 <> account_id a2 ->
  core <$> created
  = [ (account_id a1, s1, amt1, cur1); (account_id a2, s2, amt2, cur2) ]
  /\ db_entries st' = db_entries st ++ created
  /\ (exists a1', a1' ∈ db_accounts st' /\ account_id a1' = account_id a1
                  /\ balance a1' = balance a1 [+] balanceChange (nature a1) s1 amt1)
  /\ (exists a2', a2' ∈ db_accounts st' /\ account_id a2' = account_id a2
                  /\ balance a2' = balance a2 [+] balanceChange (nature a2) s2 amt2).
Proof.
  intros HI HI' (Hcore & _ & He & Hs & _)%saveEntries_inv Hview H1 H2 Hne.
  rewrite Hview in Hcore. split; [done |]. split; [done |].
  destruct created as [| e1 [| e2 [| ? ?]]]; simplify_eq/=.
  assert (forall a a' : Account,
            a ∈ db_accounts st -> a' ∈ db_accounts st' ->
            account_id a' = account_id a -> nature a' = nature a ->
            balance a'
            = (if decide (entry_account_id e2 = account_id a)
               then (if decide (entry_account_id e1 = account_id a)
                     then balance a [+] contribution a e1 else balance a)
                    [+] contribution a e2
               else if decide (entry_account_id e1 = account_id a)
                    then balance a [+] contribution a e1 else balance a)) as Hbal.
  { intros a a' Ha Ha' Hid Hn.
    rewrite (inv_balances _ HI' a' Ha'), He, (replay_static a a') by done.
    change [e1; e2] with ([e1] ++ [e2]). rewrite app_assoc, !replay_snoc.
    by rewrite <- (inv_balances _ HI a Ha). }
  unfold core in *. simplify_eq.
  split.
  - destruct (static_transfer _ _ a1 Hs H1) as (a1' & Hin & Hid & _ & _ & Hn).
    exists a1'. split_and!; [done.. |].
    rewrite (Hbal a1 a1') by done.
    rewrite decide_False by congruence. by rewrite decide_True by done.
  - destruct (static_transfer _ _ a2 Hs H2) as (a2' & Hin & Hid & _ & _ & Hn).
    exists a2'. split_and!; [done.. |].
    rewrite (Hbal a2 a2') by done.
    rewrite decide_True by done. by rewrite decide_False by congruence.
Qed.

Lemma NoDup_ids_inj (l : list Account) (a b : Account) :
  NoDup (account_id <$> l) -> a ∈ l -> b ∈ l -> account_id a = account_id b -> a = b.
Proof.
  intros Hnd (i & Hi)%list_elem_of_lookup (j & Hj)%list_elem_of_lookup Hid.
  assert (i = j); [| congruence].
  eapply (NoDup_lookup _ _ _ (account_id a) Hnd);
    rewrite list_lookup_fmap; [by rewrite Hi | by rewrite Hj, Hid].
Qed.

(** The accounts a rule resolved are accounts of the store it started from
    or were created by the rule, with a balance of 0. *)
Lemma rule_step_origin (st st' : Store) (a : Account) :
  rule_step st st' -> a ∈ db_accounts st' ->
  a ∈ db_accounts st \/ balance a = num_zero.
Proof.
  intros (_ & _ & _ & _ & l & -> & Hz) [? | Ha]%elem_of_app; [by left | right].
  rewrite Forall_forall in Hz. by apply Hz.
Qed.

(** A refund that went through, full or partial, in a store that satisfies
    the invariant. *)
Lemma refund_posted (st st1 st2 st' : Store) eventType payload g t ev es d c created
    (amt : num) cur (payable cash : Account) merchantId :
  Inv st ->
  drawIds payload st = (st1, Return (g, t, ev)) ->
  proposeEntries eventType payload st1 = (st2, Return (es, d, c)) ->
  saveEntries g t ev es st2 = (st', Return created) ->
  payable ∈ db_accounts st2 -> cash ∈ db_accounts st2 ->
  account_name payable = "Merchant Payable - " +:+ merchantId ->
  account_name cash = "Cash - " +:+ cur ->
  view_data <$> es
  = [ (account_id payable, Debit, amt, cur); (account_id cash, Credit, amt, cur) ] ->
  core <$> created
  = [ (account_id payable, Debit, amt, cur); (account_id cash, Credit, amt, cur) ]
  /\ db_entries st' = db_entries st ++ created
  /\ (payable ∈ db_accounts st \/ balance payable = num_zero)
  /\ (cash ∈ db_accounts st \/ balance cash = num_zero)
  /\ (exists payable',
        payable' ∈ db_accounts st' /\ account_id payable' = account_id payable
        /\ balance payable'
           = balance payable [+] balanceChange (nature payable) Debit amt)
  /\ (exists cash',
        cash' ∈ db_accounts st' /\ account_id cash' = account_id cash
        /\ balance cash' = balance cash [+] balanceChange (nature cash) Credit amt).
Proof.
  intros HI Hd Hp Hsave Hpay Hcash Hnp Hnc Hview.
  pose proof (steps_elim _ _ _ _ _ (steps_drawIds payload) Hd) as [Hs1 HI1].
  pose proof (steps_elim _ _ _ _ _ (steps_proposeEntries eventType payload) Hp)
    as [Hs2 HI2].
  assert (rule_step st st2) as Hs by by etrans.
  specialize (HI2 (HI1 HI)).
  assert (Inv st') as HI'.
  { apply proposeEntries_inv in Hp as (_ & _ & Hres).
    destruct (drawIds_run st payload) as (n & ids & Hd' & Hn).
    rewrite Hd in Hd'. injection Hd' as -> _.
    destruct Hs2 as (_ & _ & _ & Hu & _). simpl in Hu.
    apply drawIds_group in Hd as ->.
    destruct (saveEntries_Inv es st2 (uuid (uuid_next st)) t ev HI2)
      as (st3 & o & w & Hrun & HI3 & _); [| done | congruence].
    exists (uuid_next st). split; [lia | done]. }
  assert (account_id payable <> account_id cash) as Hne.
  { intros Heq.
    pose proof (NoDup_ids_inj _ _ _ (inv_ids_distinct _ HI2) Hpay Hcash Heq) as ->.
    rewrite Hnp in Hnc. discriminate. }
  destruct (two_entries_balances _ _ _ _ _ _ _ _ _ _ _ _ _ _ _ HI2 HI' Hsave Hview
              Hpay Hcash Hne) as (Hcore & He & Hb1 & Hb2).
  split_and!; try done; try by eapply rule_step_origin.
  destruct Hs as (<- & _). done.
Qed.

(** In a store reached from the empty store by event postings and
    reversals, a [PaymentRefunded] that goes through has written exactly two
    entries of the refund amount in the payload's currency, a Debit to the
    merchant's payable account and a Credit to the cash account of the
    currency.  Each of the two accounts was in the store or was created with
    a balance of 0; the payable balance was not below the amount; afterwards
    the account with the payable's id holds the earlier balance plus the
    signed change of the Debit, the one with the cash id the earlier balance
    plus the signed change of the Credit.  No sufficiency check is made on
    the cash account. *)
Theorem full_refund_debits_payable_credits_cash (cfg : Config)
    (rs : list (@Request num)) (payload : Payload) (st' : Store)
    (created : list LedgerEntry) :
  executeActions "PaymentRefunded" payload (run rs (empty_store cfg))
  = (st', Return created) ->
  exists amount cur merchantId (payable cash payable' cash' : Account),
    p_amount payload = Some amount /\ p_currency payload = Some cur
    /\ p_merchantId payload = Some merchantId
    /\ core <$> created
       = [ (account_id payable, Debit, amount, cur);
           (account_id cash, Credit, amount, cur) ]
    /\ db_entries st' = db_entries (run rs (empty_store cfg)) ++ created
    /\ account_name payable = "Merchant Payable - " +:+ merchantId
    /\ account_name cash = "Cash - " +:+ cur
    /\ (payable ∈ db_accounts (run rs (empty_store cfg)) \/ balance payable = num_zero)
    /\ (cash ∈ db_accounts (run rs (empty_store cfg)) \/ balance cash = num_zero)
    /\ (balance payable [<] amount) = false
    /\ payable' ∈ db_accounts st' /\ account_id payable' = account_id payable
    /\ balance payable'
       = balance payable [+] balanceChange (nature payable) Debit amount
    /\ cash' ∈ db_accounts st' /\ account_id cash' = account_id cash
    /\ balance cash' = balance cash [+] balanceChange (nature cash) Credit amount.
Proof.
  pose proof (run_Inv rs _ (Inv_empty cfg)) as HI.
  generalize dependent (run rs (empty_store cfg)). intros st HI Hrun.
  pose proof Hrun
    as (st1 & st2 & g & t & ev & es & d & c & Hd & Hp & _ & Hsave)%executeActions_inv.
  pose proof Hp as Hrule.
  unfold proposeEntries in Hrule. rewrite decide_False in Hrule by discriminate.
  rewrite decide_True in Hrule by done.
  apply paymentRefunded_inv in Hrule
    as (amount & cur & merchantId & payable & cash & Ha & _ & Hc & _ & Hm & _
        & (Hpay & Hnp & _) & Hlt & (Hcash & Hnc & _) & Hview & _).
  destruct (refund_posted _ _ _ _ _ _ _ _ _ _ _ _ _ _ _ _ _ _ HI Hd Hp Hsave
              Hpay Hcash Hnp Hnc Hview)
    as (Hcore & He & Ho1 & Ho2 & (payable' & ? & ? & ?) & (cash' & ? & ? & ?)).
  exists amount, cur, merchantId, payable, cash, payable', cash'.
  by split_and!.
Qed.

(** The same for a [PaymentPartiallyRefunded] that goes through: two entries
    of [refundAmount], a Debit to the merchant's payable account and a Credit
    to the cash account; [refundAmount] was not above [originalAmount] and
    the payable balance not below [refundAmount]; [originalAmount] is not
    booked anywhere. *)
Theorem partial_refund_debits_payable_credits_cash (cfg : Config)
    (rs : list (@Request num)) (payload : Payload) (st' : Store)
    (created : list LedgerEntry) :
  executeActions "PaymentPartiallyRefunded" payload (run rs (empty_store cfg))
  = (st', Return created) ->
  exists originalAmount refundAmount cur merchantId
         (payable cash payable' cash' : Account),
    p_originalAmount payload = Some originalAmount
    /\ p_refundAmount payload = Some refundAmount
    /\ p_currency payload = Some cur /\ p_merchantId payload = Some merchantId
    /\ (refundAmount [>] originalAmount) = false
    /\ core <$> created
       = [ (account_id payable, Debit, refundAmount, cur);
           (account_id cash, Credit, refundAmount, cur) ]
    /\ db_entries st' = db_entries (run rs (empty_store cfg)) ++ created
    /\ account_name payable = "Merchant Payable - " +:+ merchantId
    /\ account_name cash = "Cash - " +:+ cur
    /\ (payable ∈ db_accounts (run rs (empty_store cfg)) \/ balance payable = num_zero)
    /\ (cash ∈ db_accounts (run rs (empty_store cfg)) \/ balance cash = num_zero)
    /\ (balance payable [<] refundAmount) = false
    /\ payable' ∈ db_accounts st' /\ account_id payable' = account_id payable
    /\ balance payable'
       = balance payable [+] balanceChange (nature payable) Debit refundAmount
    /\ cash' ∈ db_accounts st' /\ account_id cash' = account_id cash
    /\ balance cash'
       = balance cash [+] balanceChange (nature cash) Credit refundAmount.
Proof.
  pose proof (run_Inv rs _ (Inv_empty cfg)) as HI.
  generalize dependent (run rs (empty_store cfg)). intros st HI Hrun.
  pose proof Hrun
    as (st1 & st2 & g & t & ev & es & d & c & Hd & Hp & _ & Hsave)%executeActions_inv.
  pose proof Hp as Hrule.
  unfold proposeEntries in Hrule. rewrite !decide_False in Hrule by discriminate.
  rewrite decide_True in Hrule by done.
  apply paymentPartiallyRefunded_inv in Hrule
    as (originalAmount & refundAmount & cur & merchantId & payable & cash
        & Ho & _ & Hr & _ & Hc & _ & Hm & _ & Hle
        & (Hpay & Hnp & _) & Hlt & (Hcash & Hnc & _) & Hview & _).
  destruct (refund_posted _ _ _ _ _ _ _ _ _ _ _ _ _ _ _ _ _ _ HI Hd Hp Hsave
              Hpay Hcash Hnp Hnc Hview)
    as (Hcore & He & Ho1 & Ho2 & (payable' & ? & ? & ?) & (cash' & ? & ? & ?)).
  exists originalAmount, refundAmount, cur, merchantId, payable, cash, payable', cash'.
  by split_and!.
Qed.

(** The checks of a partial refund run in this order: required fields,
    [refundAmount] against [originalAmount], then the merchant's funds.  A
    refund above the original amount is refused before any account is looked
    up, so the store is left as it was but for the identifiers drawn.  A
    refund of a positive amount for a merchant that has no payable account in
    that currency is refused for insufficient funds only after that account
    has been created: the refused request leaves a new account with a balance
    of 0, and no entry. *)
Theorem partial_refund_checks_in_order (st : Store) (payload : Payload)
    originalAmount refundAmount cur merchantId :
  p_originalAmount payload = Some originalAmount -> num_truthy originalAmount = true ->
  p_refundAmount payload = Some refundAmount -> num_truthy refundAmount = true ->
  p_currency payload = Some cur -> str_truthy cur = true ->
  p_merchantId payload = Some merchantId -> str_truthy merchantId = true ->
  let crit := {| crit_account_name := "Merchant Payable - " +:+ merchantId;
                 crit_currency := cur;
                 crit_account_type := Liability; crit_nature := Credit |} in
  ((refundAmount [>] originalAmount) = true ->
   exists st',
     executeActions "PaymentPartiallyRefunded" payload st
     = (st', Throw RefundExceedsOriginalError)
     /\ db_accounts st' = db_accounts st /\ db_entries st' = db_entries st)
  /\ ((refundAmount [>] originalAmount) = false ->
      list_find (matches crit) (db_accounts st) = None ->
      (num_zero [<] refundAmount) = true ->
      exists st' id,
        executeActions "PaymentPartiallyRefunded" payload st
        = (st', Throw InsufficientFundsError)
        /\ db_accounts st' = db_accounts st ++ [newAccount crit id]
        /\ db_entries st' = db_entries st).
Proof.
  intros Hoa Toa Hra Tra Hc Tc Hm Tm crit. split.
  - intros Hgt.
    destruct (executeActions_rule_throws st "PaymentPartiallyRefunded" payload
                RefundExceedsOriginalError) as [n ->]; [| by eexists].
    intros n. unfold postingRule, proposeEntries, paymentPartiallyRefunded.
    rewrite !decide_False by discriminate. rewrite decide_True by done.
    by rewrite Hoa, Hra, Hc, Hm, Toa, Tra, Tc, Tm, Hgt.
  - intros Hle Hnone Hpos.
    destruct (drawIds_run st payload) as (n & [[g t] ev] & Hd & Hn).
    rewrite (executeActions_unfold _ _ _ _ _ _ _ Hd).
    unfold proposeEntries, paymentPartiallyRefunded.
    rewrite !decide_False by discriminate. rewrite decide_True by done.
    rewrite Hoa, Hra, Hc, Hm, Toa, Tra, Tc, Tm, Hle. simpl.
    unfold bind at 1. fold crit.
    rewrite (findOrCreateAccount_created (set_uuid_next n st) crit) by done.
    cbn [balance newAccount]. rewrite Hpos.
    eexists _, _. split; [reflexivity |]. done.
Qed.

(** ** Captures without conversion *)

(** A [PaymentCaptured] whose [settlementCurrency] is absent, empty or equal
    to its [currency], once processed, has written exactly three entries in
    that currency: a Debit to its cash account for [amount], a Credit to the
    merchant's payable account for [amount - transactionFee - 0] and a Credit
    to the Transaction Fee Revenue account for [transactionFee].  The rate
    table is not consulted and no FX fee entry is written.  (The hypothesis on
    numbers is [0 > 0 = false].) *)
Theorem captured_same_currency_entries (st st' : Store) (payload : Payload)
    (source : string) (created : list LedgerEntry) :
  (num_zero [>] num_zero) = false ->
  p_currency payload = Some source ->
  p_settlementCurrency payload = None \/ p_settlementCurrency payload = Some ""
  \/ p_settlementCurrency payload = Some source ->
  executeActions "PaymentCaptured" payload st = (st', Return created) ->
  exists amount merchantId fee feeSpec (cash payable feeRevenue : Account),
    p_amount payload = Some amount
    /\ p_merchantId payload = Some merchantId
    /\ p_transactionFee payload = Some fee
    /\ cfg_accounts (ledgerConfig st) !! "revenue" ≫= (fun m => m !! "transaction_fees")
       = Some feeSpec
    /\ (cash ∈ db_accounts st' /\ account_name cash = "Cash - " +:+ source
        /\ currency cash = source)
    /\ (payable ∈ db_accounts st'
        /\ account_name payable = "Merchant Payable - " +:+ merchantId
        /\ currency payable = source)
    /\ (feeRevenue ∈ db_accounts st'
        /\ account_name feeRevenue = crit_account_name feeSpec
        /\ currency feeRevenue = source)
    /\ core <$> created
       = [ (account_id cash, Debit, amount, source);
           (account_id payable, Credit, amount [-] fee [-] num_zero, source);
           (account_id feeRevenue, Credit, fee, source) ]
    /\ db_entries st' = db_entries st ++ created.
Proof.
  intros Hzero Hsrc Hset
    (st1 & st2 & g & t & ev & es & d & c & Hd & Hp & _ & Hsave)%executeActions_inv.
  pose proof (steps_elim _ _ _ _ _ (steps_drawIds payload) Hd)
    as [(He1 & _ & Hcfg & _) _].
  unfold proposeEntries in Hp. rewrite decide_True in Hp by done.
  pose proof (steps_elim _ _ _ _ _ (steps_paymentCaptured payload) Hp)
    as [(He2 & _) _].
  apply paymentCaptured_inv in Hp
    as (amount & source' & merchantId & fee & total & feeS & fx & cash & payable
        & feeSpec & feeRevenue & fxRevenue & Ha & _ & Hsrc' & Ts & Hm & _ & Hfee
        & Hsettle & HfeeSpec & Hcash & Hpay & Hrev & Hfx & Hviews & _).
  rewrite Hsrc in Hsrc'. injection Hsrc' as <-.
  assert (str_or (p_settlementCurrency payload) source = source) as Hsame.
  { destruct Hset as [-> | [-> | ->]]; [done.. |]. simpl. by rewrite Ts. }
  rewrite Hsame in *. clear Hsame Hset.
  unfold settle in Hsettle. rewrite decide_False in Hsettle by (by intros ?).
  injection Hsettle as <- <- <-.
  rewrite Hzero in Hfx. subst fxRevenue. rewrite app_nil_r in Hviews.
  apply saveEntries_inv in Hsave as (Hcore & _ & He3 & Hstatic & _).
  assert (forall a : Account,
            a ∈ db_accounts st2 ->
            exists a', a' ∈ db_accounts st' /\ account_id a' = account_id a
                       /\ account_name a' = account_name a
                       /\ currency a' = currency a) as Hlift.
  { intros a Hin.
    destruct (static_transfer _ _ a Hstatic Hin) as (a' & ? & ? & ? & ? & _).
    eauto. }
  destruct Hcash as (Hin1 & Hn1 & Hc1). destruct Hpay as (Hin2 & Hn2 & Hc2).
  destruct Hrev as (Hin3 & Hn3 & Hc3).
  destruct (Hlift _ Hin1) as (cash' & ? & Hi1 & ? & ?).
  destruct (Hlift _ Hin2) as (payable' & ? & Hi2 & ? & ?).
  destruct (Hlift _ Hin3) as (feeRevenue' & ? & Hi3 & ? & ?).
  exists amount, merchantId, fee, feeSpec, cash', payable', feeRevenue'.
  rewrite Hcore, Hviews, Hi1, Hi2, Hi3, He3, He2, He1, <- Hcfg.
  split_and!; try done; congruence.
Qed.

(** ** What ties the entries of an event together *)

Lemma saveEntries_metadata (es : list EntryData) (st st' : Store) created g t ev :
  saveEntries g t ev es st = (st', Return created) ->
  Forall (fun e : LedgerEntry => metadata e !! "event_id" = Some (MStr ev)) created.
Proof.
  revert st created.
  induction es as [| ed es IH]; intros st created Hrun; simpl in Hrun.
  - unfold ret in Hrun. by simplify_eq.
  - apply bind_inv_Return in Hrun as (st1 & entryId & _ & Hrun).
    apply bind_inv_Return in Hrun as (st2 & [] & _ & Hrun).
    apply bind_inv_Return in Hrun as (st3 & [] & _ & Hrun).
    apply bind_inv_Return in Hrun as (st4 & rest & Hrest & Hrun).
    unfold ret in Hrun. simplify_eq.
    apply Forall_cons. split; [apply lookup_insert_eq | by eapply IH].
Qed.

Lemma str_truthy_uuid n : str_truthy (uuid n) = true.
Proof. done. Qed.

(** Every rule proposes at least two entries. *)
Lemma proposeEntries_length (st st' : Store) eventType payload es d c :
  proposeEntries eventType payload st = (st', Return (es, d, c)) -> 2 <= length es.
Proof.
  unfold proposeEntries. intros Hrun.
  assert (2 <= length (view_data <$> es)) as Hlen; [| by rewrite length_fmap in Hlen].
  repeat case_decide; [| | | done].
  - apply paymentCaptured_inv in Hrun
      as (? & ? & ? & ? & ? & ? & ? & ? & ? & ? & ? & ? & _ & _ & _ & _ & _ & _ & _
          & _ & _ & _ & _ & _ & _ & -> & _).
    simpl. lia.
  - apply paymentRefunded_inv in Hrun
      as (? & ? & ? & ? & ? & _ & _ & _ & _ & _ & _ & _ & _ & _ & -> & _).
    simpl. lia.
  - apply paymentPartiallyRefunded_inv in Hrun
      as (? & ? & ? & ? & ? & ? & _ & _ & _ & _ & _ & _ & _ & _ & _ & _ & _ & _
          & -> & _).
    simpl. lia.
Qed.

(** An event accepted by [POST /events] is stored under the identifier the
    handler drew, whatever [event_id] its payload carries, and its entries,
    at least two, are appended to the ledger in one group: they share the
    next identifier drawn as [entryGroupId], carry the stored event's
    identifier as [event_id] and in their metadata, and the payload's
    [transaction_id] if it has a non-empty one, a newly drawn one otherwise;
    none is a reversal or reversed. *)
Theorem posted_entries_carry_event_id (st st' : Store) (eventType : string)
    (payload : Payload) (created : list LedgerEntry) :
  postEvents eventType payload st = (st', Return created) ->
  let eventId := uuid (uuid_next st) in
  let transactionId :=
    str_or (p_transaction_id payload) (uuid (S (S (uuid_next st)))) in
  db_events st'
  = db_events st
    ++ [ {| ev_event_id := eventId; ev_event_type := eventType;
            ev_payload := payload |} ]
  /\ db_entries st' = db_entries st ++ created
  /\ 2 <= length created
  /\ Forall (fun e : LedgerEntry =>
               entryGroupId e = uuid (S (uuid_next st))
               /\ event_id e = Some eventId
               /\ metadata e !! "event_id" = Some (MStr eventId)
               /\ transaction_id e = Some transactionId
               /\ isReversal e = false /\ isReversed e = false
               /\ originalEntryId e = None) created.
Proof.
  intros Hrun. unfold postEvents in Hrun.
  erewrite bind_Return in Hrun by apply uuidv4_run.
  unfold bind at 1, Event_save in Hrun. cbn [ev_event_type ev_event_id] in Hrun.
  destruct (str_truthy eventType); [| done].
  apply executeActions_inv in Hrun
    as (st1 & st2 & g & t & ev & es & d & c & Hd & Hp & _ & Hsave).
  pose proof (steps_elim _ _ _ _ _ (steps_proposeEntries _ _) Hp)
    as [(He2 & Hv2 & _) _].
  pose proof (proposeEntries_length _ _ _ _ _ _ _ Hp) as Hlen.
  pose proof (saveEntries_metadata _ _ _ _ _ _ _ Hsave) as Hmeta.
  apply saveEntries_inv in Hsave as (Hcore & Hall & He3 & _ & Hv3 & _).
  assert (g = uuid (S (uuid_next st))
          /\ t = str_or (p_transaction_id payload) (uuid (S (S (uuid_next st))))
          /\ ev = uuid (uuid_next st)
          /\ db_entries st1 = db_entries st
          /\ db_events st1
             = db_events st
               ++ [ {| ev_event_id := uuid (uuid_next st); ev_event_type := eventType;
                       ev_payload := payload |} ]) as (-> & -> & -> & He1 & Hv1).
  { clear -Hd. unfold drawIds, or_uuidv4 in Hd. munfold. simpl in Hd.
    destruct (p_transaction_id payload) as [x |]; [destruct (str_truthy x) eqn:Tx |];
      simpl in Hd; simplify_eq; simpl; rewrite ?Tx; done. }
  split_and!.
  - by rewrite Hv3, Hv2.
  - by rewrite He3, He2, He1.
  - apply (f_equal length) in Hcore. rewrite !length_fmap in Hcore. lia.
  - rewrite Forall_forall in Hall, Hmeta. apply Forall_forall. intros e He.
    destruct (Hall e He) as (? & ? & ? & ? & ? & ? & ?). specialize (Hmeta e He).
    by split_and!.
Qed.

(** ** Reversals that fail half-way, and reversals of reversals *)

(** The reversal handler on a group that exists and is not reversed: the
    two loops, run after the group identifier was drawn. *)
Lemma reverse_unfold (st : Store) g reason :
  groupEntries st g <> [] ->
  Forall (fun e : LedgerEntry => isReversed e = false) (groupEntries st g) ->
  reverse g reason st
  = (do reversalEntries <-
       buildReversals (uuid (uuid_next st)) (str_or reason "Not specified")
         (find_from (fun e => bool_decide (entryGroupId e = g)) 0 (db_entries st));
     exec saveReversals reversalEntries;
     ret (uuid (uuid_next st), reversalEntries))
      (set_uuid_next (S (uuid_next st)) st).
Proof.
  intros Hne Hnone.
  set (originals := find_from _ 0 (db_entries st)).
  assert ((fun ie : nat * LedgerEntry => ie.2) <$> originals = groupEntries st g)
    as Hgroup by apply find_from_filter.
  unfold reverse. unfold bind at 1, LedgerEntry_find. fold originals.
  assert (existsb (fun ie : nat * LedgerEntry => isReversed ie.2) originals = false)
    as Hex.
  { apply existsb_Forall. rewrite <- Hgroup in Hnone.
    by apply Forall_fmap in Hnone. }
  destruct originals as [| ie0 originals'] eqn:Horig.
  { by rewrite <- Hgroup in Hne. }
  rewrite Hex. by erewrite bind_Return by apply uuidv4_run.
Qed.

Lemma find_from_head_least (P : LedgerEntry -> bool) k (l : list LedgerEntry)
    i0 e0 tl :
  find_from P k l = (i0, e0) :: tl ->
  k <= i0 /\ forall i e, (i, e) ∈ tl -> i0 < i.
Proof.
  revert k. induction l as [| x l IH]; intros k Hfind; simpl in Hfind; [done |].
  destruct (P x).
  - injection Hfind as <- <- <-. split; [done |].
    intros i e Hin%find_from_lookup. lia.
  - apply IH in Hfind as [? ?]. split; [lia | done].
Qed.

Lemma mark_all_lookup_other (done : list (nat * LedgerEntry))
    (l : list LedgerEntry) i0 :
  (forall i e, (i, e) ∈ done -> i <> i0) -> mark_all done l !! i0 = l !! i0.
Proof.
  revert l. induction done as [| [i e] done IH]; intros l Hne; [done |].
  unfold mark_all in *. simpl. rewrite IH.
  - apply list_lookup_insert_ne. apply (Hne i e). by left.
  - intros i' e' Hin. apply (Hne i' e'). by right.
Qed.

Lemma mark_all_length (done : list (nat * LedgerEntry)) (l : list LedgerEntry) :
  length (mark_all done l) = length l.
Proof.
  revert l. induction done as [| [i e] done IH]; intros l; [done |].
  unfold mark_all in *. simpl. by rewrite IH, length_insert.
Qed.

(** A reversal whose first loop fails at a later entry of the group (its
    account is missing, or [getExchangeRate] throws for its account's
    currency) has already marked the entries before it as reversed.  No
    inverse entry is written and no account changes, the ledger holds the same
    entries but for the marks, and from then on every reversal of the group is
    refused with [AlreadyReversedError]: the group can no longer be
    reversed. *)
Theorem failed_reversal_blocks_the_group (st : Store) (g : string)
    (reason : option string) (e0 : LedgerEntry) (rest : list LedgerEntry) :
  groupEntries st g = e0 :: rest ->
  Forall (fun e => isReversed e = false) (e0 :: rest) ->
  convertible (ledgerConfig st) (db_accounts st) e0 ->
  ~ Forall (convertible (ledgerConfig st) (db_accounts st)) rest ->
  exists st' err,
    reverse g reason st = (st', Throw err)
    /\ db_accounts st' = db_accounts st
    /\ core <$> db_entries st' = core <$> db_entries st
    /\ set_isReversed e0 true ∈ groupEntries st' g
    /\ forall reason', reverse g reason' st' = (st', Throw AlreadyReversedError).
Proof.
  intros Hgroup Hnone Hrev0 Hnot.
  rewrite reverse_unfold by (rewrite Hgroup; done).
  set (originals := find_from _ 0 (db_entries st)).
  assert ((fun ie : nat * LedgerEntry => ie.2) <$> originals = e0 :: rest)
    as Horig by (rewrite <- Hgroup; apply find_from_filter).
  destruct (buildReversals_run (uuid (uuid_next st)) (str_or reason "Not specified")
              originals (set_uuid_next (S (uuid_next st)) st))
    as (st2 & o & done & rest' & Hrun & Hsplit & Ha & _ & _ & _ & He & Ho).
  simpl in Ha, He, Ho.
  assert (forall i e, (i, e) ∈ originals -> db_entries st !! i = Some e) as Hlook.
  { intros i e (_ & Hl & _)%find_from_lookup. by rewrite Nat.sub_0_r in Hl. }
  destruct o as [revs | err].
  { exfalso. destruct Ho as [-> Hall]. rewrite app_nil_r in Hsplit. subst done.
    apply Hnot.
    assert (Forall (convertible (ledgerConfig st) (db_accounts st)) (e0 :: rest))
      as Hall'; [| by apply Forall_cons in Hall' as [_ ?]].
    rewrite <- Horig. apply Forall_fmap.
    clear -Hall. induction Hall as [| ie r ? ? (i & a & rate & ? & ? & _)];
      constructor; [by exists i, a, rate | done]. }
  destruct Ho as (ie & rest'' & -> & Hbad).
  destruct done as [| [i0 e0'] done'].
  { exfalso. apply Hbad. simpl in Hsplit. rewrite Hsplit in Horig.
    by injection Horig as -> _. }
  assert (e0' = e0) as ->.
  { rewrite Hsplit in Horig. by injection Horig as -> _. }
  assert (db_entries st2 !! i0 = Some (set_isReversed e0 true)) as Hmarked.
  { rewrite He. unfold mark_all. simpl.
    change (fold_left _ done' ?l) with (mark_all done' l).
    rewrite mark_all_lookup_other.
    - apply list_lookup_insert_eq. apply lookup_lt_Some with e0.
      apply Hlook. rewrite Hsplit. by left.
    - intros i e Hin.
      destruct (find_from_head_least _ _ _ _ _ _ Hsplit) as [_ Hlt].
      assert (i0 < i); [| lia]. apply (Hlt i e). apply elem_of_app. by left. }
  assert (entryGroupId e0 = g) as Hg.
  { assert (e0 ∈ groupEntries st g) as Hin by (rewrite Hgroup; by left).
    by apply list_elem_of_filter in Hin as [? _]. }
  assert (set_isReversed e0 true ∈ groupEntries st2 g) as Hin.
  { apply list_elem_of_filter. split; [done |]. by eapply list_elem_of_lookup_2. }
  exists st2, err. split; [by erewrite bind_Throw by exact Hrun |].
  split_and!; [done | | done |].
  - rewrite He. apply mark_all_fmap; [done |].
    intros i e Hie. apply Hlook. rewrite Hsplit. apply elem_of_app. by left.
  - intros reason'.
    destruct (reverse_spec st2 g reason') as (st3 & o' & -> & _ & Hcases).
    destruct Hcases as [(Hnil & _) | [(_ & _ & -> & ->) | (_ & Hnone' & _)]];
      [| done |].
    + rewrite Hnil in Hin. by apply elem_of_nil in Hin.
    + rewrite Forall_forall in Hnone'. by specialize (Hnone' _ Hin).
Qed.




Lemma filter_Forall_id {A} (P : A -> Prop) `{!forall x, Decision (P x)} (l : list A) :
  Forall P l -> filter P l = l.
Proof.
  induction 1 as [| x l Hx _ IH]; [done |].
  by rewrite filter_cons_True, IH.
Qed.

Lemma filter_Forall_nil {A} (P : A -> Prop) `{!forall x, Decision (P x)} (l : list A) :
  Forall (fun x => ~ P x) l -> filter P l = [].
Proof.
  induction 1 as [| x l Hx _ IH]; [done |].
  by rewrite filter_cons_False.
Qed.


(** ** Manual postings *)

Context `{!NumberFormat num}.

Lemma saveManualEntries_eq (l : list LedgerEntry) :
  saveManualEntries l = saveReversals l.
Proof. induction l as [| e l IH]; [done |]. simpl. by rewrite IH. Qed.


(** The running total of one type, continued from [acc]. *)
Lemma sumBy_from (side : Side) (l l' : list (Side * num)) :
  fold_left (fun acc '(s, a) => if decide (s = side) then acc [+] a else acc) l'
    (sumBy side l)
  = sumBy side (l ++ l').
Proof. unfold sumBy. by rewrite fold_left_app. Qed.

(** The first loop of a manual posting: it only draws identifiers, one per
    entry it accepts, and stops at the first entry that fails its checks. *)
Lemma processEntries_run (body : EntriesBody) g (entries : list EntryBody)
    (acc : list LedgerEntry) (st : Store) :
  exists st' o,
    processEntries g (body_transactionId body) (body_eventId body) entries acc
      (sumBy Debit (legs acc)) (sumBy Credit (legs acc)) st
    = (st', Return o)
    /\ db_accounts st' = db_accounts st /\ db_entries st' = db_entries st
    /\ db_events st' = db_events st /\ ledgerConfig st' = ledgerConfig st
    /\ uuid_next st <= uuid_next st'
    /\ match o with
       | inl _ => Exists (fun entry => entry_ok entry = false) entries
       | inr (ledgerEntries, totalDebits, totalCredits) =>
           Forall (fun entry => entry_ok entry = true) entries
           /\ exists new,
                ledgerEntries = acc ++ new
                /\ Forall2 (records body g) entries new
                /\ entry_id <$> new = uuid <$> seq (uuid_next st) (length entries)
                /\ uuid_next st' = uuid_next st + length entries
                /\ totalDebits = sumBy Debit (legs ledgerEntries)
                /\ totalCredits = sumBy Credit (legs ledgerEntries)
       end.
Proof.
  revert acc st. induction entries as [| entry entries IH]; intros acc st.
  - exists st, (inr (acc, sumBy Debit (legs acc), sumBy Credit (legs acc))).
    split_and!; try done. exists [].
    rewrite app_nil_r. split_and!; try done; try apply Forall2_nil_2; simpl; lia.
  - simpl.
    assert (forall msg : string,
              entry_ok entry = false ->
              exists st' o,
                (ret (inl msg) : M (string + list LedgerEntry * num * num)) st
                = (st', Return o)
                /\ db_accounts st' = db_accounts st /\ db_entries st' = db_entries st
                /\ db_events st' = db_events st /\ ledgerConfig st' = ledgerConfig st
                /\ uuid_next st <= uuid_next st'
                /\ match o with
                   | inl _ => Exists (fun entry => entry_ok entry = false)
                                (entry :: entries)
                   | inr _ => False
                   end) as Hbad.
    { intros msg Hno. exists st, (inl msg). split_and!; try done.
      by apply Exists_cons_hd. }
    destruct (eb_accountId entry) as [accountId |] eqn:Ha; cycle 1.
    { destruct (Hbad "Invalid entry data") as (st' & o & Hr & ? & ? & ? & ? & ? & Ho).
      { unfold entry_ok. by rewrite Ha. }
      exists st', o. split; [done |]. split_and!; try done. by destruct o. }
    destruct (eb_entryType entry) as [entryType |] eqn:Ht; cycle 1.
    { destruct (Hbad "Invalid entry data") as (st' & o & Hr & ? & ? & ? & ? & ? & Ho).
      { unfold entry_ok. rewrite Ht. rewrite bool_decide_eq_false_2; [| by intros [? | ?]].
        apply andb_false_r. }
      exists st', o. split; [done |]. split_and!; try done. by destruct o. }
    destruct (eb_amount entry) as [amt |] eqn:Hm; cycle 1.
    { destruct (Hbad "Invalid entry data") as (st' & o & Hr & ? & ? & ? & ? & ? & Ho).
      { unfold entry_ok. rewrite Hm. simpl. by rewrite andb_false_r. }
      exists st', o. split; [done |]. split_and!; try done. by destruct o. }
    destruct (eb_currency entry) as [cur |] eqn:Hc; cycle 1.
    { destruct (Hbad "Invalid entry data") as (st' & o & Hr & ? & ? & ? & ? & ? & Ho).
      { unfold entry_ok. rewrite Hc. simpl. by rewrite andb_false_r. }
      exists st', o. split; [done |]. split_and!; try done. by destruct o. }
    destruct (negb (str_truthy accountId) || negb (str_truthy entryType)
              || negb (num_truthy amt) || negb (str_truthy cur)) eqn:Hvalid.
    { destruct (Hbad "Invalid entry data") as (st' & o & Hr & ? & ? & ? & ? & ? & Ho).
      { unfold entry_ok. rewrite Ha, Ht, Hm, Hc. simpl.
        destruct (str_truthy accountId), (num_truthy amt), (str_truthy cur); simpl in *;
          try done.
        destruct entryType; [| done].
        rewrite bool_decide_eq_false_2; [done | by intros [? | ?]]. }
      exists st', o. split; [done |]. split_and!; try done. by destruct o. }
    apply orb_false_elim in Hvalid as [[[Ta Tt]%orb_false_elim Tm]%orb_false_elim Tc].
    apply negb_false_iff in Ta, Tt, Tm, Tc.
    erewrite bind_Return by apply uuidv4_run.
    set (st1 := set_uuid_next (S (uuid_next st)) st).
    assert (forall side,
              entryType = Side_name side ->
              exists st' o,
                processEntries g (body_transactionId body) (body_eventId body) entries
                  (acc ++ [newManualEntry (uuid (uuid_next st)) g
                             (body_transactionId body) (body_eventId body)
                             accountId side amt cur entry])
                  (if decide (side = Debit) then sumBy Debit (legs acc) [+] amt
                   else sumBy Debit (legs acc))
                  (if decide (side = Credit) then sumBy Credit (legs acc) [+] amt
                   else sumBy Credit (legs acc)) st1
                = (st', Return o)
                /\ db_accounts st' = db_accounts st /\ db_entries st' = db_entries st
                /\ db_events st' = db_events st /\ ledgerConfig st' = ledgerConfig st
                /\ uuid_next st <= uuid_next st'
                /\ match o with
                   | inl _ => Exists (fun entry => entry_ok entry = false)
                                (entry :: entries)
                   | inr (ledgerEntries, totalDebits, totalCredits) =>
                       Forall (fun entry => entry_ok entry = true) (entry :: entries)
                       /\ exists new,
                            ledgerEntries = acc ++ new
                            /\ Forall2 (records body g) (entry :: entries) new
                            /\ entry_id <$> new
                               = uuid <$> seq (uuid_next st) (length (entry :: entries))
                            /\ uuid_next st' = uuid_next st + length (entry :: entries)
                            /\ totalDebits = sumBy Debit (legs ledgerEntries)
                            /\ totalCredits = sumBy Credit (legs ledgerEntries)
                   end) as Hgood.
    { intros side ->.
      set (e := newManualEntry _ _ _ _ _ side _ _ _).
      assert ((if decide (side = Debit) then sumBy Debit (legs acc) [+] amt
               else sumBy Debit (legs acc)) = sumBy Debit (legs (acc ++ [e]))) as ->.
      { unfold legs. rewrite fmap_app, <- sumBy_from. simpl.
        by destruct side. }
      assert ((if decide (side = Credit) then sumBy Credit (legs acc) [+] amt
               else sumBy Credit (legs acc)) = sumBy Credit (legs (acc ++ [e]))) as ->.
      { unfold legs. rewrite fmap_app, <- sumBy_from. simpl.
        by destruct side. }
      destruct (IH (acc ++ [e]) st1)
        as (st' & o & Hrun & ? & ? & ? & ? & Hu & Ho).
      exists st', o. split; [done |]. simpl in Hu. split_and!; try done; [lia |].
      destruct o as [msg | [[les d] c]]; [by apply Exists_cons_tl |].
      destruct Ho as (Hall & new & -> & Hrec & Hids & Hn & -> & ->).
      split.
      { apply Forall_cons. split; [| done].
        unfold entry_ok. rewrite Ha, Ht, Hm, Hc. simpl. rewrite Ta, Tm, Tc. simpl.
        apply bool_decide_eq_true_2. destruct side; [by left | by right]. }
      exists (e :: new). rewrite <- app_assoc. split_and!; try done.
      - apply Forall2_cons. split; [| done]. unfold records. by split_and!.
      - rewrite fmap_cons, Hids. reflexivity.
      - simpl in *. lia. }
    destruct (decide (entryType = "Debit")) as [-> | HnD].
    { apply (Hgood Debit). done. }
    destruct (decide (entryType = "Credit")) as [-> | HnC].
    { apply (Hgood Credit). done. }
    destruct (Hbad "Invalid entry type") as (st' & o & Hr & ? & ? & ? & ? & ? & Ho).
    { unfold entry_ok. rewrite Ht. rewrite bool_decide_eq_false_2; [apply andb_false_r |].
      intros [[=] | [=]]; congruence. }
    exists st1, (inl "Invalid entry type"). split; [done |].
    split_and!; try done; [simpl; lia |].
    apply Exists_cons_hd. unfold entry_ok. rewrite Ht.
    rewrite bool_decide_eq_false_2; [apply andb_false_r |].
    intros [[=] | [=]]; congruence.
Qed.

(** [POST /accounting-entries] on a body with at least two entries: the
    first loop, then the comparison of the totals, then the second loop. *)
Lemma postAccountingEntries_unfold (body : EntriesBody) (entries : list EntryBody)
    (st : Store) :
  body_entries body = Some entries -> 2 <= length entries ->
  let g := uuid (uuid_next st) in
  exists st1 o,
    db_accounts st1 = db_accounts st /\ db_entries st1 = db_entries st
    /\ db_events st1 = db_events st /\ ledgerConfig st1 = ledgerConfig st
    /\ uuid_next st < uuid_next st1
    /\ match o with
       | inl _ => Exists (fun entry => entry_ok entry = false) entries
       | inr (ledgerEntries, totalDebits, totalCredits) =>
           Forall (fun entry => entry_ok entry = true) entries
           /\ Forall2 (records body g) entries ledgerEntries
           /\ entry_id <$> ledgerEntries
              = uuid <$> seq (S (uuid_next st)) (length entries)
           /\ uuid_next st1 = S (uuid_next st) + length entries
           /\ totalDebits = sumBy Debit (legs ledgerEntries)
           /\ totalCredits = sumBy Credit (legs ledgerEntries)
       end
    /\ postAccountingEntries body st
       = match o with
         | inl message => (st1, ErrorJson 400 message)
         | inr (ledgerEntries, totalDebits, totalCredits) =>
             if decide (num_toFixed2 totalDebits <> num_toFixed2 totalCredits)
             then (st1, ErrorJson 400 "Total debits must equal total credits")
             else
               match saveReversals ledgerEntries st1 with
               | (st', Return _) => (st', Json 201 (g, ledgerEntries))
               | (st', Throw e) => (st', Caught e)
               end
         end.
Proof.
  intros Hbody Hlen g.
  destruct (processEntries_run body g entries [] (set_uuid_next (S (uuid_next st)) st))
    as (st1 & o & Hrun & Ha & He & Hv & Hc & Hu & Ho).
  change (sumBy Debit (legs [])) with (@num_zero num _) in Hrun.
  change (sumBy Credit (legs [])) with (@num_zero num _) in Hrun.
  simpl in Ha, He, Hv, Hc, Hu.
  exists st1, o. do 4 (split; [done |]). split; [lia |]. split.
  - destruct o as [msg | [[les d] c]]; [done |].
    destruct Ho as (Hall & new & -> & Hrec & Hids & Hn & -> & ->).
    simpl in *. by split_and!.
  - unfold postAccountingEntries. rewrite Hbody.
    rewrite decide_False by lia. unfold try_catch.
    erewrite bind_Return by apply uuidv4_run.
    erewrite bind_Return by exact Hrun.
    destruct o as [msg | [[les d] c]]; [done |].
    case_decide; [done |].
    unfold bind. rewrite saveManualEntries_eq.
    by destruct (saveReversals les st1) as [st' [[] | e]].
Qed.

(** [POST /accounting-entries] checks a request before it writes anything.
    A body without an array of at least two entries is refused with status
    400 and leaves the store as it was.  So is a request one of whose entries
    lacks a truthy [accountId], [amount] or [currency] or has a type other
    than 'Debit' and 'Credit', and a request whose two totals render
    differently under [toFixed(2)]: whenever the response has status 400, no
    entry has been written and no account has changed. *)
Theorem refused_posting_writes_nothing (body : EntriesBody) (st : Store) :
  exists st' r,
    postAccountingEntries body st = (st', r)
    /\ (reply_status r = 400 ->
        db_entries st' = db_entries st /\ db_accounts st' = db_accounts st
        /\ db_events st' = db_events st)
    /\ (body_entries body = None ->
        st' = st /\ r = ErrorJson 400 "At least two entries are required")
    /\ (forall entries,
          body_entries body = Some entries ->
          (length entries < 2 ->
           st' = st /\ r = ErrorJson 400 "At least two entries are required")
          /\ (Exists (fun entry => entry_ok entry = false) entries ->
              reply_status r = 400)
          /\ (2 <= length entries ->
              Forall (fun entry => entry_ok entry = true) entries ->
              reply_status r = 400 ->
              exists es,
                Forall2 (records body (uuid (uuid_next st))) entries es
                /\ num_toFixed2 (sumBy Debit (legs es))
                   <> num_toFixed2 (sumBy Credit (legs es)))).
Proof.
  destruct (body_entries body) as [entries |] eqn:Hbody; cycle 1.
  { exists st, (ErrorJson 400 "At least two entries are required").
    unfold postAccountingEntries. rewrite Hbody. by split_and!. }
  destruct (decide (length entries < 2)) as [Hshort | Hlong].
  { exists st, (ErrorJson 400 "At least two entries are required").
    unfold postAccountingEntries. rewrite Hbody, decide_True by done.
    split_and!; try done. intros ? [= <-]. split_and!; try done.
    intros ?. lia. }
  destruct (postAccountingEntries_unfold body entries st Hbody)
    as (st1 & o & Ha & He & Hv & _ & _ & Ho & ->); [lia |].
  destruct o as [msg | [[les d] c]].
  { eexists _, _. split; [reflexivity |]. split_and!; try done.
    intros ? [= <-]. split_and!; [lia | done |].
    intros _ Hall _. exfalso. apply Exists_exists in Ho as (x & Hin & Hx).
    rewrite Forall_forall in Hall. specialize (Hall x Hin). congruence. }
  destruct Ho as (Hall & Hrec & _ & _ & -> & ->).
  assert (Exists (fun entry => entry_ok entry = false) entries -> False) as Hgood.
  { intros (x & Hin & Hx)%Exists_exists.
    rewrite Forall_forall in Hall. specialize (Hall x Hin). congruence. }
  case_decide as Hfix.
  { eexists _, _. split; [reflexivity |]. split_and!; try done.
    intros ? [= <-]. split_and!; [lia | done |]. intros _ _ _. by exists les. }
  destruct (saveReversals les st1) as [st' [[] | e]];
    (eexists _, _; split; [reflexivity |]); (split_and!; try done);
    intros ? [= <-]; (split_and!; [lia | done | done]).
Qed.

Lemma finds_resolves (st : Store) id cur :
  finds (db_accounts st) id cur -> resolves st id cur.
Proof.
  intros (i & a & (Hi & Hid & _)%list_find_Some & Hc).
  exists a. split_and!; [by eapply list_elem_of_lookup_2 | done..].
Qed.


(** A manual posting that is answered with status 201 has appended its
    entries to the ledger, in the order of the request, under one newly drawn
    group identifier and with newly drawn entry identifiers.  Every entry
    named an existing account in that account's currency, the two totals
    render alike under [toFixed(2)], no field of an account but its balance
    has changed, and the invariant of the ledger, each balance being the
    replay of the account's entries, is kept. *)
Theorem accepted_posting_is_applied (body : EntriesBody) (st st' : Store)
    (g : string) (es : list LedgerEntry) :
  postAccountingEntries body st = (st', Json 201 (g, es)) ->
  exists entries,
    body_entries body = Some entries /\ 2 <= length entries
    /\ g = uuid (uuid_next st)
    /\ Forall2 (records body g) entries es
    /\ entry_id <$> es = uuid <$> seq (S (uuid_next st)) (length entries)
    /\ num_toFixed2 (sumBy Debit (legs es)) = num_toFixed2 (sumBy Credit (legs es))
    /\ Forall (fun e => finds (db_accounts st) (entry_account_id e) (entry_currency e))
         es
    /\ db_entries st' = db_entries st ++ es
    /\ acct_static <$> db_accounts st' = acct_static <$> db_accounts st
    /\ (Inv st -> Inv st').
Proof.
  intros Hrun.
  destruct (body_entries body) as [entries |] eqn:Hbody; cycle 1.
  { unfold postAccountingEntries in Hrun. by rewrite Hbody in Hrun. }
  destruct (decide (length entries < 2)) as [Hshort | Hlong].
  { unfold postAccountingEntries in Hrun.
    by rewrite Hbody, decide_True in Hrun by done. }
  destruct (postAccountingEntries_unfold body entries st Hbody)
    as (st1 & o & Ha & He & Hv & Hc & Hu & Ho & Hpost); [lia |].
  rewrite Hpost in Hrun. clear Hpost.
  destruct o as [msg | [[les d] c]]; [done |].
  destruct Ho as (Hall & Hrec & Hids & Hn & -> & ->).
  case_decide as Hfix; [done |].
  destruct (saveReversals_any les st1)
    as (st2 & o & written & rest & Hsave & Hsplit & He2 & Hs2 & _ & _ & _ & _ & Ho).
  rewrite Hsave in Hrun. destruct o as [[] | e]; [| done].
  destruct Ho as [-> Hfinds]. rewrite app_nil_r in Hsplit. subst written.
  simplify_eq.
  exists entries. split_and!; try done; try lia.
  - by rewrite <- Ha.
  - by rewrite He2, He.
  - by rewrite Hs2, Ha.
  - intros HI.
    assert (Inv st1) as HI1.
    { destruct HI as [I1 I2 I3 I4 I5 I6]. split; rewrite ?Ha, ?He; try done.
      - intros a Hin. destruct (I2 a Hin) as (k & ? & ?). exists k. split; [lia | done].
      - intros e Hin. rewrite He in Hin. destruct (I5 e Hin) as (k & ? & ?).
        exists k. split; [lia | done]. }
    destruct (saveReversals_Inv es st1 (uuid (uuid_next st)) HI1)
      as (st3 & o' & Hsave' & HI3); [| | congruence].
    + exists (uuid_next st). split; [lia | done].
    + apply Forall_forall. intros e Hin. split.
      * apply finds_resolves. rewrite Forall_forall in Hfinds. by apply Hfinds.
      * eapply (Forall2_right _ (fun e : LedgerEntry =>
                                   entryGroupId e = uuid (uuid_next st))) in Hrec.
        -- rewrite Forall_forall in Hrec. by apply Hrec.
        -- by intros b e' (_ & _ & _ & _ & _ & ? & _).
Qed.


(** ** Identifiers *)

Lemma issued_mono (n m : nat) (ids : list string) :
  n <= m -> issued n ids -> issued m ids.
Proof.
  intros Hle [Hnd Hall]. split; [done |].
  eapply Forall_impl; [exact Hall |]. intros id (k & ? & ?). exists k. split; [lia | done].
Qed.

Lemma issued_sublist (n : nat) (ids ids' : list string) :
  ids' `sublist_of` ids -> issued n ids -> issued n ids'.
Proof.
  intros Hsub [Hnd Hall]. split; [by eapply sublist_NoDup |].
  clear Hnd. induction Hsub as [| x l1 l2 _ IH | x l1 l2 _ IH]; [done | |].
  - apply Forall_cons in Hall as [? ?]. apply Forall_cons. auto.
  - apply Forall_cons in Hall as [? ?]. auto.
Qed.

(** Identifiers drawn from the counter at or after [n] are new to a list
    issued before [n]. *)
Lemma issued_app_seq (n a len m : nat) (ids : list string) :
  issued n ids -> n <= a -> a + len <= m ->
  issued m (ids ++ (uuid <$> seq a len)).
Proof.
  intros [Hnd Hall] Hna Hm. split.
  - apply NoDup_app. split_and!; [done | |].
    + intros id Hin (k & -> & Hk%elem_of_seq)%list_elem_of_fmap.
      rewrite Forall_forall in Hall. destruct (Hall _ Hin) as (k' & ? & Heq).
      apply uuid_inj in Heq. lia.
    + apply NoDup_fmap_2_strong; [| apply NoDup_seq].
      intros x y _ _. apply uuid_inj.
  - apply Forall_app. split.
    + eapply Forall_impl; [exact Hall |]. intros id (k & ? & ?). exists k. split; [lia | done].
    + apply Forall_fmap, Forall_forall. intros k Hk%elem_of_seq. exists k.
      split; [lia | done].
Qed.

Lemma issued_snoc (n k m : nat) (ids : list string) :
  issued n ids -> n <= k -> k < m -> issued m (ids ++ [uuid k]).
Proof.
  intros Hi Hk Hm. apply (issued_app_seq n k 1 m) in Hi; [done | done | lia].
Qed.

#[local] Instance keeps_ids_refl : Reflexive (keeps_ids : relation Store).
Proof. intros st. split; [reflexivity | done]. Qed.

#[local] Instance keeps_ids_trans : Transitive (keeps_ids : relation Store).
Proof.
  intros st1 st2 st3 [Hs Hi] [Hs' Hi']. split; [by etrans | auto].
Qed.

Lemma UniqueIds_set_uuid (st : Store) n :
  uuid_next st <= n -> UniqueIds st -> UniqueIds (set_uuid_next n st).
Proof. intros Hn [I1 I2 I3]. split; simpl; by eapply issued_mono. Qed.

Lemma keeps_ids_uuid (st : Store) n :
  uuid_next st <= n -> keeps_ids st (set_uuid_next n st).
Proof. intros. split; [by apply rule_step_uuid | by apply UniqueIds_set_uuid]. Qed.

Lemma steps_ids_uuidv4 : steps keeps_ids (uuidv4 : M string).
Proof. intros st. simpl. apply keeps_ids_uuid. lia. Qed.

Lemma steps_ids_findOrCreateAccount crit : steps keeps_ids (findOrCreateAccount crit).
Proof.
  intros st.
  destruct (list_find (matches crit) (db_accounts st)) as [[i a] |] eqn:Hf.
  - erewrite findOrCreateAccount_found by done. reflexivity.
  - rewrite findOrCreateAccount_created by done. simpl. split.
    + apply grow_new_account.
    + intros [I1 I2 I3]. split; simpl.
      * rewrite fmap_app. simpl. eapply issued_snoc; [done | done | lia].
      * eapply issued_mono; [| done]. lia.
      * eapply issued_mono; [| done]. lia.
Qed.

Ltac steps_ids :=
  repeat first
    [ apply steps_ret; apply _
    | apply steps_throw; apply _
    | apply steps_with_config; apply _
    | apply steps_ids_findOrCreateAccount
    | apply steps_ids_uuidv4
    | apply steps_bind; [apply _ | | intros ?]
    | match goal with
      | |- steps _ (match ?x with _ => _ end) => destruct x
      end ].

Lemma steps_ids_proposeEntries eventType (payload : Payload) :
  steps keeps_ids (proposeEntries eventType payload).
Proof.
  unfold proposeEntries. repeat case_decide.
  - unfold paymentCaptured.
    repeat first [ progress (unfold revenueAccount) | progress steps_ids ].
  - unfold paymentRefunded. steps_ids.
  - unfold paymentPartiallyRefunded. steps_ids.
  - apply steps_throw, _.
Qed.

Lemma steps_ids_drawIds (payload : Payload) : steps keeps_ids (drawIds payload).
Proof.
  intros st. destruct (drawIds_run st payload) as (n & ids & -> & ?).
  simpl. apply keeps_ids_uuid. lia.
Qed.

(** Whatever [updateAccountBalance] does, it keeps the identifiers. *)
Lemma updateAccountBalance_ids (st : Store) id t amt cur :
  UniqueIds st -> UniqueIds (updateAccountBalance id t amt cur st).1.
Proof.
  intros HU.
  destruct (updateAccountBalance_run st id t amt cur)
    as [(_ & st' & -> & Hs & He & Hv & _ & Hu) | (_ & e & -> & _)]; [| done].
  simpl. destruct HU as [I1 I2 I3].
  assert (account_id <$> db_accounts st' = account_id <$> db_accounts st) as Hids.
  { apply (f_equal (fmap static_id)) in Hs.
    by rewrite <- !list_fmap_compose in Hs. }
  split; by rewrite ?Hids, ?He, ?Hv, Hu.
Qed.

Lemma saveEntries_ids (es : list EntryData) (st : Store) g t ev :
  UniqueIds st -> UniqueIds (saveEntries g t ev es st).1.
Proof.
  revert st. induction es as [| ed es IH]; intros st HU; [done |].
  change (saveEntries g t ev (ed :: es))
    with (do entryId <- uuidv4;
          let ledgerEntry := newLedgerEntry entryId g t ev ed in
          exec LedgerEntry_insert ledgerEntry;
          exec updateAccountBalance (entry_account_id ledgerEntry)
                 (entry_type ledgerEntry) (amount ledgerEntry)
                 (entry_currency ledgerEntry);
          do createdEntries <- saveEntries g t ev es;
          ret (ledgerEntry :: createdEntries)).
  erewrite bind_Return by apply uuidv4_run. cbv beta zeta.
  set (e0 := newLedgerEntry (uuid (uuid_next st)) g t ev ed).
  destruct (num_isNaN (amount e0)) eqn:Hnan.
  { unfold bind at 1. rewrite (LedgerEntry_insert_NaN _ _ Hnan). simpl.
    destruct HU as [I1 I2 I3]. split; simpl; (eapply issued_mono; [| done]); lia. }
  erewrite bind_Return by (by apply LedgerEntry_insert_run).
  set (st1 := set_entries _ _).
  assert (UniqueIds st1) as HU1.
  { destruct HU as [I1 I2 I3]. split; simpl.
    - eapply issued_mono; [| done]. lia.
    - rewrite fmap_app. simpl. eapply issued_snoc; [done | done | lia].
    - eapply issued_mono; [| done]. lia. }
  pose proof (updateAccountBalance_ids st1 (entry_account_id e0) (entry_type e0)
                (amount e0) (entry_currency e0) HU1) as Hupd.
  unfold bind at 1.
  destruct (updateAccountBalance _ _ _ _ st1) as [st2 [[] | e]]; [| done].
  simpl in Hupd. unfold bind. specialize (IH st2 Hupd).
  by destruct (saveEntries g t ev es st2) as [st3 [created | e]].
Qed.

Lemma executeActions_ids (st : Store) eventType payload :
  UniqueIds st -> UniqueIds (executeActions eventType payload st).1.
Proof.
  intros HU. destruct (drawIds_run st payload) as (n & [[g t] ev] & Hd & Hn).
  rewrite (executeActions_unfold _ _ _ _ _ _ _ Hd).
  assert (UniqueIds (set_uuid_next n st)) as HU1
    by (apply UniqueIds_set_uuid; [lia | done]).
  destruct (proposeEntries eventType payload (set_uuid_next n st))
    as [st2 o] eqn:Hp.
  pose proof (steps_elim _ _ _ _ _ (steps_ids_proposeEntries eventType payload) Hp)
    as [_ HU2].
  specialize (HU2 HU1).
  destruct o as [[[es d] c] | e]; [| done].
  destruct (unbalanced d c); [done |]. by apply saveEntries_ids.
Qed.

Lemma postEvents_ids (st : Store) eventType payload :
  UniqueIds st -> UniqueIds (postEvents eventType payload st).1.
Proof.
  intros [I1 I2 I3]. unfold postEvents.
  erewrite bind_Return by apply uuidv4_run.
  unfold bind, Event_save. cbn [ev_event_type].
  destruct (str_truthy eventType).
  - apply executeActions_ids. split; simpl.
    + eapply issued_mono; [| done]. lia.
    + eapply issued_mono; [| done]. lia.
    + rewrite fmap_app. simpl. eapply issued_snoc; [done | done | lia].
  - simpl. split; simpl; (eapply issued_mono; [| done]); lia.
Qed.

Lemma static_ids (l l' : list Account) :
  acct_static <$> l' = acct_static <$> l -> account_id <$> l' = account_id <$> l.
Proof.
  intros Hs.
  apply (f_equal (fmap static_id)) in Hs.
  by rewrite <- !list_fmap_compose in Hs.
Qed.

Lemma buildReversals_ids g reason (originals : list (nat * LedgerEntry))
    (st st' : Store) revs :
  buildReversals g reason originals st = (st', Return revs) ->
  entry_id <$> revs = uuid <$> seq (uuid_next st) (length originals).
Proof.
  revert st revs. induction originals as [| [i e] originals IH]; intros st revs Hrun.
  - simpl in Hrun. unfold ret in Hrun. by simplify_eq.
  - rewrite buildReversals_cons in Hrun.
    apply bind_inv_Return in Hrun as (st1 & found & Hfind & Hrun).
    unfold Account_findOne in Hfind. injection Hfind as <- <-.
    destruct (list_find _ _) as [[j a] |]; [| done].
    apply bind_inv_Return in Hrun as (st1 & [[amt cur] rate] & Hrate & Hrun).
    rewrite reversalRate_block in Hrate. injection Hrate as <- _.
    apply bind_inv_Return in Hrun as (st2 & entryId & Hid & Hrun).
    rewrite uuidv4_run in Hid. injection Hid as <- <-.
    apply bind_inv_Return in Hrun as (st3 & [] & Hsave & Hrun).
    unfold LedgerEntry_save in Hsave. injection Hsave as <-.
    apply bind_inv_Return in Hrun as (st4 & rest & Hrest & Hrun).
    unfold ret in Hrun. injection Hrun as <- <-.
    apply IH in Hrest. rewrite fmap_cons, Hrest. reflexivity.
Qed.

Lemma prefix_sublist {A} (l written rest : list A) :
  l = written ++ rest -> written `sublist_of` l.
Proof.
  intros ->. rewrite <- (app_nil_r written) at 1.
  apply sublist_app; [done | apply sublist_nil_l].
Qed.

(** Saving entries whose identifiers were drawn after those of the ledger
    keeps the identifiers unique, also when the loop stops half-way. *)
Lemma saveReversals_ids (revs : list LedgerEntry) (st : Store) n a :
  issued n (account_id <$> db_accounts st) ->
  issued n (entry_id <$> db_entries st) ->
  issued n (ev_event_id <$> db_events st) ->
  n <= a -> a + length revs <= uuid_next st ->
  entry_id <$> revs = uuid <$> seq a (length revs) ->
  UniqueIds (saveReversals revs st).1.
Proof.
  intros I1 I2 I3 Hna Hlen Hids.
  destruct (saveReversals_any revs st)
    as (st' & o & written & rest & -> & Hsplit & He & Hs & Hv & _ & Hu & _).
  simpl. split; rewrite ?Hu.
  - rewrite (static_ids _ _ Hs). eapply issued_mono; [| done]. lia.
  - rewrite He, fmap_app.
    eapply (issued_sublist _ ((entry_id <$> db_entries st) ++ (entry_id <$> revs))).
    + apply sublist_app; [done |]. apply fmap_sublist. by eapply prefix_sublist.
    + rewrite Hids. by eapply issued_app_seq.
  - rewrite Hv. eapply issued_mono; [| done]. lia.
Qed.

Lemma reverse_ids (st : Store) g reason :
  UniqueIds st -> UniqueIds (reverse g reason st).1.
Proof.
  intros HU.
  destruct (reverse_spec st g reason) as (st' & o & Hrun & _ & Hcases).
  destruct Hcases as [(_ & -> & _) | [(_ & _ & -> & _) | (Hne & Hnone & _)]];
    [by rewrite Hrun.. |].
  clear Hrun st' o. rewrite reverse_unfold by done.
  set (originals := find_from _ 0 (db_entries st)).
  destruct (buildReversals_run (uuid (uuid_next st)) (str_or reason "Not specified")
              originals (set_uuid_next (S (uuid_next st)) st))
    as (st2 & o & done & rest & Hrun & Hsplit & Ha & Hv & _ & Hu & He & Ho).
  simpl in Ha, Hv, Hu, He.
  assert (entry_id <$> db_entries st2 = entry_id <$> db_entries st) as Hids.
  { rewrite He. apply mark_all_fmap; [done |].
    intros i e Hin.
    assert ((i, e) ∈ originals) as (_ & Hl & _)%find_from_lookup
      by (rewrite Hsplit; apply elem_of_app; by left).
    by rewrite Nat.sub_0_r in Hl. }
  destruct HU as [I1 I2 I3].
  destruct o as [revs | e].
  - erewrite bind_Return by exact Hrun.
    pose proof (buildReversals_ids _ _ _ _ _ _ Hrun) as Hnew. simpl in Hnew.
    destruct Ho as [-> Hall]. rewrite app_nil_r in Hsplit. subst done.
    apply Forall2_length in Hall. rewrite Hall in Hnew, Hu.
    pose proof (saveReversals_ids revs st2 (uuid_next st) (S (uuid_next st))) as Hsave.
    unfold bind.
    destruct (saveReversals revs st2) as [st3 [[] | e]]; simpl in *;
      apply Hsave; rewrite ?Ha, ?Hids, ?Hv; try done; lia.
  - erewrite bind_Throw by exact Hrun. simpl.
    split; rewrite ?Ha, ?Hids, ?Hv, Hu; (eapply issued_mono; [| done]); lia.
Qed.

Lemma postAccountingEntries_ids (body : EntriesBody) (st : Store) :
  UniqueIds st -> UniqueIds (postAccountingEntries body st).1.
Proof.
  intros HU.
  destruct (body_entries body) as [entries |] eqn:Hbody; cycle 1.
  { unfold postAccountingEntries. by rewrite Hbody. }
  destruct (decide (length entries < 2)) as [Hshort | Hlong].
  { unfold postAccountingEntries. by rewrite Hbody, decide_True by done. }
  destruct (postAccountingEntries_unfold body entries st Hbody)
    as (st1 & o & Ha & He & Hv & _ & Hu & Ho & ->); [lia |].
  destruct HU as [I1 I2 I3].
  assert (UniqueIds st1) as HU1.
  { split; rewrite ?Ha, ?He, ?Hv; (eapply issued_mono; [| done]); lia. }
  destruct o as [msg | [[les d] c]]; [done |].
  case_decide; [done |].
  destruct Ho as (_ & Hrec & Hids & Hn & _).
  apply Forall2_length in Hrec. rewrite Hrec in Hids, Hn.
  pose proof (saveReversals_ids les st1 (uuid_next st) (S (uuid_next st))) as Hsave.
  destruct (saveReversals les st1) as [st3 [[] | e]]; simpl in *;
    apply Hsave; rewrite ?Ha, ?He, ?Hv; try done; lia.
Qed.

Lemma createAccount_ids (body : AccountBody) (st : Store) :
  UniqueIds st -> UniqueIds (createAccount body st).1.
Proof.
  intros [I1 I2 I3]. unfold createAccount, try_catch.
  erewrite bind_Return by apply uuidv4_run.
  erewrite bind_Return by apply uuidv4_run.
  destruct (validAccount _ _ body) as [a |] eqn:Hvalid.
  - assert (account_id a = uuid (S (uuid_next st))) as Hid.
    { unfold validAccount in Hvalid. repeat case_match; by simplify_eq. }
    simpl. split; simpl.
    + rewrite fmap_app. simpl. rewrite Hid. eapply issued_snoc; [done | lia | lia].
    + eapply issued_mono; [| done]. lia.
    + eapply issued_mono; [| done]. lia.
  - simpl. split; simpl; (eapply issued_mono; [| done]); lia.
Qed.

Lemma deleteDiscrepancyEntries_ids (st : Store) :
  UniqueIds st -> UniqueIds (deleteDiscrepancyEntries st).1.
Proof.
  intros [I1 I2 I3]. split; simpl; try done.
  eapply issued_sublist; [| exact I2]. apply fmap_sublist, sublist_filter.
Qed.

Lemma UniqueIds_empty (cfg : Config) : UniqueIds (empty_store cfg).
Proof. split; simpl; split; by constructor. Qed.

Lemma serve_ids (c : Call) (st : Store) : UniqueIds st -> UniqueIds (serve c st).
Proof.
  intros HU. destruct c; cbn [serve].
  - by apply postEvents_ids.
  - by apply reverse_ids.
  - by apply postAccountingEntries_ids.
  - by apply createAccount_ids.
  - by apply deleteDiscrepancyEntries_ids.
Qed.

Lemma serveAll_ids (cs : list Call) (st : Store) :
  UniqueIds st -> UniqueIds (serveAll cs st).
Proof.
  revert st. induction cs as [| c cs IH]; intros st HU; [done |].
  apply IH. by apply serve_ids.
Qed.

(** Whatever sequence of event postings, reversals, manual postings,
    account creations and discrepancy deletions the service has handled since
    it started with empty collections, and whatever their outcomes, no two
    accounts share an [account_id], no two ledger entries an [entry_id] and no
    two events an [event_id]: the unique indexes of the three collections are
    never offended as long as [uuidv4()] does not repeat itself. *)
Theorem identifiers_stay_unique (cfg : Config) (cs : list Call) :
  NoDup (account_id <$> db_accounts (serveAll cs (empty_store cfg)))
  /\ NoDup (entry_id <$> db_entries (serveAll cs (empty_store cfg)))
  /\ NoDup (ev_event_id <$> db_events (serveAll cs (empty_store cfg))).
Proof.
  destruct (serveAll_ids cs _ (UniqueIds_empty cfg)) as [[? _] [? _] [? _]].
  done.
Qed.

(** ** Reading the collections *)

Lemma ceil_div_covers (a s : nat) : 0 < s -> a <= ceil_div a s * s.
Proof.
  intros Hs. unfold ceil_div.
  pose proof (Nat.div_mod_eq (a + s - 1) s) as Hdm.
  pose proof (Nat.mod_upper_bound (a + s - 1) s) as Hr. nia.
Qed.

Lemma ceil_div_tight (a s p : nat) : 0 < s -> p < ceil_div a s -> p * s < a.
Proof.
  intros Hs. unfold ceil_div. intros Hp.
  pose proof (Nat.div_mod_eq (a + s - 1) s) as Hdm.
  pose proof (Nat.mod_upper_bound (a + s - 1) s) as Hr. nia.
Qed.

Lemma concat_pages {A} (l : list A) (s n : nat) :
  concat ((fun p => take s (drop ((p - 1) * s) l)) <$> seq 1 n) = take (n * s) l.
Proof.
  induction n as [| n IH]; [done |].
  rewrite seq_S, fmap_app, concat_app, IH. simpl. rewrite app_nil_r.
  replace (n - 0) with n by lia.
  rewrite take_take_drop. f_equal. lia.
Qed.

(** [GET /accounting-entries] pages through the entries that match its
    filter without losing or repeating one: every page holds at most
    [pageSize] entries, reports the number of matching entries and
    [totalPages = ceil(matching / pageSize)], the pages 1 to [totalPages] are
    not empty and every later page is, and the pages 1 to [totalPages], one
    after the other, are exactly the matching entries in ledger order. *)
Theorem pages_partition_the_matches (q : EntriesQuery) (st : Store) :
  let pageSize := Pos.to_nat (default 50%positive (q_pageSize q)) in
  let matching := List.filter (entriesFilter q) (db_entries st) in
  let totalPages := ceil_div (length matching) pageSize in
  let page (p : nat) := listAccountingEntries (with_page q (Pos.of_nat p)) st in
  (forall p, 1 <= p ->
     exists pg,
       page p = (st, Json 200 pg)
       /\ pg_page pg = p /\ pg_pageSize pg = pageSize
       /\ pg_totalEntries pg = length matching
       /\ pg_totalPages pg = totalPages
       /\ length (pg_entries pg) <= pageSize
       /\ (p <= totalPages -> pg_entries pg <> [])
       /\ (totalPages < p -> pg_entries pg = []))
  /\ concat ((fun p => page_entries (page p).2) <$> seq 1 totalPages) = matching.
Proof.
  intros pageSize matching totalPages page.
  assert (0 < pageSize) as Hs by apply Pos2Nat.is_pos.
  assert (forall p, 1 <= p ->
            page p
            = (st, Json 200
                     {| pg_entries := take pageSize (drop ((p - 1) * pageSize) matching);
                        pg_page := p; pg_pageSize := pageSize;
                        pg_totalPages := totalPages;
                        pg_totalEntries := length matching |})) as Hpage.
  { intros p Hp. unfold page, listAccountingEntries.
    assert (List.filter (entriesFilter (with_page q (Pos.of_nat p))) (db_entries st)
            = matching) as -> by done.
    assert (Pos.to_nat (default 1%positive (q_page (with_page q (Pos.of_nat p)))) = p)
      as -> by (simpl; apply Nat2Pos.id; lia).
    done. }
  split.
  - intros p Hp. eexists. split; [by apply Hpage |]. cbn.
    split_and!; try done.
    + rewrite length_take. lia.
    + intros Hle Hnil. apply (f_equal length) in Hnil.
      rewrite length_take, length_drop in Hnil. simpl in Hnil.
      assert ((p - 1) * pageSize < length matching); [| lia].
      apply ceil_div_tight; [done |]. fold totalPages. lia.
    + intros Hgt. rewrite drop_ge; [apply take_nil |].
      pose proof (ceil_div_covers (length matching) pageSize Hs) as Hcov.
      fold totalPages in Hcov. nia.
  - transitivity (take (totalPages * pageSize) matching);
      [| apply take_ge; by apply ceil_div_covers].
    rewrite <- concat_pages. f_equal. apply list_fmap_ext.
    intros i p Hip. rewrite Hpage; [done |]. apply lookup_seq in Hip. lia.
Qed.

Lemma list_find_key {A} (f : A -> string) (l : list A) (x : A) :
  NoDup (f <$> l) -> x ∈ l ->
  exists i, list_find (fun y => f y = f x) l = Some (i, x).
Proof.
  intros Hnd (i & Hi)%list_elem_of_lookup. exists i.
  apply list_find_Some. split_and!; [done.. |].
  intros j y Hj Hlt Hid.
  assert (j = i); [| lia].
  eapply (NoDup_lookup _ _ _ (f x) Hnd);
    rewrite list_lookup_fmap; [by rewrite Hj; simpl; f_equal | by rewrite Hi].
Qed.

Lemma list_find_no_key {A} (f : A -> string) (l : list A) (id : string) :
  id ∉ f <$> l -> list_find (fun y => f y = id) l = None.
Proof.
  intros Hno. apply list_find_None, Forall_forall. intros y Hy Heq.
  apply Hno. rewrite <- Heq. by apply list_elem_of_fmap_2.
Qed.

(** In every store the service can reach, a document is found by its
    identifier: [GET /accounts/:accountId] with the [account_id] of a stored
    account returns that account, [GET /accounting-entries/:entryId] with the
    [entry_id] of a stored entry returns that entry, and an identifier no
    document carries gets the 404 response.  Neither request changes the
    store. *)
Theorem stored_documents_are_found_by_id (cfg : Config) (cs : list Call) :
  let st := serveAll cs (empty_store cfg) in
  (forall a, a ∈ db_accounts st -> getAccount (account_id a) st = (st, Json 200 a))
  /\ (forall e, e ∈ db_entries st ->
                getAccountingEntry (entry_id e) st = (st, Json 200 e))
  /\ (forall id, id ∉ account_id <$> db_accounts st ->
                 getAccount id st = (st, ErrorJson 404 "Account not found"))
  /\ (forall id, id ∉ entry_id <$> db_entries st ->
                 getAccountingEntry id st = (st, ErrorJson 404 "Entry not found")).
Proof.
  intros st.
  destruct (serveAll_ids cs _ (UniqueIds_empty cfg)) as [[Ha _] [He _] _].
  fold st in Ha, He. split_and!.
  - intros a Hin. destruct (list_find_key account_id _ a Ha Hin) as [i Hf].
    unfold getAccount, try_catch, bind, Account_findOne. by rewrite Hf.
  - intros e Hin. destruct (list_find_key entry_id _ e He Hin) as [i Hf].
    unfold getAccountingEntry, try_catch, bind, LedgerEntry_findOne. by rewrite Hf.
  - intros id Hno.
    unfold getAccount, try_catch, bind, Account_findOne.
    by rewrite (list_find_no_key account_id).
  - intros id Hno.
    unfold getAccountingEntry, try_catch, bind, LedgerEntry_findOne.
    by rewrite (list_find_no_key entry_id).
Qed.

(** [POST /accounts] stores a body that passes the schema's validation as a
    new account with a balance of 0, whatever accounts exist already: it sets
    [account_number] to the identifier it drew and [account_id] to the next
    one, and does not look for an account of the same name and currency.  A
    body that fails the validation is answered with status 500 and nothing is
    stored.  In both cases [findOrCreateAccount] afterwards resolves a name
    and a currency to the same account as before whenever there was one: a
    duplicate created here is never the one the posting rules use. *)
Theorem createAccount_appends_without_lookup (body : AccountBody) (st : Store) :
  exists st' r,
    createAccount body st = (st', r)
    /\ db_entries st' = db_entries st
    /\ match validAccount (uuid (uuid_next st)) (uuid (S (uuid_next st))) body with
       | Some a =>
           r = Json 201 a /\ db_accounts st' = db_accounts st ++ [a]
           /\ balance a = num_zero
           /\ account_number a = uuid (uuid_next st)
           /\ account_id a = uuid (S (uuid_next st))
           /\ ab_accountName body = Some (account_name a)
           /\ ab_currency body = Some (currency a)
           /\ ab_nature body = Some (Side_name (nature a))
           /\ ab_accountType body = Some (AccountType_name (account_type a))
           /\ ab_status body = Some (Status_name (status a))
       | None => r = Caught ValidationFailed /\ db_accounts st' = db_accounts st
       end
    /\ (forall crit i a0,
          list_find (matches crit) (db_accounts st) = Some (i, a0) ->
          findOrCreateAccount crit st' = (st', Return a0)).
Proof.
  unfold createAccount, try_catch.
  erewrite bind_Return by apply uuidv4_run.
  erewrite bind_Return by apply uuidv4_run.
  destruct (validAccount _ _ body) as [a |] eqn:Hvalid.
  - eexists _, _. split; [reflexivity |]. simpl. split; [done |]. split.
    + unfold validAccount in Hvalid.
      destruct (ab_accountName body) as [name |]; [| done].
      destruct (ab_accountType body) as [ty |]; [| done]. simpl in Hvalid.
      destruct (parse_AccountType ty) as [ty' |] eqn:Hty; [| done].
      destruct (ab_currency body) as [cur |]; [| by destruct (ab_status body)].
      destruct (ab_status body) as [s |]; [| done]. simpl in Hvalid.
      destruct (parse_Status s) as [s' |] eqn:Hs; [| done].
      destruct (ab_nature body) as [n |]; [| done]. simpl in Hvalid.
      destruct (parse_Side n) as [n' |] eqn:Hn; [| done].
      destruct (str_truthy name && str_truthy cur); [| done].
      injection Hvalid as <-. simpl.
      assert (ty = AccountType_name ty') as ->.
      { unfold parse_AccountType in Hty.
        destruct (list_find _ _) as [[k t] |] eqn:Hf; [| done].
        apply list_find_Some in Hf as (_ & ? & _). by simplify_eq/=. }
      assert (s = Status_name s') as ->.
      { unfold parse_Status in Hs.
        destruct (list_find _ _) as [[k t] |] eqn:Hf; [| done].
        apply list_find_Some in Hf as (_ & ? & _). by simplify_eq/=. }
      assert (n = Side_name n') as ->.
      { unfold parse_Side in Hn.
        destruct (list_find _ _) as [[k t] |] eqn:Hf; [| done].
        apply list_find_Some in Hf as (_ & ? & _). by simplify_eq/=. }
      by split_and!.
    + intros crit i a0 Hf. apply (findOrCreateAccount_found _ _ i). simpl.
      apply list_find_app_Some. by left.
  - eexists _, _. split; [reflexivity |]. simpl. split_and!; try done.
    intros crit i a0 Hf. by apply (findOrCreateAccount_found _ _ i).
Qed.

(** ** Deleting discrepancy adjustments *)

Lemma returns_bind {A B} (m : M A) (k : A -> M B) (Q : B -> Store -> Prop) :
  (forall a, triple (fun _ => True) (k a) Q (fun _ _ => True)) ->
  triple (fun _ => True) (bind m k) Q (fun _ _ => True).
Proof.
  intros Hk. eapply triple_bind; [| exact Hk].
  intros st _. by destruct (m st) as [st' [a | e]].
Qed.

(** Follow the structure of a rule down to the entries it returns. *)
Ltac returns_auto :=
  repeat first
    [ apply returns_bind; intros ?
    | apply triple_throw; done
    | match goal with
      | |- triple _ (match ?x with _ => _ end) _ _ => destruct x
      end ].

(** No rule proposes an entry described as a discrepancy adjustment. *)
Lemma proposeEntries_descriptions eventType (payload : Payload) :
  triple (fun _ => True) (proposeEntries eventType payload)
    (fun proposed _ =>
       Forall (fun ed : EntryData => ed_description ed <> "Discrepancy adjustment")
         proposed.1.1)
    (fun _ _ => True).
Proof.
  unfold proposeEntries. repeat case_decide.
  - unfold paymentCaptured. returns_auto; cbv zeta; returns_auto;
      apply triple_ret; intros; simpl; repeat constructor; discriminate.
  - unfold paymentRefunded, refundEntries. returns_auto;
      apply triple_ret; intros; simpl; repeat constructor; discriminate.
  - unfold paymentPartiallyRefunded, refundEntries. returns_auto;
      apply triple_ret; intros; simpl; repeat constructor; discriminate.
  - by apply triple_throw.
Qed.

Lemma updateAccountBalance_entries (st : Store) id t amt cur :
  db_entries (updateAccountBalance id t amt cur st).1 = db_entries st.
Proof.
  by destruct (updateAccountBalance_run st id t amt cur)
    as [(_ & st' & -> & _ & He & _) | (_ & e & -> & _)].
Qed.

Lemma saveEntries_descriptions (es : list EntryData) (st : Store) g t ev :
  Forall (fun ed : EntryData => ed_description ed <> "Discrepancy adjustment") es ->
  no_discrepancy (db_entries st) ->
  no_discrepancy (db_entries (saveEntries g t ev es st).1).
Proof.
  revert st. induction es as [| ed es IH]; intros st Hes Hst; [done |].
  apply Forall_cons in Hes as [Hed Hes].
  change (saveEntries g t ev (ed :: es))
    with (do entryId <- uuidv4;
          let ledgerEntry := newLedgerEntry entryId g t ev ed in
          exec LedgerEntry_insert ledgerEntry;
          exec updateAccountBalance (entry_account_id ledgerEntry)
                 (entry_type ledgerEntry) (amount ledgerEntry)
                 (entry_currency ledgerEntry);
          do createdEntries <- saveEntries g t ev es;
          ret (ledgerEntry :: createdEntries)).
  erewrite bind_Return by apply uuidv4_run. cbv beta zeta.
  set (e0 := newLedgerEntry (uuid (uuid_next st)) g t ev ed).
  destruct (num_isNaN (amount e0)) eqn:Hnan.
  { unfold bind at 1. by rewrite (LedgerEntry_insert_NaN _ _ Hnan). }
  erewrite bind_Return by (by apply LedgerEntry_insert_run).
  set (st1 := set_entries _ _).
  assert (no_discrepancy (db_entries st1)) as H1.
  { simpl. apply Forall_app. split; [done |]. by apply Forall_singleton. }
  pose proof (updateAccountBalance_entries st1 (entry_account_id e0) (entry_type e0)
                (amount e0) (entry_currency e0)) as Hupd.
  unfold bind at 1.
  destruct (updateAccountBalance _ _ _ _ st1) as [st2 [[] | e]];
    cbn [fst] in Hupd; [| cbn [fst]; by rewrite Hupd].
  unfold bind. specialize (IH st2 Hes). rewrite Hupd in IH. specialize (IH H1).
  by destruct (saveEntries g t ev es st2) as [st3 [created | e]].
Qed.

Lemma buildReversals_descriptions g reason (originals : list (nat * LedgerEntry))
    (st st' : Store) revs :
  buildReversals g reason originals st = (st', Return revs) -> no_discrepancy revs.
Proof.
  revert st revs. induction originals as [| [i e] originals IH]; intros st revs Hrun.
  - simpl in Hrun. unfold ret in Hrun. simplify_eq. constructor.
  - rewrite buildReversals_cons in Hrun.
    apply bind_inv_Return in Hrun as (st1 & found & _ & Hrun).
    destruct found as [[j a] |]; [| done].
    apply bind_inv_Return in Hrun as (st2 & [[amt cur] rate] & _ & Hrun).
    apply bind_inv_Return in Hrun as (st3 & entryId & _ & Hrun).
    apply bind_inv_Return in Hrun as (st4 & [] & _ & Hrun).
    apply bind_inv_Return in Hrun as (st5 & rest & Hrest & Hrun).
    unfold ret in Hrun. injection Hrun as <- <-.
    apply Forall_cons. split; [done | by eapply IH].
Qed.

Lemma no_discrepancy_prefix (l written rest : list LedgerEntry) :
  l = written ++ rest -> no_discrepancy l -> no_discrepancy written.
Proof. intros -> [? _]%Forall_app. done. Qed.

Lemma postEvents_descriptions (st : Store) eventType payload :
  no_discrepancy (db_entries st) ->
  no_discrepancy (db_entries (postEvents eventType payload st).1).
Proof.
  intros Hst. unfold postEvents. erewrite bind_Return by apply uuidv4_run.
  unfold bind at 1, Event_save. cbn [ev_event_type].
  destruct (str_truthy eventType); [| done].
  set (st0 := set_events _ _). set (p := with_event_id _ _).
  assert (no_discrepancy (db_entries st0)) as H0 by done. clearbody st0 p.
  destruct (drawIds_run st0 p) as (n & [[g t] ev] & Hd & Hn).
  rewrite (executeActions_unfold _ _ _ _ _ _ _ Hd).
  pose proof (proposeEntries_descriptions eventType p (set_uuid_next n st0) I) as Hdesc.
  destruct (proposeEntries eventType p (set_uuid_next n st0)) as [st2 o] eqn:Hp.
  pose proof (steps_elim _ _ _ _ _ (steps_proposeEntries eventType p) Hp)
    as [(He & _) _].
  simpl in He.
  destruct o as [[[es d] c] | e]; [| simpl; by rewrite He].
  destruct (unbalanced d c); [simpl; by rewrite He |].
  apply saveEntries_descriptions; [done | by rewrite He].
Qed.

Lemma reverse_descriptions (st : Store) g reason :
  no_discrepancy (db_entries st) ->
  no_discrepancy (db_entries (reverse g reason st).1).
Proof.
  intros Hst.
  destruct (reverse_spec st g reason) as (st' & o & Hrun & _ & Hcases).
  destruct Hcases as [(_ & -> & _) | [(_ & _ & -> & _) | (Hne & Hnone & _)]];
    [by rewrite Hrun.. |].
  clear Hrun st' o. rewrite reverse_unfold by done.
  set (originals := find_from _ 0 (db_entries st)).
  destruct (buildReversals_run (uuid (uuid_next st)) (str_or reason "Not specified")
              originals (set_uuid_next (S (uuid_next st)) st))
    as (st2 & o & done & rest & Hrun & Hsplit & _ & _ & _ & _ & He & Ho).
  simpl in He.
  assert (no_discrepancy (db_entries st2)) as H2.
  { apply (proj1 (Forall_fmap description
                      (fun d : string => d <> "Discrepancy adjustment") _)).
    rewrite He, (mark_all_fmap description);
      [by apply (proj2 (Forall_fmap description _ _)) | done |].
    intros i e Hin.
    assert ((i, e) ∈ originals) as (_ & Hl & _)%find_from_lookup
      by (rewrite Hsplit; apply elem_of_app; by left).
    by rewrite Nat.sub_0_r in Hl. }
  destruct o as [revs | e].
  - erewrite bind_Return by exact Hrun.
    pose proof (buildReversals_descriptions _ _ _ _ _ _ Hrun) as Hrevs.
    destruct (saveReversals_any revs st2)
      as (st3 & o & written & rest' & Hsave & Hsplit' & He3 & _).
    unfold bind. rewrite Hsave.
    assert (no_discrepancy (db_entries st3)).
    { rewrite He3. apply Forall_app. split; [done |].
      by eapply no_discrepancy_prefix. }
    by destruct o as [[] | e].
  - by erewrite bind_Throw by exact Hrun.
Qed.

Lemma run_descriptions (rs : list (@Request num)) (st : Store) :
  no_discrepancy (db_entries st) -> no_discrepancy (db_entries (run rs st)).
Proof.
  revert st. induction rs as [| r rs IH]; intros st Hst; [done |].
  apply IH. destruct r; simpl;
    [by apply postEvents_descriptions | by apply reverse_descriptions].
Qed.

(** [DELETE /delete-discrepancy-entries] removes the entries whose
    description is exactly "Discrepancy adjustment" and keeps every other
    entry, in order; it reports how many it removed and adjusts no balance:
    the accounts are left as they were.  Asked again at once it removes
    nothing.  No entry written by an event posting or by a reversal carries
    that description, so in a store reached by those alone the request
    removes nothing at all. *)
Theorem discrepancy_deletion_spares_posted_entries (st : Store) :
  exists st' n,
    deleteDiscrepancyEntries st = (st', Json 200 n)
    /\ db_entries st'
       = filter (fun e => description e <> "Discrepancy adjustment") (db_entries st)
    /\ n + length (db_entries st') = length (db_entries st)
    /\ db_accounts st' = db_accounts st
    /\ deleteDiscrepancyEntries st' = (st', Json 200 0)
    /\ (forall cfg rs, st = run rs (empty_store cfg) -> n = 0 /\ db_entries st' = db_entries st).
Proof.
  eexists _, _. split; [reflexivity |]. simpl.
  assert (forall l : list LedgerEntry,
            no_discrepancy l ->
            filter (fun e : LedgerEntry => description e <> "Discrepancy adjustment") l = l
            /\ filter (fun e : LedgerEntry => description e = "Discrepancy adjustment") l
               = []) as Hclean.
  { intros l Hl. split; [by apply filter_Forall_id |].
    apply filter_Forall_nil. eapply Forall_impl; [exact Hl |]. done. }
  split_and!; try done.
  - induction (db_entries st) as [| e l IH]; [done |].
    destruct (decide (description e = "Discrepancy adjustment")) as [Hd | Hd].
    + rewrite filter_cons_True, filter_cons_False by (done || by intros ?).
      simpl. lia.
    + rewrite filter_cons_False, filter_cons_True by done. simpl. lia.
  - unfold deleteDiscrepancyEntries, try_catch, bind, LedgerEntry_deleteMany, ret.
    simpl.
    destruct (Hclean (filter (fun e : LedgerEntry =>
                                description e <> "Discrepancy adjustment")
                        (db_entries st))) as [-> ->]; [| done].
    apply Forall_forall. by intros e [? _]%list_elem_of_filter.
  - intros cfg rs ->.
    destruct (Hclean (db_entries (run rs (empty_store cfg)))) as [-> ->]; [| done].
    apply run_descriptions. constructor.
Qed.

(** ** The status of a refused event *)

(** A text that starts with another character than the phrase looked for
    includes the phrase when its tail does. *)
Lemma includes_cons_other (c a : Ascii.ascii) (s sub : string) :
  c <> a -> includes (String c s) (String a sub) = includes s (String a sub).
Proof.
  intros Hne. unfold includes.
  change (String.index 0 (String a sub) (String c s))
    with (if String.prefix (String a sub) (String c s) then Some 0
          else match String.index 0 (String a sub) s with
               | Some n => Some (S n)
               | None => None
               end).
  cbn [String.prefix]. destruct (Ascii.ascii_dec a c); [congruence |].
  by destruct (String.index 0 (String a sub) s).
Qed.

(** An error raised by the rule of an event is the outcome of
    [POST /events]. *)
Lemma postEvents_rule_throws (st : Store) eventType (payload : Payload) e :
  str_truthy eventType = true ->
  (forall id st1, postingRule eventType (with_event_id payload id) st1
                  = (st1, Throw e)) ->
  (postEvents eventType payload st).2 = Throw e.
Proof.
  intros Ht Hrule. unfold postEvents.
  erewrite bind_Return by apply uuidv4_run.
  unfold bind at 1, Event_save. cbn [ev_event_type ev_event_id]. rewrite Ht.
  match goal with
  | |- context [executeActions _ ?p ?s] =>
      destruct (executeActions_rule_throws s eventType p e) as [n ->]; [| done]
  end.
  intros n. apply Hrule.
Qed.

(** The status codes of refused events.  A [PaymentCaptured] with a falsy
    [amount], [currency] or [merchantId] or without [transactionFee] is
    answered with status 500, not 400: the message of its error includes
    neither of the two phrases the handler looks for.  A partial refund above
    the original amount is answered with 400, and so is a full refund that
    the merchant's payable balance does not cover.  An unsupported event type
    is answered with 500 unless its own name brings one of the two phrases
    into the message. *)
Theorem refused_events_status (st : Store) (payload : Payload) :
  (p_amount payload = Some num_zero \/ p_currency payload = Some ""
   \/ p_merchantId payload = Some "" \/ p_transactionFee payload = None ->
   postEvents_status "PaymentCaptured" (postEvents "PaymentCaptured" payload st).2
   = Some 500)
  /\ (forall originalAmount refundAmount cur merchantId,
        p_originalAmount payload = Some originalAmount ->
        num_truthy originalAmount = true ->
        p_refundAmount payload = Some refundAmount ->
        num_truthy refundAmount = true ->
        p_currency payload = Some cur -> str_truthy cur = true ->
        p_merchantId payload = Some merchantId -> str_truthy merchantId = true ->
        (refundAmount [>] originalAmount) = true ->
        postEvents_status "PaymentPartiallyRefunded"
          (postEvents "PaymentPartiallyRefunded" payload st).2 = Some 400)
  /\ (forall amount cur merchantId i payable,
        p_amount payload = Some amount -> num_truthy amount = true ->
        p_currency payload = Some cur -> str_truthy cur = true ->
        p_merchantId payload = Some merchantId -> str_truthy merchantId = true ->
        list_find (fun a : Account =>
                     account_name a = "Merchant Payable - " +:+ merchantId
                     /\ currency a = cur) (db_accounts st) = Some (i, payable) ->
        (balance payable [<] amount) = true ->
        postEvents_status "PaymentRefunded"
          (postEvents "PaymentRefunded" payload st).2 = Some 400)
  /\ (forall eventType,
        eventType <> "PaymentCaptured" -> eventType <> "PaymentRefunded" ->
        eventType <> "PaymentPartiallyRefunded" -> str_truthy eventType = true ->
        postEvents_status eventType (postEvents eventType payload st).2
        = Some (if includes eventType "Insufficient funds"
                   || includes eventType "Refund amount cannot exceed"
                then 400 else 500)).
Proof.
  split_and!.
  - intros Hfalsy.
    rewrite (postEvents_rule_throws _ _ _ (MissingFields "PaymentCaptured")); [done.. |].
    intros id st1. unfold postingRule, proposeEntries. rewrite decide_True by done.
    assert (paymentCaptured (with_event_id payload id) st1
            = (st1, Throw (MissingFields "PaymentCaptured")))
      as Hrule; [| unfold bind; by rewrite Hrule].
    unfold paymentCaptured. cbn [with_event_id p_amount p_currency p_merchantId
                                   p_transactionFee].
    destruct (p_amount payload) as [a |]; [| done].
    destruct (p_currency payload) as [c |]; [| done].
    destruct (p_merchantId payload) as [m |]; [| done].
    destruct (p_transactionFee payload) as [f |]; [| done].
    assert (negb (num_truthy a) || negb (str_truthy c) || negb (str_truthy m) = true)
      as ->; [| done].
    destruct Hfalsy as [? | [? | [? | ?]]]; simplify_eq; simpl;
      rewrite ?num_zero_falsy, ?orb_true_r; done.
  - intros originalAmount refundAmount cur merchantId Hoa Toa Hra Tra Hc Tc Hm Tm Hgt.
    rewrite (postEvents_rule_throws _ _ _ RefundExceedsOriginalError); [done.. |].
    intros id st1. unfold postingRule, proposeEntries, paymentPartiallyRefunded.
    rewrite !decide_False by discriminate. rewrite decide_True by done.
    cbn [with_event_id p_originalAmount p_refundAmount p_currency p_merchantId].
    by rewrite Hoa, Hra, Hc, Hm, Toa, Tra, Tc, Tm, Hgt.
  - intros amount cur merchantId i payable Ha Ta Hc Tc Hm Tm Hf Hlt.
    assert ((postEvents "PaymentRefunded" payload st).2 = Throw InsufficientFundsError)
      as ->; [| done].
    unfold postEvents. erewrite bind_Return by apply uuidv4_run.
    unfold bind at 1, Event_save. cbn [ev_event_type ev_event_id str_truthy].
    match goal with
    | |- context [executeActions _ ?p ?s] =>
        destruct (executeActions_rule_throws s "PaymentRefunded" p
                    InsufficientFundsError) as [n ->]; [| done]
    end.
    intros n.
    by apply (postingRule_refund_insufficient _ _ amount cur merchantId i payable).
  - intros eventType H1 H2 H3 Ht.
    rewrite (postEvents_rule_throws _ _ _ (UnsupportedEventType eventType)); [| done |].
    + unfold postEvents_status, message.
      let text := eval cbv [String.append] in ("Unsupported event type: " +:+ eventType)
      in change ("Unsupported event type: " +:+ eventType) with text.
      by rewrite !includes_cons_other by discriminate.
    + intros id st1. unfold postingRule, proposeEntries, bind.
      by rewrite !decide_False by done.
Qed.

End LedgerProperties.

(** ** The cross-currency capture *)

(** C2 (as amended).  A [PaymentCaptured] whose settlement currency differs
    from its source currency, once processed, has written exactly: a Debit to the Cash
    account of the settlement currency for [amount * rate]; a Credit to the
    Merchant Payable account for [amount * rate - fee * rate - fxFee]; a
    Credit to the Transaction Fee Revenue account for [fee * rate]; and, only
    when [fxFee > 0], a Credit to the FX Fee Revenue account for
    [fxFee = amount * fxFeeRate(source, settlement) * rate].  With the default
    configuration, 100 USD settled in EUR with a fee of 2.9 gives the amounts
    92, 88.41199999999999, 2.668 and 0.92 in binary64 arithmetic (the second
    is the double next below 88.412), and debits and credits both total 92. *)
Theorem captured_cross_currency_entries :
  (forall (num : Type) (HN : Number num) (st st' : @Store num)
          (payload : @Payload num) source settlement created,
     p_currency payload = Some source ->
     p_settlementCurrency payload = Some settlement ->
     str_truthy settlement = true ->
     source <> settlement ->
     executeActions "PaymentCaptured" payload st = (st', Return created) ->
     exists amount merchantId fee rate cash payable feeSpec feeRevenue
            (fxRevenue : list (@Account num)),
       let cfg := ledgerConfig st in
       let fxFee := (amount [*] fxFeeRate cfg source settlement [*] rate)%num in
       p_amount payload = Some amount
       /\ p_merchantId payload = Some merchantId
       /\ p_transactionFee payload = Some fee
       /\ getExchangeRate cfg source settlement = Return rate
       /\ cfg_accounts cfg !! "revenue" ≫= (fun m => m !! "transaction_fees")
          = Some feeSpec
       /\ (cash ∈ db_accounts st' /\ account_name cash = "Cash - " +:+ settlement
           /\ currency cash = settlement)
       /\ (payable ∈ db_accounts st'
           /\ account_name payable = "Merchant Payable - " +:+ merchantId
           /\ currency payable = settlement)
       /\ (feeRevenue ∈ db_accounts st'
           /\ account_name feeRevenue = crit_account_name feeSpec
           /\ currency feeRevenue = settlement)
       /\ (if (fxFee [>] num_zero)%num
           then exists fxSpec a,
                  fxRevenue = [a]
                  /\ cfg_accounts cfg !! "revenue" ≫= (fun m => m !! "fx_fees")
                     = Some fxSpec
                  /\ a ∈ db_accounts st'
                  /\ account_name a = crit_account_name fxSpec
                  /\ currency a = settlement
           else fxRevenue = [])
       /\ core <$> created
          = [ (account_id cash, Debit, (amount [*] rate)%num, settlement);
              (account_id payable, Credit,
               (amount [*] rate [-] fee [*] rate [-] fxFee)%num, settlement);
              (account_id feeRevenue, Credit, (fee [*] rate)%num, settlement) ]
            ++ ((fun a => (account_id a, Credit, fxFee, settlement)) <$> fxRevenue))
  /\ (exists st' created,
        executeActions "PaymentCaptured"
          (ex_payment 100 "USD" "M1" (Some 2.9%float) (Some "EUR"))
          (empty_store defaultConfig)
        = (st', Return created)
        /\ Forall2
             (fun e '(name, side, amt, cur) =>
                accountNameOf st' (entry_account_id e) = name
                /\ entry_type e = side /\ amount e = amt
                /\ entry_currency e = cur)
             created
             [ ("Cash - EUR", Debit, 92%float, "EUR");
               ("Merchant Payable - M1", Credit, 88.41199999999999%float, "EUR");
               ("Transaction Fee Revenue", Credit, 2.668%float, "EUR");
               ("FX Fee Revenue", Credit, 0.92%float, "EUR") ]
        /\ sumBy Debit (legs created) = 92%float
        /\ sumBy Credit (legs created) = 92%float).
Proof.
  split.
  - intros num HN st st' payload source settlement created Hsrc Hset Tset Hne
      (st1 & st2 & g & t & ev & es & d & c & Hd & Hp & _ & Hsave)%executeActions_inv.
    pose proof (steps_elim _ _ _ _ _ (steps_drawIds payload) Hd)
      as [(_ & _ & Hcfg & _) _].
    unfold proposeEntries in Hp. rewrite decide_True in Hp by done.
    apply paymentCaptured_inv in Hp
      as (amount & source' & merchantId & fee & total & feeS & fx & cash & payable
          & feeSpec & feeRevenue & fxRevenue & Ha & _ & Hsrc' & _ & Hm & _ & Hfee
          & Hsettle & HfeeSpec & Hcash & Hpay & Hrev & Hfx & Hviews & _).
    rewrite Hsrc in Hsrc'. injection Hsrc' as <-.
    rewrite Hset in *. simpl in *. rewrite Tset in *. rewrite Hcfg in *.
    unfold settle in Hsettle. rewrite decide_True in Hsettle by done.
    destruct (getExchangeRate (ledgerConfig st) source settlement)
      as [rate |] eqn:Hrate; [| done].
    injection Hsettle as <- <- <-.
    apply saveEntries_inv in Hsave as (Hcore & _ & _ & Hstatic & _).
    assert (forall a : @Account num,
              a ∈ db_accounts st2 ->
              exists a', a' ∈ db_accounts st' /\ account_id a' = account_id a
                         /\ account_name a' = account_name a
                         /\ currency a' = currency a) as Hlift.
    { intros a Hin.
      destruct (static_transfer _ _ a Hstatic Hin) as (a' & ? & ? & ? & ? & _).
      eauto. }
    destruct Hcash as (Hin1 & Hn1 & Hc1). destruct Hpay as (Hin2 & Hn2 & Hc2).
    destruct Hrev as (Hin3 & Hn3 & Hc3).
    destruct (Hlift _ Hin1) as (cash' & ? & Hi1 & ? & ?).
    destruct (Hlift _ Hin2) as (payable' & ? & Hi2 & ? & ?).
    destruct (Hlift _ Hin3) as (feeRevenue' & ? & Hi3 & ? & ?).
    rewrite Hcore, Hviews, <- Hi1, <- Hi2, <- Hi3.
    destruct (num_lt num_zero
                (amount [*] fxFeeRate (ledgerConfig st) source settlement [*] rate)%num)
      eqn:Hpos.
    + destruct Hfx as (fxSpec & a & -> & HfxSpec & Hin4 & Hn4 & Hc4).
      destruct (Hlift _ Hin4) as (a' & ? & Hi4 & ? & ?).
      exists amount, merchantId, fee, rate, cash', payable', feeSpec,
        feeRevenue', [a'].
      simpl. rewrite Hpos, <- Hi4.
      split_and!; try done; try congruence.
      exists fxSpec, a'. split_and!; try done; congruence.
    + subst fxRevenue.
      exists amount, merchantId, fee, rate, cash', payable', feeSpec,
        feeRevenue', [].
      simpl. rewrite Hpos. split_and!; try done; congruence.
  - eexists _, _. split; [by vm_compute |].
    split_and!; [| by vm_compute..].
    repeat (apply Forall2_cons; split; [split_and!; by vm_compute |]).
    apply Forall2_nil_2.
Qed.


(** With the default configuration, 100 USD settled in EUR with a fee of 2.9
    credits the Merchant Payable account with [92 - 2.668 - 0.92] as binary64
    arithmetic computes it: 88.41199999999999, the double next below the one
    that 88.412 denotes. *)
Lemma captured_payable_credit_is_rounded :
  (exists st' created,
     executeActions "PaymentCaptured"
       (ex_payment 100 "USD" "M1" (Some 2.9%float) (Some "EUR"))
       (empty_store defaultConfig) = (st', Return created)
     /\ amount <$> created
        = [ 92%float; (92 - 2.668 - 0.92)%float; 2.668%float; 0.92%float ])
  /\ (92 - 2.668 - 0.92)%float = 88.41199999999999%float
  /\ PrimFloat.eqb (92 - 2.668 - 0.92) 88.412 = false
  /\ (92 - 2.668 - 0.92)%float <> 88.412%float
  /\ Prim2SF (92 - 2.668 - 0.92) = S754_finite false 6221441410235629 (-46)
  /\ Prim2SF 88.412 = S754_finite false 6221441410235630 (-46).
Proof.
  split_and!.
  - eexists _, _. split; by vm_compute.
  - by vm_compute.
  - by vm_compute.
  - intros H. apply (f_equal Prim2SF) in H. vm_compute in H. discriminate.
  - by vm_compute.
  - by vm_compute.
Qed.

(** The guard of [getExchangeRate] is a truthiness test of [rates[c]].  It
    refuses a currency that is present in the table with multiplier 0, where
    the quotient [rates[to] / rates[from]] would be 0; and it lets through a
    currency that is absent from the table but names a member of
    [Object.prototype], for which the quotient is [NaN]. *)
Lemma getExchangeRate_guard_is_truthiness :
  (cfg_rates ex_zero_rate_config !! "USD" = Some 1%float
   /\ cfg_rates ex_zero_rate_config !! "XXX" = Some 0%float
   /\ "USD" <> "XXX"
   /\ getExchangeRate ex_zero_rate_config "USD" "XXX"
      = Throw (ExchangeRateUnavailable "USD" "XXX")
   /\ getExchangeRate ex_zero_rate_config "USD" "XXX" <> Return (0 / 1)%float)
  /\ (cfg_rates defaultConfig !! "constructor" = None
      /\ "USD" <> "constructor"
      /\ getExchangeRate defaultConfig "USD" "constructor"
         <> Throw (ExchangeRateUnavailable "USD" "constructor")
      /\ exists rate,
           getExchangeRate defaultConfig "USD" "constructor" = Return rate
           /\ PrimFloat.is_nan rate = true).
Proof.
  split; split_and!; try done; try by vm_compute.
  exists PrimFloat.nan. by vm_compute.
Qed.


Lemma getExchangeRate_contract_witness :
  getExchangeRate defaultConfig "EUR" "EUR" = Return 1%float
  /\ getExchangeRate defaultConfig "USD" "EUR" = Return (0.92 / 1)%float
  /\ getExchangeRate ex_zero_rate_config "USD" "XXX"
     = Throw (ExchangeRateUnavailable "USD" "XXX")
  /\ getExchangeRate defaultConfig "USD" "JPY"
     = Throw (ExchangeRateUnavailable "USD" "JPY").
Proof.
  split_and!.
  - destruct (getExchangeRate_contract defaultConfig "EUR" "EUR") as (Hsame & _).
    apply Hsame. reflexivity.
  - destruct (getExchangeRate_contract defaultConfig "USD" "EUR") as (_ & Hdiv & _).
    apply Hdiv; [discriminate | reflexivity..].
  - destruct (getExchangeRate_contract ex_zero_rate_config "USD" "XXX")
      as (_ & _ & Hfail).
    apply Hfail; [discriminate | right; right; by exists 0%float].
  - destruct (getExchangeRate_contract defaultConfig "USD" "JPY") as (_ & _ & Hfail).
    apply Hfail; [discriminate | right; left; split; reflexivity].
Defined.

Lemma partial_refund_insufficient_funds_witness :
  exists st',
    executeActions "PaymentPartiallyRefunded" (ex_partial 100 50 "USD" "M1") ex_store_m1
    = (st', Throw InsufficientFundsError)
    /\ db_entries st' = db_entries ex_store_m1
    /\ db_accounts st' = db_accounts ex_store_m1.
Proof.
  apply (partial_refund_insufficient_funds ex_store_m1 (ex_partial 100 50 "USD" "M1")
           100%float 50%float "USD" "M1" 1%nat
           (ex_account "uuid-4" "Merchant Payable - M1" Liability "USD" Credit 30));
    reflexivity.
Defined.

Lemma full_refund_insufficient_funds_witness :
  (exists st',
     postEvents "PaymentRefunded" (ex_payment 50 "USD" "M1" None None) ex_store_m1
     = (st', Throw InsufficientFundsError)
     /\ db_entries st' = db_entries ex_store_m1
     /\ db_accounts st' = db_accounts ex_store_m1
     /\ db_events st'
        = (db_events ex_store_m1
           ++ [ {| ev_event_id := uuid (uuid_next ex_store_m1);
                   ev_event_type := "PaymentRefunded";
                   ev_payload := ex_payment 50 "USD" "M1" None None |} ])%list)
  /\ (exists st' id,
        postEvents "PaymentRefunded" (ex_payment 50 "USD" "M2" None None) ex_store_m1
        = (st', Throw InsufficientFundsError)
        /\ db_entries st' = db_entries ex_store_m1
        /\ db_accounts st'
           = db_accounts ex_store_m1
             ++ [ ex_account id "Merchant Payable - M2" Liability "USD" Credit 0 ]
        /\ db_events st'
           = (db_events ex_store_m1
              ++ [ {| ev_event_id := uuid (uuid_next ex_store_m1);
                      ev_event_type := "PaymentRefunded";
                      ev_payload := ex_payment 50 "USD" "M2" None None |} ])%list).
Proof.
  split.
  - destruct (full_refund_insufficient_funds ex_store_m1
                (ex_payment 50 "USD" "M1" None None) 50%float "USD" "M1")
      as (st' & Hrun & He & (created & Ha & Hc) & Hev); [reflexivity.. |].
    change (created = []) in Hc. subst created. rewrite app_nil_r in Ha.
    by exists st'.
  - destruct (full_refund_insufficient_funds ex_store_m1
                (ex_payment 50 "USD" "M2" None None) 50%float "USD" "M2")
      as (st' & Hrun & He & (created & Ha & Hc) & Hev); [reflexivity.. |].
    change (exists id,
              created = [ex_account id "Merchant Payable - M2" Liability "USD" Credit 0])
      in Hc.
    destruct Hc as [id ->]. by exists st', id.
Defined.

(** The failed refund of 50 USD against a balance of 30 USD leaves a document
    behind: the event collection, empty before, holds the event afterwards.
    The same refund for a merchant that has no Merchant Payable account
    leaves a second one: the account, created before the balance check. *)
Lemma failed_refund_leaves_documents :
  ((postEvents "PaymentRefunded" (ex_payment 50 "USD" "M1" None None) ex_store_m1).2
   = Throw InsufficientFundsError
   /\ db_events ex_store_m1 = []
   /\ db_events
        (postEvents "PaymentRefunded" (ex_payment 50 "USD" "M1" None None) ex_store_m1).1
      = [ {| ev_event_id := "uuid-100"; ev_event_type := "PaymentRefunded";
             ev_payload := ex_payment 50 "USD" "M1" None None |} ])
  /\ ((postEvents "PaymentRefunded" (ex_payment 50 "USD" "M2" None None) ex_store_m1).2
      = Throw InsufficientFundsError
      /\ Forall (fun a => account_name a <> "Merchant Payable - M2")
           (db_accounts ex_store_m1)
      /\ db_accounts
           (postEvents "PaymentRefunded" (ex_payment 50 "USD" "M2" None None)
              ex_store_m1).1
         = db_accounts ex_store_m1
           ++ [ ex_account "uuid-103" "Merchant Payable - M2" Liability "USD" Credit 0 ]).
Proof.
  split; split_and!; try by vm_compute.
  repeat (apply Forall_cons; split; [discriminate |]). apply Forall_nil_2.
Qed.

Lemma paymentCaptured_validation_is_falsiness_witness :
  (executeActions "PaymentCaptured" (ex_payment 0 "USD" "M1" (Some 0%float) None)
     ex_store_m1).2 = Throw (MissingFields "PaymentCaptured")
  /\ (executeActions "PaymentCaptured" (ex_payment 100 "USD" "M1" (Some 0%float) None)
        ex_store_m1).2 <> Throw (MissingFields "PaymentCaptured")
  /\ (exists st' created,
        executeActions "PaymentCaptured" (ex_payment 100 "USD" "M1" (Some 0%float) None)
          ex_store_m1 = (st', Return created)
        /\ length created = 3%nat).
Proof.
  split_and!.
  - apply (paymentCaptured_validation_is_falsiness ex_store_m1
             (ex_payment 0 "USD" "M1" (Some 0%float) None)).
    left. reflexivity.
  - apply (proj2 (paymentCaptured_validation_is_falsiness ex_store_m1
                    (ex_payment 100 "USD" "M1" (Some 0%float) None))
             100%float "USD" "M1"); reflexivity.
  - eexists _, _. split; by vm_compute.
Defined.

(** ** Worked instances *)


Lemma captured_cross_currency_entries_witness :
  exists st' created,
    executeActions "PaymentCaptured"
      (ex_payment 100 "USD" "M1" (Some 2.9%float) (Some "EUR"))
      (empty_store defaultConfig) = (st', Return created)
    /\ exists rate ids,
         getExchangeRate defaultConfig "USD" "EUR" = Return rate
         /\ core <$> created
            = zip_with (fun id amt => (id, amt.1, amt.2, "EUR")) ids
                [ (Debit, 100 * rate);
                  (Credit, 100 * rate - 2.9 * rate - 100 * 0.01 * rate);
                  (Credit, 2.9 * rate);
                  (Credit, 100 * 0.01 * rate) ]%float
         /\ length ids = 4%nat.
Proof.
  destruct (executeActions "PaymentCaptured"
              (ex_payment 100 "USD" "M1" (Some 2.9%float) (Some "EUR"))
              (empty_store defaultConfig)) as [st' [created | e]] eqn:Hrun;
    [| by vm_compute in Hrun].
  exists st', created. split; [reflexivity |].
  destruct (proj1 captured_cross_currency_entries float Float_Number
              (empty_store defaultConfig) st'
              (ex_payment 100 "USD" "M1" (Some 2.9%float) (Some "EUR"))
              "USD" "EUR" created)
    as (amount & merchantId & fee & rate & cash & payable & feeSpec & feeRevenue
        & fxRevenue & Ha & _ & Hfee & Hrate & _ & _ & _ & _ & Hfx & Hcore);
    [reflexivity | reflexivity | reflexivity | discriminate | exact Hrun |].
  injection Ha as <-. injection Hfee as <-.
  vm_compute in Hrate. injection Hrate as <-.
  exists 0.92%float,
    ((account_id <$> [cash; payable; feeRevenue]) ++ (account_id <$> fxRevenue)).
  split; [by vm_compute |].
  change (fxFeeRate (ledgerConfig (empty_store defaultConfig)) "USD" "EUR")
    with 0.01%float in *.
  match type of Hfx with
  | if ?b then _ else _ => change b with true in Hfx
  end.
  destruct Hfx as (fxSpec & a & -> & _). split; [exact Hcore | reflexivity].
Defined.

(** After the cash account of a posted group was edited to EUR, the reversal
    of the balanced group debits 100 and credits 92. *)
Lemma reversal_with_conversion_unbalanced :
  unbalanced (sumBy Debit (legs (groupEntries (ex_store_posted "EUR") "uuid-7")))
    (sumBy Credit (legs (groupEntries (ex_store_posted "EUR") "uuid-7"))) = false
  /\ exists st' g' revs,
       reverse "uuid-7" None (ex_store_posted "EUR") = (st', Return (g', revs))
       /\ sumBy Debit (legs revs) = 100%float
       /\ sumBy Credit (legs revs) = 92%float
       /\ unbalanced (sumBy Debit (legs revs)) (sumBy Credit (legs revs)) = true.
Proof.
  split; [by vm_compute |].
  eexists _, _, _. split; [by vm_compute |]. split_and!; by vm_compute.
Qed.

Lemma reversal_balances_without_conversion_witness :
  exists st' g' revs,
    reverse "uuid-7" None (ex_store_posted "USD") = (st', Return (g', revs))
    /\ unbalanced (sumBy Debit (legs revs)) (sumBy Credit (legs revs)) = false.
Proof.
  eexists _, _, _. split; [by vm_compute |].
  eapply (reversal_balances_without_conversion (ex_store_posted "USD") _ "uuid-7" None);
    [by vm_compute | | by vm_compute].
  repeat (apply Forall_cons; split;
          [intros i a Hf; vm_compute in Hf; injection Hf as <- <-; reflexivity |]).
  apply Forall_nil_2.
Defined.




(** ** Worked instances of the further properties *)

Lemma findOrCreateAccount_idempotent_witness :
  exists st1 a,
    findOrCreateAccount (ex_spec "Cash - USD" Revenue Credit "USD") ex_store_m1
    = (st1, Return a)
    /\ account_name a = "Cash - USD" /\ currency a = "USD"
    /\ findOrCreateAccount (ex_spec "Cash - USD" Asset Debit "USD") st1
       = (st1, Return a).
Proof.
  destruct (findOrCreateAccount_idempotent ex_store_m1
              (ex_spec "Cash - USD" Revenue Credit "USD") eq_refl eq_refl)
    as (st1 & a & Hrun & Hn & Hc & _ & _ & Hagain).
  exists st1, a. split_and!; [exact Hrun | exact Hn | exact Hc |].
  apply Hagain; reflexivity.
Defined.


Lemma full_refund_debits_payable_credits_cash_witness :
  exists st' created,
    executeActions "PaymentRefunded" (ex_payment 50 "USD" "M1" None None)
      (run ex_capture (empty_store defaultConfig)) = (st', Return created)
    /\ length created = 2%nat
    /\ db_entries st'
       = db_entries (run ex_capture (empty_store defaultConfig)) ++ created.
Proof.
  destruct (executeActions "PaymentRefunded" (ex_payment 50 "USD" "M1" None None)
              (run ex_capture (empty_store defaultConfig)))
    as [st' [created | e]] eqn:Hrun; [| by vm_compute in Hrun].
  exists st', created. split; [reflexivity |].
  destruct (full_refund_debits_payable_credits_cash defaultConfig ex_capture
              (ex_payment 50 "USD" "M1" None None) st' created Hrun)
    as (amount & cur & merchantId & payable & cash & payable' & cash'
        & _ & _ & _ & Hcore & He & _).
  split; [| exact He].
  apply (f_equal length) in Hcore. rewrite length_fmap in Hcore. exact Hcore.
Defined.

Lemma partial_refund_debits_payable_credits_cash_witness :
  exists st' created,
    executeActions "PaymentPartiallyRefunded" (ex_partial 100 40 "USD" "M1")
      (run ex_capture (empty_store defaultConfig)) = (st', Return created)
    /\ length created = 2%nat
    /\ db_entries st'
       = db_entries (run ex_capture (empty_store defaultConfig)) ++ created.
Proof.
  destruct (executeActions "PaymentPartiallyRefunded" (ex_partial 100 40 "USD" "M1")
              (run ex_capture (empty_store defaultConfig)))
    as [st' [created | e]] eqn:Hrun; [| by vm_compute in Hrun].
  exists st', created. split; [reflexivity |].
  destruct (partial_refund_debits_payable_credits_cash defaultConfig ex_capture
              (ex_partial 100 40 "USD" "M1") st' created Hrun)
    as (originalAmount & refundAmount & cur & merchantId & payable & cash
        & payable' & cash' & _ & _ & _ & _ & _ & Hcore & He & _).
  split; [| exact He].
  apply (f_equal length) in Hcore. rewrite length_fmap in Hcore. exact Hcore.
Defined.

Lemma partial_refund_checks_in_order_witness :
  (exists st',
     executeActions "PaymentPartiallyRefunded" (ex_partial 100 150 "USD" "M2")
       ex_store_m1 = (st', Throw RefundExceedsOriginalError)
     /\ db_accounts st' = db_accounts ex_store_m1
     /\ db_entries st' = db_entries ex_store_m1)
  /\ (exists st' id,
        executeActions "PaymentPartiallyRefunded" (ex_partial 100 40 "USD" "M2")
          ex_store_m1 = (st', Throw InsufficientFundsError)
        /\ db_accounts st'
           = db_accounts ex_store_m1
             ++ [ newAccount (ex_spec "Merchant Payable - M2" Liability Credit "USD") id ]
        /\ db_entries st' = db_entries ex_store_m1).
Proof.
  split.
  - apply (partial_refund_checks_in_order ex_store_m1
             (ex_partial 100 150 "USD" "M2") 100%float 150%float "USD" "M2");
      reflexivity.
  - apply (partial_refund_checks_in_order ex_store_m1
             (ex_partial 100 40 "USD" "M2") 100%float 40%float "USD" "M2");
      reflexivity.
Defined.

Lemma captured_same_currency_entries_witness :
  exists st' created,
    executeActions "PaymentCaptured" (ex_payment 100 "USD" "M1" (Some 2.9%float) None)
      (empty_store defaultConfig) = (st', Return created)
    /\ length created = 3%nat
    /\ legs created = [ (Debit, 100%float); (Credit, (100 - 2.9 - 0)%float); (Credit, 2.9%float) ].
Proof.
  destruct (executeActions "PaymentCaptured"
              (ex_payment 100 "USD" "M1" (Some 2.9%float) None)
              (empty_store defaultConfig)) as [st' [created | e]] eqn:Hrun;
    [| by vm_compute in Hrun].
  exists st', created. split; [reflexivity |].
  destruct (captured_same_currency_entries (empty_store defaultConfig) st'
              (ex_payment 100 "USD" "M1" (Some 2.9%float) None) "USD" created)
    as (amount & merchantId & fee & feeSpec & cash & payable & feeRevenue
        & Ha & _ & Hfee & _ & _ & _ & _ & Hcore & _);
    [reflexivity | reflexivity | by left | exact Hrun |].
  injection Ha as <-. injection Hfee as <-.
  split.
  - apply (f_equal length) in Hcore. rewrite length_fmap in Hcore. exact Hcore.
  - rewrite legs_core, Hcore. reflexivity.
Defined.

Lemma posted_entries_carry_event_id_witness :
  exists st' created,
    postEvents "PaymentCaptured" (ex_payment 100 "USD" "M1" (Some 2.9%float) None)
      ex_store_m1 = (st', Return created)
    /\ Forall (fun e => entryGroupId e = "uuid-101" /\ event_id e = Some "uuid-100"
                        /\ transaction_id e = Some "uuid-102") created
    /\ (2 <= length created)%nat.
Proof.
  destruct (postEvents "PaymentCaptured"
              (ex_payment 100 "USD" "M1" (Some 2.9%float) None) ex_store_m1)
    as [st' [created | e]] eqn:Hrun; [| by vm_compute in Hrun].
  exists st', created. split; [reflexivity |].
  destruct (posted_entries_carry_event_id ex_store_m1 st' "PaymentCaptured"
              (ex_payment 100 "USD" "M1" (Some 2.9%float) None) created Hrun)
    as (_ & _ & Hlen & Hall).
  split; [| exact Hlen].
  eapply Forall_impl; [exact Hall |].
  intros e (Hg & Hev & _ & Ht & _). split_and!; [exact Hg | exact Hev | exact Ht].
Defined.
Lemma failed_reversal_blocks_the_group_witness :
  exists st' err,
    reverse "uuid-7" None ex_store_orphaned = (st', Throw err)
    /\ db_accounts st' = db_accounts ex_store_orphaned
    /\ length (db_entries st') = 2%nat
    /\ reverse "uuid-7" None st' = (st', Throw AlreadyReversedError).
Proof.
  destruct (failed_reversal_blocks_the_group ex_store_orphaned "uuid-7" None
              (ex_entry "uuid-8" "uuid-7" "uuid-3" Debit 100 "USD")
              [ex_entry "uuid-9" "uuid-7" "uuid-4" Credit 100 "USD"])
    as (st' & err & Hrun & Ha & Hcore & _ & Hagain).
  - reflexivity.
  - repeat (apply Forall_cons; split; [reflexivity |]). apply Forall_nil_2.
  - exists 0%nat, (ex_account "uuid-3" "Cash - USD" Asset "USD" Debit 100), 1%float.
    split; reflexivity.
  - intros Hall. apply Forall_cons in Hall as [(i & a & rate & Hf & _) _].
    vm_compute in Hf. discriminate Hf.
  - exists st', err. split_and!; [exact Hrun | exact Ha | | apply Hagain].
    apply (f_equal length) in Hcore. rewrite !length_fmap in Hcore. exact Hcore.
Defined.



Lemma accepted_posting_is_applied_witness :
  exists st' g es,
    postAccountingEntries (ex_posting "uuid-3") ex_store_m1 = (st', Json 201 (g, es))
    /\ g = "uuid-100"
    /\ entry_id <$> es = ["uuid-101"; "uuid-102"]
    /\ db_entries st' = es
    /\ acct_static <$> db_accounts st'
       = [ ("uuid-3", "uuid-3", "Cash - USD", Asset, "USD", Active, Debit);
           ("uuid-4", "uuid-4", "Merchant Payable - M1", Liability, "USD", Active,
            Credit) ].
Proof.
  destruct (postAccountingEntries (ex_posting "uuid-3") ex_store_m1)
    as [st' [s [g es] | s msg | e]] eqn:Hrun;
    [| by vm_compute in Hrun..].
  assert (s = 201%nat) as -> by (vm_compute in Hrun; congruence).
  destruct (accepted_posting_is_applied (ex_posting "uuid-3") ex_store_m1 st' g es Hrun)
    as (entries & Hbody & _ & Hg & _ & Hids & _ & _ & He & Hs & _).
  injection Hbody as <-.
  exists st', g, es.
  split_and!; [reflexivity | exact Hg | exact Hids | exact He | exact Hs].
Defined.


Lemma refused_events_status_witness :
  postEvents_status "PaymentCaptured"
    (postEvents "PaymentCaptured" (ex_payment 100 "USD" "M1" None None) ex_store_m1).2
  = Some 500%nat
  /\ postEvents_status "PaymentPartiallyRefunded"
       (postEvents "PaymentPartiallyRefunded" (ex_partial 100 150 "USD" "M1")
          ex_store_m1).2 = Some 400%nat
  /\ postEvents_status "Insufficient funds"
       (postEvents "Insufficient funds" (ex_payment 100 "USD" "M1" None None)
          ex_store_m1).2 = Some 400%nat
  /\ postEvents_status "PaymentVoided"
       (postEvents "PaymentVoided" (ex_payment 100 "USD" "M1" None None)
          ex_store_m1).2 = Some 500%nat.
Proof.
  split_and!.
  - apply (proj1 (refused_events_status ex_store_m1
                    (ex_payment 100 "USD" "M1" None None))).
    do 3 right. reflexivity.
  - apply (proj1 (proj2 (refused_events_status ex_store_m1
                           (ex_partial 100 150 "USD" "M1")))
             100%float 150%float "USD" "M1"); reflexivity.
  - apply (proj2 (proj2 (proj2 (refused_events_status ex_store_m1
                                  (ex_payment 100 "USD" "M1" None None))))
             "Insufficient funds"); [discriminate.. | reflexivity].
  - apply (proj2 (proj2 (proj2 (refused_events_status ex_store_m1
                                  (ex_payment 100 "USD" "M1" None None))))
             "PaymentVoided"); [discriminate.. | reflexivity].
Defined.
